(** * A shallow embedding of the automated repair pipeline

    The development follows the Python sources:
    - [nodes/fixer_node.py]: file registry, fault localisation, patch
      application and the proposer node;
    - [nodes/testing_node.py] and [main_graph.py]: the validation node, the
      router and the rollback;
    - [sre_validation_system.py]: the oracle client and the six validation
      stages.

    Text is ASCII text ([string]); a Python [dict] whose iteration order is
    observable is an association list in insertion order; a Python [set] is a
    [gset]; the file system is a finite map from paths to files. *)

From Stdlib Require Import ZArith String Ascii List Bool Lia.
From stdpp Require Import base option list gmap strings.
Import ListNotations.

Local Open Scope string_scope.
Local Open Scope Z_scope.
#[local] Set Warnings "-clear-no-such-hyp".

(** ** Python string methods *)

Module PyStr.

(** [str.isspace] on one ASCII character: TAB, LF, VT, FF, CR, the four
    separators FS, GS, RS, US and the blank. *)
Definition is_space (c : ascii) : bool :=
  let n := nat_of_ascii c in
  ((9 <=? n)%nat && (n <=? 13)%nat) || ((28 <=? n)%nat && (n <=? 32)%nat).

Definition is_digit (c : ascii) : bool :=
  let n := nat_of_ascii c in (48 <=? n)%nat && (n <=? 57)%nat.

Definition is_upper (c : ascii) : bool :=
  let n := nat_of_ascii c in (65 <=? n)%nat && (n <=? 90)%nat.

Definition is_lower (c : ascii) : bool :=
  let n := nat_of_ascii c in (97 <=? n)%nat && (n <=? 122)%nat.

(** The class [\w] of the [re] module, on ASCII text. *)
Definition is_word (c : ascii) : bool :=
  is_digit c || is_upper c || is_lower c || Ascii.eqb c "_".

Definition lower_char (c : ascii) : ascii :=
  if is_upper c then ascii_of_nat (nat_of_ascii c + 32) else c.

(** [s.lower()] *)
Fixpoint lower (s : string) : string :=
  match s with
  | EmptyString => EmptyString
  | String c s' => String (lower_char c) (lower s')
  end.

(** [s.lstrip()] *)
Fixpoint lstrip (s : string) : string :=
  match s with
  | EmptyString => EmptyString
  | String c s' => if is_space c then lstrip s' else s
  end.

(** [s.rstrip()]: a character is kept when it is not a blank or when
    something is kept after it. *)
Fixpoint rstrip (s : string) : string :=
  match s with
  | EmptyString => EmptyString
  | String c s' =>
      match rstrip s' with
      | EmptyString => if is_space c then EmptyString else String c EmptyString
      | r => String c r
      end
  end.

(** [s.strip()] *)
Definition strip (s : string) : string := rstrip (lstrip s).

(** [s.startswith(p)] *)
Fixpoint startswith (p s : string) : bool :=
  match p, s with
  | EmptyString, _ => true
  | String a p', String b s' => Ascii.eqb a b && startswith p' s'
  | String _ _, EmptyString => false
  end.

(** [s.endswith(p)] *)
Fixpoint endswith (p s : string) : bool :=
  match s with
  | EmptyString => String.eqb p EmptyString
  | String _ s' => String.eqb p s || endswith p s'
  end.

(** [p in s] for strings. *)
Fixpoint contains (p s : string) : bool :=
  startswith p s ||
  match s with
  | EmptyString => false
  | String _ s' => contains p s'
  end.

(** [s.split(sep)] for a one-character separator. *)
Fixpoint split (sep : ascii) (s : string) : list string :=
  match s with
  | EmptyString => [EmptyString]
  | String c s' =>
      if Ascii.eqb c sep then EmptyString :: split sep s'
      else match split sep s' with
           | [] => [String c EmptyString]
           | w :: ws => String c w :: ws
           end
  end.

(** [sep.join(l)] *)
Definition join (sep : string) (l : list string) : string := String.concat sep l.

(** [s.split(sep, 1)[-1]]: what follows the first [sep], or all of [s]
    when [sep] does not occur. *)
Fixpoint after_first (sep : ascii) (s : string) : option string :=
  match s with
  | EmptyString => None
  | String c s' => if Ascii.eqb c sep then Some s' else after_first sep s'
  end.

Definition split1_last (sep : ascii) (s : string) : string :=
  default s (after_first sep s).

(** [os.path.basename] on POSIX paths: what follows the last slash. *)
Fixpoint basename (p : string) : string :=
  match p with
  | EmptyString => EmptyString
  | String c p' =>
      if contains "/" p' then basename p'
      else if Ascii.eqb c "/" then p' else p
  end.

(** The text before the last dot; all of [s] when it has no dot. *)
Fixpoint drop_ext (s : string) : string :=
  match s with
  | EmptyString => EmptyString
  | String c s' =>
      if Ascii.eqb c "." && negb (contains "." s') then EmptyString
      else String c (drop_ext s')
  end.

Fixpoint all_dots (s : string) : bool :=
  match s with
  | EmptyString => true
  | String c s' => Ascii.eqb c "." && all_dots s'
  end.

(** [os.path.splitext(name)[0]] for a base name: the text before the last
    dot, unless only dots come before it (the leading dots of a name are
    skipped: [".java"] and ["..java"] have no extension). *)
Definition splitext_stem (name : string) : string :=
  let stem := drop_ext name in
  if all_dots stem then name else stem.

(** [os.path.join(a, b)] on POSIX paths. *)
Definition path_join (a b : string) : string :=
  if startswith "/" b then b
  else if String.eqb a "" || endswith "/" a then a ++ b
  else a ++ "/" ++ b.

(** [s[:n]] *)
Fixpoint take (n : nat) (s : string) : string :=
  match n, s with
  | S k, String c s' => String c (take k s')
  | _, _ => EmptyString
  end.

(** [s[n:]] *)
Fixpoint drop (n : nat) (s : string) : string :=
  match n, s with
  | S k, String _ s' => drop k s'
  | _, _ => s
  end.

(** [s.find(c)] and [s.rfind(c)] for one character, [-1] when absent. *)
Fixpoint find_char (c : ascii) (s : string) : Z :=
  match s with
  | EmptyString => -1
  | String c' s' =>
      if Ascii.eqb c c' then 0
      else let i := find_char c s' in if i <? 0 then -1 else i + 1
  end.

Fixpoint rfind_char (c : ascii) (s : string) : Z :=
  match s with
  | EmptyString => -1
  | String c' s' =>
      let i := rfind_char c s' in
      if 0 <=? i then i + 1 else if Ascii.eqb c c' then 0 else -1
  end.

(** [s[i:j]] for [0 <= i <= j]. *)
Definition slice (i j : Z) (s : string) : string :=
  String.substring (Z.to_nat i) (Z.to_nat (j - i)) s.

End PyStr.

(** ** The regular expressions of [fixer_node.py]

    The four patterns of the source only repeat character classes, so a
    pattern is a list of alternatives and an alternative a sequence of atoms.
    Matching is the backtracking search of the [re] module: repetitions are
    greedy and give characters back one at a time, alternatives are tried in
    order, and [findall] resumes after the end of each match. *)

Module Re.
Import PyStr.

Inductive atom : Type :=
| Lit (c : ascii)               (* one literal character *)
| Plus (cls : ascii -> bool)    (* [cls+] *)
| Star (cls : ascii -> bool)    (* [cls*] *)
| GroupOpen                     (* [(] of the capture group *)
| GroupClose                    (* [)] of the capture group *)
| WordBoundary                  (* [\b] *)
| LineStart.                    (* [^] under [re.MULTILINE] *)

Definition alternative := list atom.
Definition pattern := list alternative.

Fixpoint lits (s : string) : alternative :=
  match s with
  | EmptyString => []
  | String c s' => Lit c :: lits s'
  end.

(** The capture group while a match is being built: whether the group is
    open, and its text so far. *)
Record capture := { recording : bool; text : string }.

Definition no_capture : capture := {| recording := false; text := "" |}.

Definition push (c : ascii) (cap : capture) : capture :=
  if recording cap
  then {| recording := true; text := text cap ++ String c "" |}
  else cap.

Definition word_before (prev : option ascii) : bool :=
  match prev with Some c => is_word c | None => false end.

Definition word_after (s : string) : bool :=
  match s with String c _ => is_word c | EmptyString => false end.

Definition at_line_start (prev : option ascii) : bool :=
  match prev with Some c => Ascii.eqb c "010" | None => true end.

(** A continuation receives the character before the position, the rest of
    the text, the capture and the number of characters consumed. *)
Definition cont := option ascii -> string -> capture -> nat -> option (string * nat).

(** Greedy repetition of a class, longest run first. *)
Fixpoint greedy (cls : ascii -> bool) (k : cont)
    (prev : option ascii) (s : string) (cap : capture) (n : nat)
    : option (string * nat) :=
  match s with
  | String c s' =>
      if cls c then
        match greedy cls k (Some c) s' (push c cap) (S n) with
        | Some r => Some r
        | None => k prev s cap n
        end
      else k prev s cap n
  | EmptyString => k prev s cap n
  end.

Fixpoint match_here (r : alternative) : cont :=
  match r with
  | [] => fun _ _ cap n => Some (text cap, n)
  | a :: r' =>
      let k := match_here r' in
      match a with
      | Lit c => fun _ s cap n =>
          match s with
          | String c' s' =>
              if Ascii.eqb c c' then k (Some c') s' (push c' cap) (S n) else None
          | EmptyString => None
          end
      | Plus cls => fun _ s cap n =>
          match s with
          | String c s' =>
              if cls c then greedy cls k (Some c) s' (push c cap) (S n) else None
          | EmptyString => None
          end
      | Star cls => greedy cls k
      | GroupOpen => fun prev s _ n => k prev s {| recording := true; text := "" |} n
      | GroupClose => fun prev s cap n => k prev s {| recording := false; text := text cap |} n
      | WordBoundary => fun prev s cap n =>
          if xorb (word_before prev) (word_after s) then k prev s cap n else None
      | LineStart => fun prev s cap n =>
          if at_line_start prev then k prev s cap n else None
      end
  end.

(** The first alternative that matches at this position. *)
Fixpoint match_at (p : pattern) (prev : option ascii) (s : string)
    : option (string * nat) :=
  match p with
  | [] => None
  | r :: p' =>
      match match_here r prev s no_capture 0%nat with
      | Some m => Some m
      | None => match_at p' prev s
      end
  end.

(** [p.findall(s)] for patterns with one group per alternative: the group
    of every match, left to right, matches not overlapping.  [skip] counts
    the characters of the last match still to be passed over. *)
Fixpoint scan (p : pattern) (skip : nat) (prev : option ascii) (s : string)
    : list string :=
  match skip with
  | S k =>
      match s with
      | String c s' => scan p k (Some c) s'
      | EmptyString => []
      end
  | O =>
      match match_at p prev s with
      | Some (g, n) =>
          g :: match s with
               | String c s' => scan p (Nat.pred n) (Some c) s'
               | EmptyString => []
               end
      | None =>
          match s with
          | String c s' => scan p 0%nat (Some c) s'
          | EmptyString => []
          end
      end
  end.

Definition findall (p : pattern) (s : string) : list string :=
  scan p 0%nat None s.

(** [p.search(s)], reduced to the group of the first match. *)
Definition search (p : pattern) (s : string) : option string :=
  head (findall p s).

Definition dot_or_word (c : ascii) : bool := is_word c || Ascii.eqb c ".".

Definition frame_char (c : ascii) : bool :=
  is_word c || Ascii.eqb c "." || Ascii.eqb c "$".

(** [CLASS_RE = re.compile(r"\bclass\s+(\w+)")] *)
Definition CLASS_RE : pattern :=
  [ ([WordBoundary] ++ lits "class"
      ++ [Plus is_space; GroupOpen; Plus is_word; GroupClose])%list ].

(** [IMPORT_RE = re.compile(r"^import\s+([\w\.]+)\s*;", re.MULTILINE)] *)
Definition IMPORT_RE : pattern :=
  [ ([LineStart] ++ lits "import"
      ++ [Plus is_space; GroupOpen; Plus dot_or_word; GroupClose;
          Star is_space; Lit ";"])%list ].

(** [CALL_RE = re.compile(r"new\s+(\w+)\(|(\w+)\.")]; the source keeps
    [c[0] or c[1]] of each match, that is the group of the alternative
    that matched. *)
Definition CALL_RE : pattern :=
  [ (lits "new" ++ [Plus is_space; GroupOpen; Plus is_word; GroupClose; Lit "("])%list;
    [GroupOpen; Plus is_word; GroupClose; Lit "."] ].

(** [STACK_TRACE_RE = re.compile(r"\bat\s+[\w\.$]+\((\w+\.java):\d+\)")] *)
Definition STACK_TRACE_RE : pattern :=
  [ ([WordBoundary] ++ lits "at"
      ++ [Plus is_space; Plus frame_char; Lit "("; GroupOpen; Plus is_word]
      ++ lits ".java" ++ [GroupClose; Lit ":"; Plus is_digit; Lit ")"])%list ].

End Re.

(** ** Python dictionaries in insertion order *)

Module Dict.
Section Dict.
Context {V : Type}.

Definition t : Type := list (string * V).

Definition keys (d : t) : list string := map fst d.

(** [d.get(k)] *)
Fixpoint get (k : string) (d : t) : option V :=
  match d with
  | [] => None
  | (k', v) :: d' => if String.eqb k k' then Some v else get k d'
  end.

(** [k in d] *)
Definition mem (k : string) (d : t) : bool :=
  match get k d with Some _ => true | None => false end.

(** [d[k] = v]: an existing key keeps its place, a new key goes last. *)
Fixpoint set (k : string) (v : V) (d : t) : t :=
  match d with
  | [] => [(k, v)]
  | (k', v') :: d' =>
      if String.eqb k k' then (k, v) :: d' else (k', v') :: set k v d'
  end.

(** [del d[k]] for a key that is present. *)
Fixpoint del (k : string) (d : t) : t :=
  match d with
  | [] => []
  | (k', v') :: d' => if String.eqb k k' then d' else (k', v') :: del k d'
  end.
End Dict.
Arguments t : clear implicits.
End Dict.

(** ** Exceptions, results and the state-and-exception monad *)

Inductive exn : Type :=
| FileNotFoundError (path : string)
| PermissionError (path : string)
| KeyError (key : string)
| TypeError (what : string)
| AttributeError (what : string)
| JSONDecodeError (what : string)
| ResourceExhausted (message : string)   (* [google.api_core.exceptions] *)
| ApiError (message : string).           (* any other error of the oracle's client *)

(** [str(e)] *)
Definition exn_str (e : exn) : string :=
  match e with
  | FileNotFoundError p => "[Errno 2] No such file or directory: '" ++ p ++ "'"
  | PermissionError p => "[Errno 13] Permission denied: '" ++ p ++ "'"
  | KeyError k => "'" ++ k ++ "'"
  | TypeError m => m
  | AttributeError m => m
  | JSONDecodeError m => m
  | ResourceExhausted m => m
  | ApiError m => m
  end.

Inductive result (A : Type) : Type :=
| Ok (a : A)
| Raised (e : exn).
Arguments Ok {A} a.
Arguments Raised {A} e.

Definition is_ok {A : Type} (r : result A) : bool :=
  match r with Ok _ => true | Raised _ => false end.

(** A computation runs on a state, changes it, and returns or raises; what
    it did to the state before raising stays done. *)
Definition M (S A : Type) : Type := S -> S * result A.

Definition ret {S A : Type} (a : A) : M S A := fun s => (s, Ok a).

Definition raise {S A : Type} (e : exn) : M S A := fun s => (s, Raised e).

Definition bind {S A B : Type} (c : M S A) (k : A -> M S B) : M S B :=
  fun s =>
    match c s with
    | (s', Ok a) => k a s'
    | (s', Raised e) => (s', Raised e)
    end.

(** [try: c  except Exception as e: h e] *)
Definition try_except {S A : Type} (c : M S A) (h : exn -> M S A) : M S A :=
  fun s =>
    match c s with
    | (s', Ok a) => (s', Ok a)
    | (s', Raised e) => h e s'
    end.

Definition gets {S A : Type} (f : S -> A) : M S A := fun s => (s, Ok (f s)).

Definition modify {S : Type} (f : S -> S) : M S unit := fun s => (f s, Ok tt).

Declare Scope monad_scope.
Delimit Scope monad_scope with monad.
Notation "'let*' x ':=' c 'in' k" := (bind c (fun x => k))
  (at level 10, x name, c at level 100, k at level 200) : monad_scope.
Notation "'do' c 'then' k" := (bind c (fun _ => k))
  (at level 10, c at level 100, k at level 200) : monad_scope.

(** ** The file registry and the file system *)

(** One entry of the registry, the dictionary built by [build_file_entry]. *)
Record FileEntry : Type := {
  path : string;
  content : string;
  class_name : string;        (* key ["class"] *)
  imports : list string;
  calls : list string;
  last_modified : Z;
  checksum : string
}.

Definition Registry : Type := Dict.t FileEntry.

Record File : Type := { data : string; mtime : Z }.

(** What the program prints and the claims speak about. *)
Inductive event : Type :=
| Processing (filename : string)
| BlockWithoutFilename
| Fixed (file_path : string)
| UnknownFile (filename : string)
| Restored (filename : string)
| RestoreFailed (filename : string) (e : exn)
| MaxRetriesReached
| Retry (n : Z).

(** The world outside the interpreter: the files, the paths that refuse a
    write, how often the clock was read, and the output so far. *)
Record World : Type := {
  files : gmap string File;
  readonly : gset string;
  ticks : nat;
  output : list event
}.

Definition print (e : event) : M World unit :=
  modify (fun w => {| files := files w; readonly := readonly w;
                      ticks := ticks w; output := output w ++ [e] |}).

Definition set_files (f : gmap string File) (w : World) : World :=
  {| files := f; readonly := readonly w; ticks := ticks w; output := output w |}.

(** The registry and the world together: what [apply_fixes_to_code] mutates. *)
Record Store : Type := { st_index : Registry; st_world : World }.

Definition on_world {A : Type} (c : M World A) : M Store A :=
  fun st =>
    let '(w, r) := c (st_world st) in ({| st_index := st_index st; st_world := w |}, r).

Definition set_index (k : string) (e : FileEntry) : M Store unit :=
  modify (fun st => {| st_index := Dict.set k e (st_index st); st_world := st_world st |}).

(** [for x in xs: body x], stopping at the first exception. *)
Fixpoint for_each {S X : Type} (xs : list X) (body : X -> M S unit) : M S unit :=
  match xs with
  | [] => ret tt
  | x :: xs' => bind (body x) (fun _ => for_each xs' body)
  end.

(** ** Python values and the environment *)

(** A value as [json.loads] returns it and as the validation stages pass it
    around; numbers are integers. *)
#[warnings="-register-all"]
Inductive value : Type :=
| VNone
| VBool (b : bool)
| VNum (n : Z)
| VStr (s : string)
| VList (l : list value)
| VDict (d : list (string * value)).

(** The three holes of the prompt template of [node_fixer]. *)
Record Prompt : Type := {
  extra_note : string;
  prompt_error_log : string;
  prompt_source_code : string
}.

(** What the program takes from outside: library functions and the
    oracles.  Every definition below is read in an arbitrary environment. *)
Class Environment : Type := {
  (** [HASH_ALGO = hashlib.md5], taken with its [hexdigest]. *)
  HASH_ALGO : string -> string;
  (** The k-th reading of the system clock, in seconds. *)
  clock : nat -> Z;
  (** [strftime("%Y%m%d_%H%M%S")] of a clock reading. *)
  strftime : Z -> string;
  (** [model.start_chat().send_message(prompt).text] of [fixer_node.py]. *)
  send_message : Prompt -> result string;
  (** [self.model.generate_content(prompt).text] at the k-th call of the
      validation oracle; the reply does not have to depend on the prompt
      only, so it is indexed by the call. *)
  generate_content : nat -> result string;
  (** [json.loads] *)
  json_loads : string -> result value;
  (** [str(v)], as an f-string interpolates a value. *)
  py_str : value -> string
}.

(** ** [fixer_node.py] *)

Section Fixer.
Import PyStr.
Local Open Scope monad_scope.

Context `{Environment}.

Definition md5 (text : string) : string := HASH_ALGO text.

(** Reading the clock: [datetime.now()], or the stamp the file system puts
    on a file that is written. *)
Definition now : M World Z :=
  fun w => ({| files := files w; readonly := readonly w;
               ticks := S (ticks w); output := output w |},
            Ok (clock (ticks w))).

(** [os.path.exists(p)] *)
Definition path_exists (p : string) : M World bool :=
  gets (fun w => bool_decide (is_Some (files w !! p))).

(** [open(p).read()] *)
Definition read_text (p : string) : M World string :=
  fun w =>
    match files w !! p with
    | Some f => (w, Ok (data f))
    | None => (w, Raised (FileNotFoundError p))
    end.

(** [os.path.getmtime(p)] *)
Definition getmtime (p : string) : M World Z :=
  fun w =>
    match files w !! p with
    | Some f => (w, Ok (mtime f))
    | None => (w, Raised (FileNotFoundError p))
    end.

(** [with open(p, "w") as f: f.write(text)] *)
Definition write_text (p text : string) : M World unit :=
  fun w =>
    if bool_decide (p ∈ readonly w) then (w, Raised (PermissionError p))
    else (let* t := now in
          modify (fun w' => set_files (<[p := {| data := text; mtime := t |}]> (files w')) w')) w.

(** [shutil.copy2(src, dst)]: content and modification time. *)
Definition copy2 (src dst : string) : M World unit :=
  fun w =>
    match files w !! src with
    | None => (w, Raised (FileNotFoundError src))
    | Some f =>
        if bool_decide (dst ∈ readonly w) then (w, Raised (PermissionError dst))
        else (set_files (<[dst := f]> (files w)) w, Ok tt)
    end.

Definition backup_path_of (file_path : string) (t : Z) : string :=
  file_path ++ ".backup_" ++ strftime t.

Definition create_backup (file_path : string) : M World string :=
  let* t := now in
  let backup_path := backup_path_of file_path t in
  do copy2 file_path backup_path then
  ret backup_path.

(** The file [p] is found by [os.walk(project_dir)], over a file system
    without directories of its own whose paths are in normal form: the
    walk of the empty path yields nothing, and every other walk yields the
    roots [project_dir], [os.path.join(project_dir, d)], ..., so that
    [os.path.join(root, file)] is a path that extends
    [os.path.join(project_dir, "")], which is [project_dir] itself when it
    ends in a slash and [project_dir] with a slash otherwise. *)
Definition below (project_dir p : string) : bool :=
  negb (String.eqb project_dir "") && startswith (path_join project_dir "") p.

(** [find_all_java_files]: the order of the walk is the order of the
    listing. *)
Definition find_all_java_files (project_dir : string) : M World (list string) :=
  gets (fun w =>
    filter (fun p => below project_dir p && endswith ".java" (basename p))
           (map fst (map_to_list (files w)))).

Definition build_file_entry (file_path : string) : M World FileEntry :=
  let* text := read_text file_path in
  let class_name :=
    match Re.search Re.CLASS_RE text with
    | Some g => g
    | None => splitext_stem (basename file_path)
    end in
  let imported := Re.findall Re.IMPORT_RE text in
  let called := Re.findall Re.CALL_RE text in
  let* t := getmtime file_path in
  ret {| path := file_path; content := text; class_name := class_name;
         imports := imported; calls := called;
         last_modified := t; checksum := md5 text |}.

Fixpoint build_entries (fps : list string) (acc : Registry) : M World Registry :=
  match fps with
  | [] => ret acc
  | fp :: fps' =>
      let* e := build_file_entry fp in
      build_entries fps' (Dict.set (basename fp) e acc)
  end.

Definition build_file_index (project_dir : string) : M World Registry :=
  let* fps := find_all_java_files project_dir in
  build_entries fps [].

(** One turn of the loop of [refresh_file_index]. *)
Definition refresh_entry (filename : string) (info : FileEntry)
    (file_index : Registry) : M World Registry :=
  let* present := path_exists (path info) in
  if negb present then ret (Dict.del filename file_index)
  else
    let* t := getmtime (path info) in
    if negb (Z.eqb t (last_modified info)) then
      let* text := read_text (path info) in
      if negb (String.eqb (md5 text) (checksum info)) then
        let* e := build_file_entry (path info) in
        ret (Dict.set filename e file_index)
      else ret file_index
    else ret file_index.

Fixpoint refresh_items (items : list (string * FileEntry)) (file_index : Registry)
    : M World Registry :=
  match items with
  | [] => ret file_index
  | (filename, info) :: items' =>
      let* file_index' := refresh_entry filename info file_index in
      refresh_items items' file_index'
  end.

Definition refresh_file_index (file_index : Registry) : M World Registry :=
  refresh_items file_index file_index.

Definition extract_filenames_from_error (error_text : string) : gset string :=
  list_to_set (Re.findall Re.STACK_TRACE_RE error_text).

(** *** Fan-out *)

Definition neighbor_file_of (neighbor_class : string) : string :=
  if endswith ".java" neighbor_class then neighbor_class
  else neighbor_class ++ ".java".

(** The body of [for neighbor_class in info["imports"] + info["calls"]]. *)
Definition visit_neighbor (file_index : Registry) (expanded : gset string)
    (next_frontier : gset string) (neighbor_class : string) : gset string :=
  let neighbor_file := neighbor_file_of neighbor_class in
  if Dict.mem neighbor_file file_index && bool_decide (neighbor_file ∉ expanded)
  then {[neighbor_file]} ∪ next_frontier
  else next_frontier.

(** The body of [for fname in frontier]. *)
Definition visit_file (file_index : Registry) (expanded : gset string)
    (fname : string) (next_frontier : gset string) : gset string :=
  match Dict.get fname file_index with
  | None => next_frontier
  | Some info =>
      fold_left (visit_neighbor file_index expanded)
                (imports info ++ calls info)%list next_frontier
  end.

(** One turn of [for _ in range(depth)], on the pair (expanded, frontier). *)
Definition fan_out_round (file_index : Registry)
    (ef : gset string * gset string) : gset string * gset string :=
  let '(expanded, frontier) := ef in
  let next_frontier := set_fold (visit_file file_index expanded) ∅ frontier in
  (expanded ∪ next_frontier, next_frontier).

Definition fan_out (files : gset string) (file_index : Registry) (depth : Z)
    : gset string :=
  fst (Nat.iter (Z.to_nat depth) (fan_out_round file_index) (files, files)).

(** [get_relevant_files]; the selected names are a set, so the order of the
    keys of the dictionary built from them is the order [elements] lists
    them in. *)
Definition get_relevant_files (error_text : string) (file_index : Registry)
    (depth : Z) : Registry :=
  let initial := extract_filenames_from_error error_text in
  if bool_decide (initial = ∅) then file_index
  else
    let selected_names := fan_out initial file_index depth in
    omap (fun name => match Dict.get name file_index with
                      | Some e => Some (name, e)
                      | None => None
                      end)
         (elements selected_names).

Definition extract_code_context (source_files : Registry) : string :=
  String.concat ""
    (map (fun '(filename, info) =>
            String "010" "" ++ "--- " ++ filename ++ " ---" ++ String "010" ""
            ++ content info)
         source_files).

(** *** Patch application *)

Definition newline : string := String "010" "".

(** [line.startswith("FILENAME:") or line.endswith(".java")] *)
Definition is_marker (line : string) : bool :=
  startswith "FILENAME:" line || endswith ".java" line.

(** [line.split(":", 1)[-1].strip() if ":" in line else line] *)
Definition marker_filename (line : string) : string :=
  if contains ":" line then strip (split1_last ":" line) else line.

(** [line.startswith("```java") or line.startswith("```")] *)
Definition opens_block (line : string) : bool :=
  startswith "```java" line || startswith "```" line.

(** [response_lines[i].strip().startswith("```")] *)
Definition closes_block (raw : string) : bool :=
  startswith "```" (strip raw).

(** [next((k for k in source_files if basename(k).lower() ==
    suggested_basename.lower()), None)] *)
Definition find_matched_key (current_filename : string) (source_files : Registry)
    : option string :=
  let suggested_basename := basename current_filename in
  List.find (fun k => String.eqb (lower (basename k)) (lower suggested_basename))
            (Dict.keys source_files).

Definition lookup_index (k : string) : M Store FileEntry :=
  fun st =>
    match Dict.get k (st_index st) with
    | Some e => (st, Ok e)
    | None => (st, Raised (KeyError k))
    end.

(** [{**old, "content": fixed_code, "last_modified": t, "checksum":
    md5(fixed_code)}] *)
Definition patched_entry (old : FileEntry) (fixed_code : string) (t : Z)
    : FileEntry :=
  {| path := path old; content := fixed_code;
     class_name := class_name old;
     imports := imports old; calls := calls old;
     last_modified := t; checksum := md5 fixed_code |}.

(** The branch [if matched_key:] of the source, lines 160 to 172. *)
Definition write_fix (source_files : Registry) (matched_key fixed_code : string)
    : M Store unit :=
  match Dict.get matched_key source_files with
  | None => raise (KeyError matched_key)
  | Some sf =>
      let file_path := path sf in
      do on_world (create_backup file_path) then
      do on_world (write_text file_path fixed_code) then
      let* old := lookup_index matched_key in
      let* t := on_world (getmtime file_path) in
      do set_index matched_key (patched_entry old fixed_code t) then
      on_world (print (Fixed file_path))
  end.

(** The store once a fix is written: the backup beside the file, the file
    with its new text, the entry of the registry patched, two readings of
    the clock made and one line printed. *)
Definition fix_written (file_path : string) (f : File) (old : FileEntry)
    (matched_key fixed_code : string) (st : Store) : Store :=
  let w := st_world st in
  let t := clock (S (ticks w)) in
  {| st_index := Dict.set matched_key (patched_entry old fixed_code t) (st_index st);
     st_world :=
       {| files :=
            <[file_path := {| data := fixed_code; mtime := t |}]>
              (<[backup_path_of file_path (clock (ticks w)) := f]> (files w));
          readonly := readonly w;
          ticks := S (S (ticks w));
          output := output w ++ [Fixed file_path] |} |}.

(** What happens once the lines of a block are collected, lines 158 to
    176; an empty key is false in Python. *)
Definition apply_block (source_files : Registry) (current_filename : string)
    (matched_key : option string) (code_lines : list string) : M Store unit :=
  let fixed_code := join newline code_lines in
  match matched_key with
  | Some k =>
      if String.eqb k "" then on_world (print (UnknownFile current_filename))
      else write_fix source_files k fixed_code
  | None => on_world (print (UnknownFile current_filename))
  end.

(** The outer [while] over the lines of the response, and the inner
    [while] that collects the lines of a block up to the closing fence or
    the end of the response. *)
Fixpoint scan_lines (source_files : Registry) (lines : list string)
    (current_filename : option string) {struct lines} : M Store unit :=
  match lines with
  | [] => ret tt
  | raw :: rest =>
      let line := strip raw in
      if is_marker line then
        let name := marker_filename line in
        do on_world (print (Processing name)) then
        scan_lines source_files rest (Some name)
      else if opens_block line then
        match current_filename with
        | None =>
            do on_world (print BlockWithoutFilename) then
            scan_lines source_files rest None
        | Some name =>
            collect_block source_files rest name
              (find_matched_key name source_files) []
        end
      else scan_lines source_files rest current_filename
  end
with collect_block (source_files : Registry) (lines : list string)
    (current_filename : string) (matched_key : option string)
    (code_lines : list string) {struct lines} : M Store unit :=
  match lines with
  | [] => apply_block source_files current_filename matched_key code_lines
  | raw :: rest =>
      if closes_block raw then
        do apply_block source_files current_filename matched_key code_lines then
        scan_lines source_files rest None
      else
        collect_block source_files rest current_filename matched_key
          (code_lines ++ [raw])
  end.

(** [apply_fixes_to_code(response_text, source_files, file_index)], the
    dictionary [file_index] being the [st_index] of the store. *)
Definition apply_fixes_to_code (response_text : string)
    (source_files : Registry) : M Store unit :=
  scan_lines source_files (split "010" response_text) None.
End Fixer.

(** ** Operations on Python values *)

Module Py.
Import PyStr.

Definition type_name (v : value) : string :=
  match v with
  | VNone => "NoneType"
  | VBool _ => "bool"
  | VNum _ => "int"
  | VStr _ => "str"
  | VList _ => "list"
  | VDict _ => "dict"
  end.

(** [bool(v)] *)
Definition truthy (v : value) : bool :=
  match v with
  | VNone => false
  | VBool b => b
  | VNum n => negb (Z.eqb n 0)
  | VStr s => negb (String.eqb s "")
  | VList l => match l with [] => false | _ => true end
  | VDict d => match d with [] => false | _ => true end
  end.

(** [v == s] for a string literal [s]. *)
Definition eq_str (v : value) (s : string) : bool :=
  match v with VStr s' => String.eqb s' s | _ => false end.

(** [v.get(k, dflt)]: only a dictionary has the method. *)
Definition get (v : value) (k : string) (dflt : value) : result value :=
  match v with
  | VDict d => Ok (default dflt (Dict.get k d))
  | _ => Raised (AttributeError
                   ("'" ++ type_name v ++ "' object has no attribute 'get'"))
  end.

(** [v[:n]] *)
Definition slice_to (n : nat) (v : value) : result value :=
  match v with
  | VStr s => Ok (VStr (take n s))
  | VList l => Ok (VList (firstn n l))
  | VDict _ => Raised (TypeError "unhashable type: 'slice'")
  | _ => Raised (TypeError ("'" ++ type_name v ++ "' object is not subscriptable"))
  end.

(** [len(v)] *)
Definition len (v : value) : result Z :=
  match v with
  | VStr s => Ok (Z.of_nat (String.length s))
  | VList l => Ok (Z.of_nat (List.length l))
  | VDict d => Ok (Z.of_nat (List.length d))
  | _ => Raised (TypeError ("object of type '" ++ type_name v ++ "' has no len()"))
  end.

Definition as_int (v : value) : option Z :=
  match v with
  | VNum n => Some n
  | VBool b => Some (if b then 1 else 0)
  | _ => None
  end.

(** [a + b] *)
Definition add (a b : value) : result value :=
  match a, b with
  | VStr x, VStr y => Ok (VStr (x ++ y))
  | VList x, VList y => Ok (VList (x ++ y))
  | _, _ =>
      match as_int a, as_int b with
      | Some x, Some y => Ok (VNum (x + y))
      | _, _ => Raised (TypeError
                          ("unsupported operand type(s) for +: '" ++ type_name a
                           ++ "' and '" ++ type_name b ++ "'"))
      end
  end.

Fixpoint chars (s : string) : list value :=
  match s with
  | EmptyString => []
  | String c s' => VStr (String c "") :: chars s'
  end.

(** The items [for x in v] goes through. *)
Definition iter (v : value) : result (list value) :=
  match v with
  | VStr s => Ok (chars s)
  | VList l => Ok l
  | VDict d => Ok (map (fun kv => VStr (fst kv)) d)
  | _ => Raised (TypeError ("'" ++ type_name v ++ "' object is not iterable"))
  end.

Fixpoint strings_of (l : list value) : result (list string) :=
  match l with
  | [] => Ok []
  | VStr s :: l' =>
      match strings_of l' with
      | Ok ss => Ok (s :: ss)
      | Raised e => Raised e
      end
  | v :: _ => Raised (TypeError
                        ("sequence item: expected str instance, "
                         ++ type_name v ++ " found"))
  end.

(** [sep.join(v)] *)
Definition join (sep : string) (v : value) : result string :=
  match iter v with
  | Raised _ => Raised (TypeError "can only join an iterable")
  | Ok items =>
      match strings_of items with
      | Ok ss => Ok (PyStr.join sep ss)
      | Raised e => Raised e
      end
  end.
End Py.

(** A pure step that may raise, inside a computation. *)
Definition lift {S A : Type} (r : result A) : M S A := fun s => (s, r).

(** ** [sre_validation_system.py] *)

Record SREValidationState : Type := {
  val_original_code : string;
  val_fixed_code : string;
  val_original_error : string;
  val_change_context : string;
  error_analysis : option value;
  code_diff_analysis : option value;
  logic_validation : option value;
  semantic_validation : option value;
  security_validation : option value;
  val_decision : option value;
  val_detailed_report : option string;
  val_recommendations : option value;
  val_failure_reasons : option value
}.

(** The fields a stage returns, merged into the state by the graph. *)
Inductive stage : Type :=
| ErrorAnalysis | CodeDiffAnalysis | LogicValidation
| SemanticValidation | SecurityValidation.

Definition stage_field (g : stage) (st : SREValidationState) : option value :=
  match g with
  | ErrorAnalysis => error_analysis st
  | CodeDiffAnalysis => code_diff_analysis st
  | LogicValidation => logic_validation st
  | SemanticValidation => semantic_validation st
  | SecurityValidation => security_validation st
  end.

Definition set_stage_field (g : stage) (v : value) (st : SREValidationState)
    : SREValidationState :=
  {| val_original_code := val_original_code st;
     val_fixed_code := val_fixed_code st;
     val_original_error := val_original_error st;
     val_change_context := val_change_context st;
     error_analysis :=
       match g with ErrorAnalysis => Some v | _ => error_analysis st end;
     code_diff_analysis :=
       match g with CodeDiffAnalysis => Some v | _ => code_diff_analysis st end;
     logic_validation :=
       match g with LogicValidation => Some v | _ => logic_validation st end;
     semantic_validation :=
       match g with SemanticValidation => Some v | _ => semantic_validation st end;
     security_validation :=
       match g with SecurityValidation => Some v | _ => security_validation st end;
     val_decision := val_decision st;
     val_detailed_report := val_detailed_report st;
     val_recommendations := val_recommendations st;
     val_failure_reasons := val_failure_reasons st |}.

(** The four keys the decision stage, or the handler of the workflow,
    returns. *)
Record Verdict : Type := {
  verdict_decision : value;
  verdict_detailed_report : string;
  verdict_recommendations : value;
  verdict_failure_reasons : value
}.

Definition set_verdict (v : Verdict) (st : SREValidationState) : SREValidationState :=
  {| val_original_code := val_original_code st;
     val_fixed_code := val_fixed_code st;
     val_original_error := val_original_error st;
     val_change_context := val_change_context st;
     error_analysis := error_analysis st;
     code_diff_analysis := code_diff_analysis st;
     logic_validation := logic_validation st;
     semantic_validation := semantic_validation st;
     security_validation := security_validation st;
     val_decision := Some (verdict_decision v);
     val_detailed_report := Some (verdict_detailed_report v);
     val_recommendations := Some (verdict_recommendations v);
     val_failure_reasons := Some (verdict_failure_reasons v) |}.

Definition initial_validation_state
    (original_code fixed_code original_error change_context : string)
    : SREValidationState :=
  {| val_original_code := original_code;
     val_fixed_code := fixed_code;
     val_original_error := original_error;
     val_change_context := change_context;
     error_analysis := None; code_diff_analysis := None;
     logic_validation := None; semantic_validation := None;
     security_validation := None;
     val_decision := None; val_detailed_report := None;
     val_recommendations := None; val_failure_reasons := None |}.

Section Validation.
Import PyStr.
Local Open Scope monad_scope.
Context `{Environment}.

(** The state of the validation run: how many oracle calls were made. *)
Definition generate : M nat string :=
  fun calls => (S calls, generate_content calls).

(** Lines 94 to 105 of [invoke_with_json_response]: the fences and the
    text around the outermost braces are removed. *)
Definition clean_response (response_text : string) : string :=
  let content := strip response_text in
  let content := if startswith "```json" content then drop 7 content else content in
  let content :=
    if endswith "```" content
    then take (String.length content - 3) content else content in
  let content := strip content in
  let start := find_char "{" content in
  let end_ := rfind_char "}" content + 1 in
  if negb (Z.eqb start (-1)) && (start <? end_) then slice start end_ content
  else content.

(** The body of the [try] of one attempt. *)
Definition attempt : M nat value :=
  let* response_text := generate in
  lift (json_loads (clean_response response_text)).

Definition max_retries : Z := 3.

Definition is_rate_limit (error_msg : string) : bool :=
  contains "429" error_msg || contains "quota" error_msg
  || contains "rate limit" error_msg.

(** The [for attempt in range(max_retries)] of [invoke_with_json_response],
    on the attempts still to make. *)
Fixpoint invoke_attempts (attempts : list Z) : M nat value :=
  match attempts with
  | [] => ret VNone
  | attempt_no :: rest =>
      try_except attempt (fun e =>
        let error_msg := lower (exn_str e) in
        if is_rate_limit error_msg then
          if attempt_no <? max_retries - 1 then invoke_attempts rest
          else ret (VDict [("error", VStr "Rate limit exceeded");
                           ("raw_response", VStr "Rate limit error")])
        else if contains "json" (lower error_msg) then
          ret (VDict [("error", VStr "Failed to parse LLM response");
                      ("raw_response", VStr (exn_str e))])
        else if attempt_no <? max_retries - 1 then invoke_attempts rest
        else ret (VDict [("error", VStr ("LLM call failed: " ++ exn_str e))]))
  end.

Definition invoke_with_json_response : M nat value :=
  invoke_attempts [0; 1; 2].

(** [print(f"... {analysis.get(k, ...)} ...")] for each key in turn: what
    can go wrong is the call of [get]. *)
Fixpoint print_fields (analysis : value) (ks : list string) : M nat unit :=
  match ks with
  | [] => ret tt
  | k :: ks' =>
      let* _ := lift (Py.get analysis k (VStr "unknown")) in
      print_fields analysis ks'
  end.

(** [if xs: print(len(xs)); for i, x in enumerate(xs[:n], 1): shown x] *)
Definition print_some (n : nat) (shown : value -> M nat unit) (xs : value)
    : M nat unit :=
  if Py.truthy xs then
    let* _ := lift (Py.len xs) in
    let* firsts := lift (Py.slice_to n xs) in
    let* items := lift (Py.iter firsts) in
    for_each items shown
  else ret tt.

(** What each of the first five stages does with the answer before it
    returns it. *)
Definition display (g : stage) (analysis : value) : M nat unit :=
  match g with
  | ErrorAnalysis =>
      print_fields analysis
        ["error_type"; "severity"; "root_cause"; "impact_scope"; "fix_complexity"]
  | CodeDiffAnalysis =>
      print_fields analysis
        ["change_scope"; "change_quality"; "change_type"; "addresses_root_cause";
         "introduces_new_risks"; "maintainability_impact"]
  | LogicValidation =>
      do print_fields analysis
           ["logic_correctness"; "addresses_original_error"; "edge_cases_handled";
            "algorithm_soundness"] then
      let* reasoning := lift (Py.get analysis "logical_reasoning" VNone) in
      if Py.truthy reasoning then
        let* shown := lift (Py.get analysis "logical_reasoning" (VStr "")) in
        let* _ := lift (Py.slice_to 150 shown) in ret tt
      else ret tt
  | SemanticValidation =>
      print_fields analysis
        ["code_style_compliance"; "naming_conventions"; "code_organization";
         "error_handling_quality"; "performance_implications";
         "follows_best_practices"]
  | SecurityValidation =>
      do print_fields analysis ["risk_level"] then
      let* vulnerabilities :=
        lift (Py.get analysis "vulnerabilities_found" (VList [])) in
      do print_some 2 (fun _ => ret tt) vulnerabilities then
      do print_fields analysis
           ["input_validation_quality"; "security_improvements"] then
      let* recommendations :=
        lift (Py.get analysis "security_recommendations" (VList [])) in
      print_some 2 (fun rec => let* _ := lift (Py.slice_to 100 rec) in ret tt)
        recommendations
  end.

(** [analyze_error_node], [code_diff_analysis_node], [logic_validation_node],
    [semantic_validation_node] and [security_validation_node]: the same
    [try]/[except] around one query, each with its own field. *)
Definition stage_node (g : stage) (state : SREValidationState)
    : M nat SREValidationState :=
  try_except
    (let* analysis := invoke_with_json_response in
     do display g analysis then
     ret (set_stage_field g analysis state))
    (fun e =>
       ret (set_stage_field g (VDict [("error", VStr (exn_str e))]) state)).

Definition analyze_error_node := stage_node ErrorAnalysis.
Definition code_diff_analysis_node := stage_node CodeDiffAnalysis.
Definition logic_validation_node := stage_node LogicValidation.
Definition semantic_validation_node := stage_node SemanticValidation.
Definition security_validation_node := stage_node SecurityValidation.

(** [state.get(field, {}).get(k, 'Unknown')] of the report. *)
Definition summary_field (field : option value) (k : string) : result value :=
  Py.get (default (VDict []) field) k (VStr "Unknown").

Definition final_decision_body (state : SREValidationState) : M nat Verdict :=
  let* decision := invoke_with_json_response in
  let* final_decision := lift (Py.get decision "decision" (VStr "NEEDS_REVIEW")) in
  let* reasoning :=
    lift (Py.get decision "decision_reasoning" (VStr "No reasoning provided")) in
  let* actions := lift (Py.get decision "recommended_actions" (VList [])) in
  let* minor := lift (Py.get decision "minor_improvements" (VList [])) in
  let* recommendations := lift (Py.add actions minor) in
  let* issues := lift (Py.get decision "critical_issues" (VList [])) in
  let* assessment :=
    lift (Py.get decision "overall_assessment" (VStr "No assessment provided")) in
  let* risk := lift (Py.get decision "deployment_risk" (VStr "Unknown")) in
  let* error_type := lift (summary_field (error_analysis state) "error_type") in
  let* severity := lift (summary_field (error_analysis state) "severity") in
  let* logic :=
    lift (summary_field (logic_validation state) "logic_correctness") in
  let* sec_risk := lift (summary_field (security_validation state) "risk_level") in
  let* style :=
    lift (summary_field (semantic_validation state) "code_style_compliance") in
  let detailed_report :=
    newline ++ "SRE VALIDATION REPORT" ++ newline
    ++ "====================" ++ newline ++ newline
    ++ "DECISION: " ++ py_str final_decision ++ newline
    ++ "REASONING: " ++ py_str reasoning ++ newline ++ newline
    ++ "OVERALL ASSESSMENT: " ++ py_str assessment ++ newline
    ++ "DEPLOYMENT RISK: " ++ py_str risk ++ newline ++ newline
    ++ "ANALYSIS SUMMARY:" ++ newline
    ++ "- Error Type: " ++ py_str error_type ++ newline
    ++ "- Error Severity: " ++ py_str severity ++ newline
    ++ "- Logic Correctness: " ++ py_str logic ++ newline
    ++ "- Security Risk: " ++ py_str sec_risk ++ newline
    ++ "- Code Quality: " ++ py_str style ++ newline in
  let* _ := lift (Py.slice_to 200 reasoning) in
  let* _ := lift (Py.get decision "deployment_risk" (VStr "Unknown")) in
  do print_some 3 (fun _ => ret tt) recommendations then
  do print_some 3 (fun _ => ret tt) issues then
  ret {| verdict_decision := final_decision;
         verdict_detailed_report := detailed_report;
         verdict_recommendations := recommendations;
         verdict_failure_reasons := issues |}.

Definition manual_review : value :=
  VList [VStr "Manual review required due to system failure"].

Definition final_decision_node (state : SREValidationState) : M nat Verdict :=
  try_except (final_decision_body state)
    (fun e =>
       ret {| verdict_decision := VStr "REJECT";
              verdict_detailed_report := "Decision process failed: " ++ exn_str e;
              verdict_recommendations := manual_review;
              verdict_failure_reasons := VList [VStr ("System error: " ++ exn_str e)] |}).

(** The compiled workflow: the six stages in sequence. *)
Definition workflow (state : SREValidationState) : M nat SREValidationState :=
  let* s1 := analyze_error_node state in
  let* s2 := code_diff_analysis_node s1 in
  let* s3 := logic_validation_node s2 in
  let* s4 := semantic_validation_node s3 in
  let* s5 := security_validation_node s4 in
  let* verdict := final_decision_node s5 in
  ret (set_verdict verdict s5).

(** [validate_code_with_llm]: the keys of the result that its caller
    reads. *)
Definition verdict_of (st : SREValidationState) : Verdict :=
  {| verdict_decision := default VNone (val_decision st);
     verdict_detailed_report := default "" (val_detailed_report st);
     verdict_recommendations := default VNone (val_recommendations st);
     verdict_failure_reasons := default VNone (val_failure_reasons st) |}.

Definition validate_code_with_llm
    (original_code fixed_code original_error change_context : string)
    : M nat Verdict :=
  try_except
    (let* final :=
       workflow (initial_validation_state original_code fixed_code
                   original_error change_context) in
     ret (verdict_of final))
    (fun e =>
       ret {| verdict_decision := VStr "REJECT";
              verdict_detailed_report := "Workflow failed: " ++ exn_str e;
              verdict_recommendations := manual_review;
              verdict_failure_reasons := VList [VStr ("System error: " ++ exn_str e)] |}).
End Validation.

(** ** The session state and the nodes of [main_graph.py] *)

(** The dictionary threaded through the graph; a key that is absent is
    [None].  The keys only [commit_and_pr_node.py] reads are left out, that
    node not being part of the compiled graph. *)
Record State : Type := {
  retries : option Z;
  decision : option value;
  detailed_report : option string;
  recommendations : option value;
  failure_reasons : option value;
  test_failure_reason : option string;
  file_index : option Registry;
  relevant_files : option Registry;
  original_code_backup : option (Dict.t string);
  original_code_path_map : option (Dict.t string);
  original_code : option string;
  fixed_code : option string;
  original_error : option string
}.

Definition set_retries (n : Z) (s : State) : State :=
  {| retries := Some n; decision := decision s;
     detailed_report := detailed_report s; recommendations := recommendations s;
     failure_reasons := failure_reasons s;
     test_failure_reason := test_failure_reason s;
     file_index := file_index s; relevant_files := relevant_files s;
     original_code_backup := original_code_backup s;
     original_code_path_map := original_code_path_map s;
     original_code := original_code s; fixed_code := fixed_code s;
     original_error := original_error s |}.

Definition set_test_failure_reason (r : string) (s : State) : State :=
  {| retries := retries s; decision := decision s;
     detailed_report := detailed_report s; recommendations := recommendations s;
     failure_reasons := failure_reasons s;
     test_failure_reason := Some r;
     file_index := file_index s; relevant_files := relevant_files s;
     original_code_backup := original_code_backup s;
     original_code_path_map := original_code_path_map s;
     original_code := original_code s; fixed_code := fixed_code s;
     original_error := original_error s |}.

(** [{**state, "decision": ..., "detailed_report": ..., "recommendations":
    ..., "failure_reasons": ..., "retries": state.get("retries", 0)}] *)
Definition set_verdict_fields (d : value) (report : string) (recs reasons : value)
    (s : State) : State :=
  {| retries := Some (default 0 (retries s)); decision := Some d;
     detailed_report := Some report; recommendations := Some recs;
     failure_reasons := Some reasons;
     test_failure_reason := test_failure_reason s;
     file_index := file_index s; relevant_files := relevant_files s;
     original_code_backup := original_code_backup s;
     original_code_path_map := original_code_path_map s;
     original_code := original_code s; fixed_code := fixed_code s;
     original_error := original_error s |}.

(** Where the router sends the session. *)
Inductive route : Type := END | fix_code.

(** The machine the graph runs on: the world of files and the number of
    calls made to the validation oracle. *)
Record Machine : Type := { m_world : World; m_calls : nat }.

Definition in_world {A : Type} (c : M World A) : M Machine A :=
  fun m => let '(w, r) := c (m_world m) in
           ({| m_world := w; m_calls := m_calls m |}, r).

Definition in_oracle {A : Type} (c : M nat A) : M Machine A :=
  fun m => let '(n, r) := c (m_calls m) in
           ({| m_world := m_world m; m_calls := n |}, r).

Section Orchestrator.
Import PyStr.
Local Open Scope monad_scope.
Context `{Environment}.

(** *** [node_fixer] *)

(** The note of lines 207 to 210. *)
Definition extra_note_of (state : State) : string :=
  match test_failure_reason state with
  | Some reason =>
      newline ++ "NOTE FROM VALIDATION AGENT:Previous fix was rejected during automated testing.You MUST address this feedback."
      ++ newline ++ reason ++ newline
  | None => ""
  end.

(** [{fname: file_index[fname] for fname in relevant_files}] *)
Fixpoint reindex (names : list string) (file_index : Registry) (acc : Registry)
    : result Registry :=
  match names with
  | [] => Ok acc
  | fname :: names' =>
      match Dict.get fname file_index with
      | Some e => reindex names' file_index (Dict.set fname e acc)
      | None => Raised (KeyError fname)
      end
  end.

Definition file_banner (fname code : string) : string :=
  "// FILE: " ++ fname ++ newline ++ code.

(** [node_fixer], from the registry on (line 198); what lines 183 to 196
    find on disk, the text [error_log] of the log cut to its last 5000
    characters and the directory [project_dir], are arguments. *)
Definition node_fixer (error_log project_dir : string) (state : State)
    : M World State :=
  let* file_index0 :=
    match file_index state with
    | None => build_file_index project_dir
    | Some fi => refresh_file_index fi
    end in
  let relevant := get_relevant_files error_log file_index0 2 in
  let prompt :=
    {| extra_note := extra_note_of state;
       prompt_error_log := error_log;
       prompt_source_code := extract_code_context relevant |} in
  let* response_text := lift (send_message prompt) in
  let* file_index1 :=
    (fun w =>
       let '(st, r) :=
         apply_fixes_to_code response_text relevant
           {| st_index := file_index0; st_world := w |} in
       (st_world st,
        match r with Ok _ => Ok (st_index st) | Raised e => Raised e end)) in
  let backup :=
    match original_code_backup state with
    | Some b => b
    | None => map (fun '(fname, info) => (fname, content info)) file_index1
    end in
  let path_map :=
    match original_code_backup state with
    | Some _ => original_code_path_map state
    | None => Some (map (fun '(fname, info) => (fname, path info)) file_index1)
    end in
  let* relevant1 := lift (reindex (Dict.keys relevant) file_index1 []) in
  ret {| retries := retries state; decision := decision state;
         detailed_report := detailed_report state;
         recommendations := recommendations state;
         failure_reasons := failure_reasons state;
         test_failure_reason := test_failure_reason state;
         file_index := Some file_index1;
         relevant_files := Some relevant1;
         original_code_backup := Some backup;
         original_code_path_map := path_map;
         original_code :=
           Some (join (newline ++ newline)
                   (map (fun '(fname, code) => file_banner fname code) backup));
         fixed_code :=
           Some (join (newline ++ newline)
                   (map (fun '(fname, info) => file_banner fname (content info))
                      (filter (fun '(fname, _) => Dict.mem fname backup)
                         file_index1)));
         original_error := Some error_log |}.

(** *** [testing_node] *)

Definition required {A : Type} (key : string) (field : option A) : result A :=
  match field with
  | Some a => Ok a
  | None => Raised (KeyError key)
  end.

(** Lines 52 to 73: the state built from the result of the validation. *)
Definition record_verdict (verdict : Verdict) (state : State) : result State :=
  let updated_state :=
    set_verdict_fields (verdict_decision verdict) (verdict_detailed_report verdict)
      (verdict_recommendations verdict) (verdict_failure_reasons verdict) state in
  if Py.eq_str (verdict_decision verdict) "REJECT" then
    let updated_state :=
      set_retries (default 0 (retries updated_state) + 1) updated_state in
    let reasons := verdict_failure_reasons verdict in
    match (if Py.truthy reasons
           then match Py.join "; " reasons with
                | Ok joined => Ok ("REJECTED. Reasons: " ++ joined)
                | Raised e => Raised e
                end
           else Ok "REJECTED. No clear reason provided.") with
    | Raised e => Raised e
    | Ok summary =>
        let full_report := verdict_detailed_report verdict in
        Ok (set_test_failure_reason
              (summary ++ newline ++ newline ++ "--- FULL VALIDATION REPORT ---"
               ++ newline ++ full_report)
              updated_state)
    end
  else Ok updated_state.

(** The state of the two [except] clauses. *)
Definition validation_unavailable (report : string) (recs reasons : list string)
    (reason : string) (state : State) : State :=
  set_test_failure_reason reason
    (set_verdict_fields (VStr "NEEDS_REVIEW") report
       (VList (map VStr recs)) (VList (map VStr reasons)) state).

Definition testing_node (state : State) : M nat State :=
  let* relevant := lift (required "relevant_files" (relevant_files state)) in
  let* backup := lift (required "original_code_backup" (original_code_backup state)) in
  let original :=
    join (newline ++ newline)
      (map (fun fname => file_banner fname (default "" (Dict.get fname backup)))
           (Dict.keys relevant)) in
  let fixed :=
    join (newline ++ newline)
      (map (fun '(fname, info) => file_banner fname (content info)) relevant) in
  let* outcome :=
    try_except
      (let* error := lift (required "original_error" (original_error state)) in
       let* verdict :=
         validate_code_with_llm original fixed error
           "Gemini fix applied based on Spring Boot error.log" in
       ret (inl verdict))
      (fun e => ret (inr e)) in
  match outcome with
  | inl verdict => lift (record_verdict verdict state)
  | inr (ResourceExhausted m) =>
      ret (validation_unavailable
             "Gemini API quota exhausted. LLM validation could not proceed."
             ["Wait for quota reset or use a different API key."]
             ["QuotaExceeded"]
             ("❌ LLM validation skipped due to Gemini quota exhaustion."
              ++ newline ++ newline ++ m)
             state)
  | inr e =>
      ret (validation_unavailable
             ("LLM validation failed due to an unexpected error: " ++ exn_str e)
             ["Check logs for error details"; "Retry after fixing the error"]
             ["UnexpectedError"]
             ("❌ LLM validation failed due to: " ++ exn_str e)
             state)
  end.

(** *** [restore_original_code] and [router] *)

(** The body of the loop over [backup.items()]. *)
Definition restore_one (path_map : Dict.t string) (item : string * string)
    : M World unit :=
  let '(filename, original_content) := item in
  match Dict.get filename path_map with
  | Some abs_path =>
      if String.eqb abs_path "" then ret tt
      else
        try_except
          (do write_text abs_path original_content then
           print (Restored filename))
          (fun e => print (RestoreFailed filename e))
  | None => ret tt
  end.

Definition restore_original_code (state : State) : M World unit :=
  let path_map := default [] (original_code_path_map state) in
  let backup := default [] (original_code_backup state) in
  for_each backup (restore_one path_map).

Definition decision_is (state : State) (d : string) : bool :=
  match decision state with
  | Some v => Py.eq_str v d
  | None => false
  end.

(** The router changes the state it is given (the retry counter) and
    names the next node. *)
Definition router (state : State) : M World (State * route) :=
  if decision_is state "DEPLOY" then ret (state, END)
  else if decision_is state "NEEDS_REVIEW" then ret (state, END)
  else if 3 <=? default 0 (retries state) then
    do restore_original_code state then
    do print MaxRetriesReached then
    ret (state, END)
  else
    let state' := set_retries (default 0 (retries state) + 1) state in
    do print (Retry (default 0 (retries state'))) then
    ret (state', fix_code).

(** The edge of the graph from [test_code]: validation, then the router
    on the state the validation returned. *)
Definition validate_and_route (state : State) : M Machine (State * route) :=
  let* validated := in_oracle (testing_node state) in
  in_world (router validated).
End Orchestrator.

(** ** The fan-out as the specification words it

    Rounds of frontier expansion: the candidates of a round are the names
    [to_file symbol] for the symbols imported or called by the files of the
    frontier; the new frontier keeps the candidates that are in the registry
    and not yet visited.  [to_file] is the map from symbols to file names. *)

Definition symbols_of (file_index : Registry) (fname : string) : list string :=
  match Dict.get fname file_index with
  | Some info => (imports info ++ calls info)%list
  | None => []
  end.

Definition spec_next_frontier (to_file : string -> string) (file_index : Registry)
    (expanded frontier : gset string) : gset string :=
  list_to_set
    (filter (fun n => Dict.mem n file_index && bool_decide (n ∉ expanded))
       (flat_map (fun fname => map to_file (symbols_of file_index fname))
          (elements frontier))).

Definition spec_round (to_file : string -> string) (file_index : Registry)
    (ef : gset string * gset string) : gset string * gset string :=
  let next := spec_next_frontier to_file file_index (fst ef) (snd ef) in
  (fst ef ∪ next, next).

Definition fan_out_spec (to_file : string -> string) (files : gset string)
    (file_index : Registry) (depth : nat) : gset string :=
  fst (Nat.iter depth (spec_round to_file file_index) (files, files)).

(** The map of the specification: the symbol followed by [".java"]. *)
Definition add_java (symbol : string) : string := symbol ++ ".java".

(** ** Sample data for the examples *)

Module Sample.
Import PyStr.

Definition nl : string := String "010" "".

Fixpoint digits (fuel : nat) (n : Z) (acc : string) : string :=
  match fuel with
  | O => acc
  | S fuel' =>
      let d := String (ascii_of_nat (48 + Z.to_nat (n mod 10))) acc in
      if n <? 10 then d else digits fuel' (n / 10) d
  end.

(** A decimal numeral, for stamps and for [str] of a number. *)
Definition decimal (n : Z) : string :=
  if n <? 0 then "-" ++ digits 40 (- n) "" else digits 40 n "".

Definition show (v : value) : string :=
  match v with
  | VNone => "None"
  | VBool b => if b then "True" else "False"
  | VNum n => decimal n
  | VStr s => s
  | VList _ => "[...]"
  | VDict _ => "{...}"
  end.

(** An environment: the clock advances one second at each reading, the
    fixer's oracle answers [proposal], the validation oracle answers
    [reply k] at its k-th call and [parse] stands for [json.loads]. *)
Definition environment (proposal : string) (reply : nat -> result string)
    (parse : string -> result value) : Environment :=
  {| HASH_ALGO := fun text => "md5(" ++ text ++ ")";
     clock := fun k => 1700000000 + Z.of_nat k;
     strftime := decimal;
     send_message := fun _ => Ok proposal;
     generate_content := reply;
     json_loads := parse;
     py_str := show |}.

Definition unavailable (k : nat) : result string :=
  Raised (ApiError "503 Service Unavailable").

Definition no_json (text : string) : result value :=
  Raised (JSONDecodeError "Expecting value: line 1 column 1 (char 0)").

(** A reply that is valid JSON but not an object: the list [[]]. *)
Definition list_reply (k : nat) : result string := Ok "[]".

Definition parse_list (text : string) : result value :=
  if String.eqb text "[]" then Ok (VList []) else no_json text.

Definition entry (p text : string) (imported called : list string) : FileEntry :=
  {| path := p; content := text; class_name := splitext_stem (basename p);
     imports := imported; calls := called;
     last_modified := 1600000000; checksum := "md5(" ++ text ++ ")" |}.

(** The chain A -> B -> C. *)
Definition chain : Registry :=
  [ ("A.java", entry "/srv/app/A.java" "" ["B"] []);
    ("B.java", entry "/srv/app/B.java" "" ["C"] []);
    ("C.java", entry "/srv/app/C.java" "" [] []) ].

(** A registry whose first file imports a symbol that already ends in
    [".java"]. *)
Definition dotted : Registry :=
  [ ("A.java", entry "/srv/app/A.java" "" ["B.java"] []);
    ("B.java", entry "/srv/app/B.java" "" [] []) ].

Definition file (text : string) : File := {| data := text; mtime := 1600000000 |}.

Definition world_of (fs : gmap string File) : World :=
  {| files := fs; readonly := ∅; ticks := 0; output := [] |}.

(** One source file, and a proposal that replaces it. *)
Definition foo_old : string := "import B;" ++ nl ++ "class Foo { }".
Definition foo_new : string := "import C;" ++ nl ++ "class Foo { C c; }".

Definition foo_world : World :=
  world_of {[ "/srv/app/Foo.java" := file foo_old ]}.

Definition foo_patch : string :=
  "FILENAME: Foo.java" ++ nl ++ "```java" ++ nl ++ foo_new ++ nl ++ "```".


Definition foo_env : Environment := environment foo_patch unavailable no_json.

(** A proposal for a file that is not in the working set. *)
Definition bar_patch : string :=
  "FILENAME: Bar.java" ++ nl ++ "```java" ++ nl ++ "class Bar { }" ++ nl ++ "```".

(** An error text whose only frame is in a file outside the registry. *)
Definition foreign_trace : string :=
  "java.lang.IllegalStateException" ++ nl
  ++ "    at org.lib.Pool.take(Pool.java:17)".

Definition foo_registry : Registry :=
  [ ("Foo.java", entry "/srv/app/Foo.java" foo_old ["B"] []) ].

Definition empty_state : State :=
  {| retries := None; decision := None; detailed_report := None;
     recommendations := None; failure_reasons := None;
     test_failure_reason := None; file_index := None; relevant_files := None;
     original_code_backup := None; original_code_path_map := None;
     original_code := None; fixed_code := None; original_error := None |}.

Definition rejection : Verdict :=
  {| verdict_decision := VStr "REJECT";
     verdict_detailed_report := "the fix does not compile";
     verdict_recommendations := VList [];
     verdict_failure_reasons := VList [VStr "missing import"; VStr "syntax error"] |}.

(** A session at the retry ceiling after a rejection, with two files in its
    backup map, and a world where the first of them refuses a write. *)
Definition exhausted : State :=
  {| retries := Some 3; decision := Some (VStr "REJECT");
     detailed_report := Some "the fix does not compile";
     recommendations := Some (VList []);
     failure_reasons := Some (VList [VStr "syntax error"]);
     test_failure_reason := Some "REJECTED. Reasons: syntax error";
     file_index := None; relevant_files := None;
     original_code_backup :=
       Some [("A.java", "class A { }"); ("B.java", "class B { }")];
     original_code_path_map :=
       Some [("A.java", "/srv/app/A.java"); ("B.java", "/srv/app/B.java")];
     original_code := None; fixed_code := None; original_error := None |}.

Definition locked_world : World :=
  {| files := {[ "/srv/app/A.java" := file "class A { int x }";
                 "/srv/app/B.java" := file "class B { int y }" ]};
     readonly := {[ "/srv/app/A.java" ]};
     ticks := 0; output := [] |}.
End Sample.

(** ** What a run of the patch applicator may do *)

Section Footprint.
Context `{Environment}.

(** [p] is the path of a file of the working set. *)
Definition is_target (source_files : Registry) (p : string) : Prop :=
  ∃ k e, Dict.get k source_files = Some e ∧ p = path e.

(** [p] is the name of a backup of a file of the working set. *)
Definition is_backup (source_files : Registry) (p : string) : Prop :=
  ∃ k e t, Dict.get k source_files = Some e ∧ p = backup_path_of (path e) t.

(** The exceptions of a block that names a file of the working set. *)
Definition known_failure (source_files : Registry) (ex : exn) : Prop :=
  ∃ k e, Dict.get k source_files = Some e ∧ k ≠ ""
         ∧ (ex = FileNotFoundError (path e)
            ∨ ex = PermissionError (path e)
            ∨ (∃ t, ex = PermissionError (backup_path_of (path e) t))
            ∨ ex = KeyError k).

(** The fields of an entry that patching leaves alone. *)
Definition static (e : FileEntry) : string * string * list string * list string :=
  (path e, class_name e, imports e, calls e).

(** [st] is within the footprint of the working set from [st0]: same
    keys in the same order, the static fields of every entry kept, no file
    there that was not there except backups, no file changed except the
    files of the working set and backups. *)
Definition contained (source_files : Registry) (st0 st : Store) : Prop :=
  Dict.keys (st_index st) = Dict.keys (st_index st0)
  ∧ (∀ k e0, Dict.get k (st_index st0) = Some e0 →
       ∃ e, Dict.get k (st_index st) = Some e ∧ static e = static e0)
  ∧ (∀ p, is_Some (files (st_world st) !! p) →
       is_Some (files (st_world st0) !! p) ∨ is_backup source_files p)
  ∧ (∀ p, files (st_world st) !! p ≠ files (st_world st0) !! p →
       is_target source_files p ∨ is_backup source_files p)
  ∧ readonly (st_world st) = readonly (st_world st0).



End Footprint.

#[global] Instance File_eq_dec : EqDecision File.
Proof. solve_decision. Defined.

(** ** What a rollback writes *)

(** The path an item of the backup map is restored to, if any: the path
    recorded for the file name, unless it is missing or empty. *)
Definition restore_target (path_map : Dict.t string) (item : string * string)
    : option string :=
  match Dict.get (fst item) path_map with
  | Some abs_path => if String.eqb abs_path "" then None else Some abs_path
  | None => None
  end.

Definition restore_targets (state : State) : list string :=
  omap (restore_target (default [] (original_code_path_map state)))
       (default [] (original_code_backup state)).

(** ** Failures of the validation oracle *)

Section OracleFailure.
Context `{Environment}.

(** What the [try] of the k-th call of the oracle comes to: the parsed
    answer, or the exception of the call or of the parser. *)
Definition attempt_result (k : nat) : result value :=
  match generate_content k with
  | Ok response_text => json_loads (clean_response response_text)
  | Raised e => Raised e
  end.

(** The oracle fails a query made at call [n]: each of the three attempts
    the query can make raises. *)
Definition oracle_fails (n : nat) : Prop :=
  ∀ k, (n <= k < n + 3)%nat → is_ok (attempt_result k) = false.

(** The object the oracle client returns in place of an answer. *)
Definition error_object (v : value) : Prop :=
  ∃ message, v = VDict [("error", VStr message)]
             ∨ ∃ raw, v = VDict [("error", VStr message);
                                 ("raw_response", VStr raw)].

Definition dict_or_absent (field : option value) : Prop :=
  match field with
  | None | Some (VDict _) => True
  | Some _ => False
  end.

(** The fields of the earlier stages the report reads are dictionaries, as
    the stages leave them. *)
Definition summary_fields_ok (state : SREValidationState) : Prop :=
  dict_or_absent (error_analysis state)
  ∧ dict_or_absent (logic_validation state)
  ∧ dict_or_absent (security_validation state)
  ∧ dict_or_absent (semantic_validation state).

(** The verdict of the [except] clause of the decision stage. *)
Definition forced_reject (e : exn) : Verdict :=
  {| verdict_decision := VStr "REJECT";
     verdict_detailed_report := "Decision process failed: " ++ exn_str e;
     verdict_recommendations := manual_review;
     verdict_failure_reasons := VList [VStr ("System error: " ++ exn_str e)] |}.
End OracleFailure.

(** C9 as the specification words it, for the decision stage: a failed
    oracle call forces REJECT with a single system-error reason. *)
Definition spec_failed_decision_rejects `{Environment}
    (state : SREValidationState) (n : nat) : Prop :=
  oracle_fails n →
  ∃ n' verdict message,
    final_decision_node state n = (n', Ok verdict)
    ∧ verdict_decision verdict = VStr "REJECT"
    ∧ verdict_failure_reasons verdict = VList [VStr message].

(** ** Two runs of the patch applicator side by side *)

Section SideBySide.
Context `{Environment}.



End SideBySide.

(** ** The loop of [fan_out], turn by turn *)

(** The pair ([expanded], [frontier]) after [n] turns of the loop. *)
Definition fan_out_state (file_index : Registry) (files : gset string) (n : nat)
    : gset string * gset string :=
  Nat.iter n (fan_out_round file_index) (files, files).

(** The keys of a registry, as a set. *)
Definition key_set (file_index : Registry) : gset string :=
  list_to_set (Dict.keys file_index).

(** ** The registry against the disk *)

Section Sync.
Import PyStr.
Context `{Environment}.

(** The entry [build_file_entry] makes of the file [f] found at [file_path]. *)
Definition entry_of (file_path : string) (f : File) : FileEntry :=
  {| path := file_path;
     content := data f;
     class_name :=
       match Re.search Re.CLASS_RE (data f) with
       | Some g => g
       | None => splitext_stem (basename file_path)
       end;
     imports := Re.findall Re.IMPORT_RE (data f);
     calls := Re.findall Re.CALL_RE (data f);
     last_modified := mtime f;
     checksum := md5 (data f) |}.

(** What one turn of [refresh_file_index] makes of an entry: nothing when
    the file is gone, the entry itself when the file has the stored
    modification time or content of the stored checksum, and the entry
    rebuilt from the file otherwise. *)
Definition refreshed (w : World) (info : FileEntry) : option FileEntry :=
  match files w !! path info with
  | None => None
  | Some f =>
      if Z.eqb (mtime f) (last_modified info) then Some info
      else if String.eqb (md5 (data f)) (checksum info) then Some info
      else Some (entry_of (path info) f)
  end.

(** The entry is up to date: a refresh keeps it as it is. *)
Definition in_sync (w : World) (info : FileEntry) : Prop :=
  refreshed w info = Some info.

(** The last of the listed paths with base name [k]. *)
Definition last_named (k : string) (fps : list string) : option string :=
  List.find (fun fp => String.eqb (basename fp) k) (rev fps).
End Sync.

(** The value of a computation that returned, and the empty list otherwise. *)
Definition snd_ok {S A : Type} (r : S * result (list A)) : list A :=
  match snd r with
  | Ok l => l
  | Raised _ => []
  end.

(** ** More sample data *)

Module Cases.
Import PyStr.

(** An environment whose clock stays within one second: every reading, and
    so every backup stamp, is the same. *)
Definition frozen_env : Environment :=
  {| HASH_ALGO := fun text => "md5(" ++ text ++ ")";
     clock := fun _ => 1700000000;
     strftime := Sample.decimal;
     send_message := fun _ => Ok Sample.foo_patch;
     generate_content := Sample.unavailable;
     json_loads := Sample.no_json;
     py_str := Sample.show |}.

Definition foo_store : Store :=
  {| st_index := Sample.foo_registry; st_world := Sample.foo_world |}.

Definition foo_entry : FileEntry :=
  Sample.entry "/srv/app/Foo.java" Sample.foo_old ["B"] [].

(** The world of [Foo.java] with the file write-protected. *)
Definition protected_world : World :=
  {| files := files Sample.foo_world;
     readonly := {[ "/srv/app/Foo.java" ]};
     ticks := 0; output := [] |}.

(** A session after a round of the fixer on [Foo.java]. *)
Definition fixed_state : State :=
  {| retries := Some 1; decision := None; detailed_report := None;
     recommendations := None; failure_reasons := None;
     test_failure_reason := None;
     file_index := Some Sample.foo_registry;
     relevant_files := Some Sample.foo_registry;
     original_code_backup := Some [("Foo.java", Sample.foo_old)];
     original_code_path_map := Some [("Foo.java", "/srv/app/Foo.java")];
     original_code := None; fixed_code := None;
     original_error := Some "java.lang.NullPointerException: null" |}.
End Cases.

(** What is printed aside, the store is the same. *)
Definition same_but_output (st st' : Store) : Prop :=
  st_index st' = st_index st
  ∧ files (st_world st') = files (st_world st)
  ∧ readonly (st_world st') = readonly (st_world st)
  ∧ ticks (st_world st') = ticks (st_world st).

(** A computation that leaves the state as it finds it. *)
Definition stateless {S A : Type} (c : M S A) : Prop :=
  ∀ s, fst (c s) = s.

(** The k-th attempt of the oracle raises. *)
Definition attempt_fails `{Environment} (k : nat) : Prop :=
  is_ok (attempt_result k) = false.

(** The store is ready for the fixes of a working set: no path refuses a
    write, and every file of the working set is on disk and in the
    registry. *)
Definition ready (source_files : Registry) (st : Store) : Prop :=
  readonly (st_world st) = ∅
  ∧ ∀ k e, Dict.get k source_files = Some e →
      is_Some (files (st_world st) !! path e)
      ∧ is_Some (Dict.get k (st_index st)).

(** The text holds the object [{body}], with no opening brace before it
    and no closing brace after it. *)
Definition wraps (body text : string) : Prop :=
  ∃ before after,
    text = before ++ "{" ++ body ++ "}" ++ after
    ∧ PyStr.contains "{" before = false
    ∧ PyStr.contains "}" after = false.

(** Every character of the text is of the class. *)
Fixpoint all_chars (cls : ascii -> bool) (s : string) : bool :=
  match s with
  | EmptyString => true
  | String c s' => cls c && all_chars cls s'
  end.

(** A non-empty run of characters of the class. *)
Definition run_of (cls : ascii -> bool) (s : string) : Prop :=
  s ≠ "" ∧ all_chars cls s = true.

(** A continuation of the matcher yields only groups with the property
    [R], from captures with the property [Q]. *)
Definition ensures (Q : Re.capture -> Prop) (R : string -> Prop) (k : Re.cont)
    : Prop :=
  ∀ prev s cap n g m, Q cap → k prev s cap n = Some (g, m) → R g.

(** The capture while the group is being read: a run of the class, then
    the literal text [suffix]. *)
Definition reading (cls : ascii -> bool) (suffix : string) (cap : Re.capture)
    : Prop :=
  Re.recording cap = true ∧ ∃ w, run_of cls w ∧ Re.text cap = w ++ suffix.

(** The capture once the group is closed. *)
Definition closed_on (R : string -> Prop) (cap : Re.capture) : Prop :=
  Re.recording cap = false ∧ R (Re.text cap).



(** ** What a completed run of the applicator leaves *)

Section Advance.
Context `{Environment}.



End Advance.

(** * Properties *)

(** ** Dictionaries *)

Module DictFacts.
Section DictFacts.
Context {V : Type}.
Implicit Types (d : Dict.t V) (k : string) (v : V).

Lemma get_set_eq d k v : Dict.get k (Dict.set k v d) = Some v.
Proof.
  induction d as [|[k' v'] d IH]; simpl.
  - by rewrite String.eqb_refl.
  - destruct (String.eqb k k') eqn:E; simpl.
    + by rewrite String.eqb_refl.
    + by rewrite E.
Qed.

Lemma get_set_ne d k k' v : k ≠ k' → Dict.get k' (Dict.set k v d) = Dict.get k' d.
Proof.
  intros Hne. induction d as [|[k0 v0] d IH]; simpl.
  - destruct (String.eqb k' k) eqn:E; [|done].
    apply String.eqb_eq in E. congruence.
  - destruct (String.eqb k k0) eqn:E; simpl.
    + apply String.eqb_eq in E. subst k0.
      destruct (String.eqb k' k) eqn:E'; [|done].
      apply String.eqb_eq in E'. congruence.
    + by rewrite IH.
Qed.

Lemma keys_set_present d k v :
  Dict.mem k d = true → Dict.keys (Dict.set k v d) = Dict.keys d.
Proof.
  unfold Dict.mem, Dict.keys.
  induction d as [|[k' v'] d IH]; simpl; [done|].
  destruct (String.eqb k k') eqn:E; simpl.
  - apply String.eqb_eq in E. by subst.
  - intros Hm. by rewrite IH.
Qed.

Lemma mem_get d k : Dict.mem k d = true ↔ is_Some (Dict.get k d).
Proof.
  unfold Dict.mem. destruct (Dict.get k d); split; intros Hx;
    try done; by destruct Hx.
Qed.

Lemma get_Some_elem d k v : Dict.get k d = Some v → (k, v) ∈ d.
Proof.
  induction d as [|[k' v'] d IH]; simpl; [done|].
  destruct (String.eqb k k') eqn:E.
  - apply String.eqb_eq in E. intros [= ->]. subst. left.
  - intros Hg. right. by apply IH.
Qed.

Lemma get_Some_key d k v : Dict.get k d = Some v → k ∈ Dict.keys d.
Proof.
  intros Hg. apply get_Some_elem in Hg. unfold Dict.keys.
  apply list_elem_of_In, in_map_iff. exists (k, v).
  split; [done|]. by apply list_elem_of_In.
Qed.

Lemma key_get d k : k ∈ Dict.keys d → is_Some (Dict.get k d).
Proof.
  unfold Dict.keys. induction d as [|[k' v'] d IH]; simpl.
  - intros Hx. by apply elem_of_nil in Hx.
  - intros Hx. destruct (String.eqb k k') eqn:E; [by eexists|].
    apply elem_of_cons in Hx as [->|Hx]; [|by apply IH].
    by rewrite String.eqb_refl in E.
Qed.
End DictFacts.
End DictFacts.

(** ** Fan-out (C6) *)

Section FanOutFacts.
Implicit Types (R : Registry) (E F X : gset string).

Lemma elem_of_visit_neighbors R E syms X x :
  x ∈ fold_left (visit_neighbor R E) syms X ↔
  x ∈ X ∨ ∃ c, c ∈ syms ∧ x = neighbor_file_of c
               ∧ Dict.mem x R = true ∧ x ∉ E.
Proof.
  revert X. induction syms as [|c syms IH]; intros X; simpl.
  - split; [by left|]. intros [?|(c & Hc & _)]; [done|].
    by apply elem_of_nil in Hc.
  - rewrite IH. unfold visit_neighbor at 1. split.
    + intros [Hx|(c' & Hc' & Hrest)].
      * destruct (Dict.mem (neighbor_file_of c) R) eqn:Hm; simpl in Hx.
        -- case_bool_decide as Hd; simpl in Hx.
           ++ apply elem_of_union in Hx as [Hx|Hx]; [|by left].
              apply elem_of_singleton in Hx. subst x. right.
              exists c. split_and!; [left|done|done|done].
           ++ by left.
        -- by left.
      * right. exists c'. split; [by right|done].
    + intros [Hx|(c' & Hc' & Hxc & Hm & HE)].
      * left. destruct (Dict.mem (neighbor_file_of c) R); simpl; [|done].
        case_bool_decide; simpl; [|done]. set_solver.
      * apply elem_of_cons in Hc' as [->|Hc'].
        -- left. subst x. rewrite Hm. simpl.
           rewrite bool_decide_true by done. set_solver.
        -- right. exists c'. by split_and!.
Qed.

Lemma elem_of_visit_file R E f X x :
  x ∈ visit_file R E f X ↔
  x ∈ X ∨ ∃ c, c ∈ symbols_of R f ∧ x = neighbor_file_of c
               ∧ Dict.mem x R = true ∧ x ∉ E.
Proof.
  unfold visit_file, symbols_of. destruct (Dict.get f R) as [info|].
  - apply elem_of_visit_neighbors.
  - split; [by left|]. intros [?|(c & Hc & _)]; [done|].
    by apply elem_of_nil in Hc.
Qed.

Lemma elem_of_next_frontier R E F x :
  x ∈ set_fold (visit_file R E) (∅ : gset string) F ↔
  ∃ f c, f ∈ F ∧ c ∈ symbols_of R f ∧ x = neighbor_file_of c
         ∧ Dict.mem x R = true ∧ x ∉ E.
Proof.
  apply (set_fold_ind_L
    (fun (acc : gset string) (F' : gset string) =>
       x ∈ acc ↔ ∃ f c, f ∈ F' ∧ c ∈ symbols_of R f ∧ x = neighbor_file_of c
                        ∧ Dict.mem x R = true ∧ x ∉ E)).
  - split; [set_solver|]. intros (f & c & Hf & _). set_solver.
  - intros f F' acc Hf IH. rewrite elem_of_visit_file, IH. split.
    + intros [(f' & c & Hf' & Hrest)|(c & Hrest)].
      * exists f', c. split; [set_solver|done].
      * exists f, c. split; [set_solver|done].
    + intros (f' & c & Hf' & Hrest).
      apply elem_of_union in Hf' as [Hf'|Hf'].
      * apply elem_of_singleton in Hf'. subst f'. right. by exists c.
      * left. by exists f', c.
Qed.

Lemma elem_of_spec_next_frontier to_file R E F x :
  x ∈ spec_next_frontier to_file R E F ↔
  ∃ f c, f ∈ F ∧ c ∈ symbols_of R f ∧ x = to_file c
         ∧ Dict.mem x R = true ∧ x ∉ E.
Proof.
  unfold spec_next_frontier.
  rewrite elem_of_list_to_set, list_elem_of_filter, list_elem_of_In, in_flat_map.
  split.
  - intros (Hp & f & Hf & Hx).
    apply in_map_iff in Hx as (c & <- & Hc).
    apply andb_prop_elim in Hp as [Hm Hd].
    exists f, c. split_and!.
    + by apply elem_of_elements, list_elem_of_In.
    + by apply list_elem_of_In.
    + done.
    + by apply Is_true_eq_true.
    + by apply bool_decide_unpack in Hd.
  - intros (f & c & Hf & Hc & -> & Hm & HE). split.
    + apply andb_prop_intro. split; [by apply Is_true_eq_left|].
      by apply bool_decide_pack.
    + exists f. split; [by apply list_elem_of_In, elem_of_elements|].
      apply in_map_iff. exists c. split; [done|]. by apply list_elem_of_In.
Qed.

(** One turn of the loop of the source is one round of the specification
    with the source's map from symbols to files. *)
Lemma fan_out_round_spec R ef :
  fan_out_round R ef = spec_round neighbor_file_of R ef.
Proof.
  destruct ef as [E F]. unfold fan_out_round, spec_round. simpl.
  assert (set_fold (visit_file R E) (∅ : gset string) F
          = spec_next_frontier neighbor_file_of R E F) as ->; [|done].
  apply set_eq. intros x.
  by rewrite elem_of_next_frontier, elem_of_spec_next_frontier.
Qed.

Lemma fan_out_rounds files R (n : nat) :
  Nat.iter n (fan_out_round R) (files, files)
  = Nat.iter n (spec_round neighbor_file_of R) (files, files).
Proof.
  induction n as [|n IH]; simpl; [done|].
  by rewrite IH, fan_out_round_spec.
Qed.

(** Where no symbol of the registry ends in [".java"], the two maps from
    symbols to files agree on every round. *)
Lemma spec_round_add_java R ef :
  (∀ k info c, Dict.get k R = Some info →
     c ∈ (imports info ++ calls info)%list → PyStr.endswith ".java" c = false) →
  spec_round neighbor_file_of R ef = spec_round add_java R ef.
Proof.
  intros Hplain. destruct ef as [E F]. unfold spec_round. simpl.
  assert (spec_next_frontier neighbor_file_of R E F
          = spec_next_frontier add_java R E F) as ->; [|done].
  apply set_eq. intros x. rewrite !elem_of_spec_next_frontier.
  assert (∀ f c, c ∈ symbols_of R f → neighbor_file_of c = add_java c) as Hsame.
  { intros f c. unfold symbols_of.
    destruct (Dict.get f R) as [info|] eqn:Hg.
    - intros Hc. unfold neighbor_file_of. by rewrite (Hplain f info c Hg Hc).
    - intros Hc. by apply elem_of_nil in Hc. }
  split; intros (f & c & Hf & Hc & -> & Hm & HE); exists f, c;
    split_and!; try done.
  - by apply (Hsame f).
  - symmetry. by apply (Hsame f).
Qed.
End FanOutFacts.

Section FanOutChain.
(** A chain of three files: [a] refers to [b], [b] to [c], [c] to nothing. *)
Variables (a b c sb sc : string) (ea eb ec : FileEntry).
Hypothesis Hab : a ≠ b.
Hypothesis Hac : a ≠ c.
Hypothesis Hbc : b ≠ c.
Hypothesis Ha : (imports ea ++ calls ea)%list = [sb].
Hypothesis Hsb : neighbor_file_of sb = b.
Hypothesis Hb : (imports eb ++ calls eb)%list = [sc].
Hypothesis Hsc : neighbor_file_of sc = c.
Hypothesis Hc : (imports ec ++ calls ec)%list = [].

Let R : Registry := [(a, ea); (b, eb); (c, ec)].

Local Ltac eqb_names :=
  repeat first
    [ rewrite String.eqb_refl
    | rewrite (proj2 (String.eqb_neq _ _)) by congruence ].

Lemma chain_round_a :
  fan_out_round R ({[a]}, {[a]}) = ({[a; b]}, {[b]}).
Proof.
  unfold fan_out_round. rewrite set_fold_singleton.
  unfold visit_file, R. simpl. eqb_names. rewrite Ha. simpl.
  unfold visit_neighbor. rewrite Hsb. unfold Dict.mem. simpl. eqb_names.
  rewrite bool_decide_true by set_solver. simpl.
  f_equal; set_solver.
Qed.

Lemma chain_round_b :
  fan_out_round R ({[a; b]}, {[b]}) = ({[a; b; c]}, {[c]}).
Proof.
  unfold fan_out_round. rewrite set_fold_singleton.
  unfold visit_file, R. simpl. eqb_names. rewrite Hb. simpl.
  unfold visit_neighbor. rewrite Hsc. unfold Dict.mem. simpl. eqb_names.
  rewrite bool_decide_true by set_solver. simpl.
  f_equal; set_solver.
Qed.

(** The chain is followed one link per round. *)
Lemma fan_out_chain :
  fan_out {[a]} R 0 = {[a]}
  ∧ fan_out {[a]} R 1 = {[a; b]}
  ∧ fan_out {[a]} R 2 = {[a; b; c]}.
Proof.
  unfold fan_out. split_and!.
  - done.
  - change (fst (fan_out_round R ({[a]}, {[a]})) = {[a; b]}).
    by rewrite chain_round_a.
  - change (fst (fan_out_round R (fan_out_round R ({[a]}, {[a]})))
            = {[a; b; c]}).
    by rewrite chain_round_a, chain_round_b.
Qed.
End FanOutChain.

(** Where no symbol of the registry ends in [".java"], [fan_out] is the
    fan-out with [".java"] appended to every symbol. *)
Lemma fan_out_add_java (files : gset string) (R : Registry) (depth : Z) :
  (∀ k info c, Dict.get k R = Some info →
     c ∈ (imports info ++ calls info)%list → PyStr.endswith ".java" c = false) →
  fan_out files R depth = fan_out_spec add_java files R (Z.to_nat depth).
Proof.
  intros Hplain. unfold fan_out, fan_out_spec. rewrite fan_out_rounds.
  f_equal. induction (Z.to_nat depth) as [|n IH]; simpl; [done|].
  by rewrite IH, spec_round_add_java.
Qed.

(** C6, as amended.  [fan_out] runs exactly [depth] rounds of frontier
    expansion over the imports and calls of the files added in the round
    before, a symbol standing for the file named by the symbol followed by
    [".java"], or by the symbol itself when it already ends in [".java"];
    only members of the registry not yet visited are added.  On the chain
    A -> B -> C the depths 0, 1 and 2 give {A}, {A, B} and {A, B, C}. *)
Theorem fan_out_frontier_rounds :
  (∀ (files : gset string) (file_index : Registry) (depth : Z),
     fan_out files file_index depth
     = fan_out_spec neighbor_file_of files file_index (Z.to_nat depth))
  ∧ (∀ symbol : string,
       neighbor_file_of symbol
       = if PyStr.endswith ".java" symbol then symbol else add_java symbol)
  ∧ fan_out {["A.java"]} Sample.chain 0 = {["A.java"]}
  ∧ fan_out {["A.java"]} Sample.chain 1 = {["A.java"; "B.java"]}
  ∧ fan_out {["A.java"]} Sample.chain 2 = {["A.java"; "B.java"; "C.java"]}.
Proof.
  split; [|split].
  - intros files R depth. unfold fan_out, fan_out_spec.
    by rewrite fan_out_rounds.
  - done.
  - apply (fan_out_chain "A.java" "B.java" "C.java" "B" "C"); done.
Qed.

(** C6, as stated, fails: a symbol that already ends in [".java"] is
    followed by the source, and is not when [".java"] is appended to it. *)
Lemma fan_out_keeps_java_suffix :
  fan_out {["A.java"]} Sample.dotted 1 = {["A.java"; "B.java"]}
  ∧ fan_out_spec add_java {["A.java"]} Sample.dotted 1 = {["A.java"]}
  ∧ fan_out {["A.java"]} Sample.dotted 1
    ≠ fan_out_spec add_java {["A.java"]} Sample.dotted (Z.to_nat 1).
Proof.
  assert (fan_out {["A.java"]} Sample.dotted 1 = {["A.java"; "B.java"]}) as H1.
  { vm_compute. reflexivity. }
  assert (fan_out_spec add_java {["A.java"]} Sample.dotted 1 = {["A.java"]}) as H2.
  { vm_compute. reflexivity. }
  split_and!; [done|done|].
  change (Z.to_nat 1) with 1%nat. rewrite H1, H2. intros Heq.
  assert ("B.java" ∈ ({["A.java"]} : gset string)) as Hin.
  { rewrite <- Heq. set_solver. }
  apply elem_of_singleton in Hin. discriminate.
Qed.

(** ** Fail-open localisation (C7) *)

Lemma no_frame_no_seed (error_text : string) :
  Re.findall Re.STACK_TRACE_RE error_text = [] →
  extract_filenames_from_error error_text = ∅.
Proof. unfold extract_filenames_from_error. by intros ->. Qed.

(** C7.  When no stack-frame file name is extracted from the error text,
    the relevant files are the whole registry, whatever the depth; the
    proposer then gets an empty context only from an empty registry. *)
Theorem get_relevant_files_fail_open
    (error_text : string) (file_index : Registry) (depth : Z) :
  extract_filenames_from_error error_text = ∅ →
  get_relevant_files error_text file_index depth = file_index
  ∧ Dict.keys (get_relevant_files error_text file_index depth)
    = Dict.keys file_index
  ∧ (file_index ≠ [] → get_relevant_files error_text file_index depth ≠ []).
Proof.
  intros Hseed. unfold get_relevant_files.
  rewrite bool_decide_true by done. done.
Qed.

Lemma get_relevant_files_fail_open_witness :
  extract_filenames_from_error "java.lang.NullPointerException: null" = ∅
  ∧ get_relevant_files "java.lang.NullPointerException: null" Sample.chain 0
    = Sample.chain.
Proof.
  assert (extract_filenames_from_error "java.lang.NullPointerException: null" = ∅)
    as Hseed by (apply no_frame_no_seed; vm_compute; reflexivity).
  split; [exact Hseed|].
  exact (proj1 (get_relevant_files_fail_open
                  "java.lang.NullPointerException: null" Sample.chain 0 Hseed)).
Defined.

(** Outside the claim: a frame in a file that is not in the registry is a
    seed, and then no file at all is selected. *)
Lemma foreign_frame_selects_nothing :
  extract_filenames_from_error Sample.foreign_trace = {["Pool.java"]}
  ∧ get_relevant_files Sample.foreign_trace Sample.chain 2 = [].
Proof. split; vm_compute; reflexivity. Qed.

(** ** Patch application *)

Section ApplyFacts.
Context `{Environment}.
Implicit Types (sf : Registry) (st : Store).

(** A fix is written when, and only when, the file is on disk, neither
    it nor its backup refuses the write, and the key is in the registry. *)
Lemma write_fix_ok sf k code st e f old :
  Dict.get k sf = Some e →
  files (st_world st) !! path e = Some f →
  backup_path_of (path e) (clock (ticks (st_world st))) ∉ readonly (st_world st) →
  path e ∉ readonly (st_world st) →
  Dict.get k (st_index st) = Some old →
  write_fix sf k code st = (fix_written (path e) f old k code st, Ok tt).
Proof.
  intros Hsf Hf Hbp Hp Hold. destruct st as [idx w]. simpl in *.
  unfold write_fix. rewrite Hsf.
  unfold bind, on_world, create_backup, write_text, copy2, now, lookup_index,
    getmtime, set_index, print, modify, ret, bind. simpl.
  rewrite Hf. rewrite bool_decide_false by done.
  rewrite bool_decide_false by done. simpl.
  rewrite Hold. unfold set_files. simpl. rewrite lookup_insert_eq. done.
Qed.

Lemma write_fix_ok_inv sf k code st st' :
  write_fix sf k code st = (st', Ok tt) →
  ∃ e f old,
    Dict.get k sf = Some e
    ∧ files (st_world st) !! path e = Some f
    ∧ (backup_path_of (path e) (clock (ticks (st_world st))) ∉ readonly (st_world st))
    ∧ (path e ∉ readonly (st_world st))
    ∧ Dict.get k (st_index st) = Some old
    ∧ st' = fix_written (path e) f old k code st.
Proof.
  destruct st as [idx w]. unfold write_fix.
  destruct (Dict.get k sf) as [e|] eqn:Hsf; [|done].
  unfold bind, on_world, create_backup, write_text, copy2, now, lookup_index,
    getmtime, set_index, print, modify, ret, bind. simpl.
  destruct (files w !! path e) as [f|] eqn:Hf; [|done].
  case_bool_decide as Hbp; [done|]. simpl.
  case_bool_decide as Hp; [done|]. simpl.
  destruct (Dict.get k idx) as [old|] eqn:Hold; [|done].
  unfold set_files. simpl. rewrite lookup_insert_eq. intros [= <-].
  exists e, f, old. by split_and!.
Qed.
End ApplyFacts.

Section Containment.
Context `{Environment}.
Implicit Types (sf : Registry) (st : Store).

Lemma contained_refl sf st : contained sf st st.
Proof.
  unfold contained. split_and!; try done.
  - intros k e0 Hk. by exists e0.
  - intros p Hp. by left.
Qed.

Lemma contained_trans sf st0 st1 st2 :
  contained sf st0 st1 → contained sf st1 st2 → contained sf st0 st2.
Proof.
  intros (Hk1 & Hs1 & Hn1 & Hc1 & Hr1) (Hk2 & Hs2 & Hn2 & Hc2 & Hr2).
  unfold contained. split_and!.
  - by rewrite Hk2.
  - intros k e0 Hg. destruct (Hs1 k e0 Hg) as (e1 & Hg1 & He1).
    destruct (Hs2 k e1 Hg1) as (e2 & Hg2 & He2).
    exists e2. split; [done|]. by rewrite He2.
  - intros p Hp. destruct (Hn2 p Hp) as [Hp1|Hb]; [|by right].
    by apply Hn1.
  - intros p Hp.
    destruct (decide (files (st_world st1) !! p = files (st_world st0) !! p))
      as [Heq|Hne].
    + apply Hc2. by rewrite Heq.
    + by apply Hc1.
  - by rewrite Hr2.
Qed.

(** The general shape of one step: the registry keeps its keys and the
    static fields, and the files that change are targets that were there,
    or backups. *)
Lemma contained_step sf st idx' w' :
  Dict.keys idx' = Dict.keys (st_index st) →
  (∀ k e0, Dict.get k (st_index st) = Some e0 →
     ∃ e, Dict.get k idx' = Some e ∧ static e = static e0) →
  (∀ p, files w' !! p ≠ files (st_world st) !! p →
     (is_target sf p ∧ is_Some (files (st_world st) !! p)) ∨ is_backup sf p) →
  readonly w' = readonly (st_world st) →
  contained sf st {| st_index := idx'; st_world := w' |}.
Proof.
  intros Hk Hs Hc Hr. unfold contained. simpl. split_and!; try done.
  - intros p Hp.
    destruct (decide (files w' !! p = files (st_world st) !! p)) as [Heq|Hne].
    + left. by rewrite <- Heq.
    + destruct (Hc p Hne) as [[_ Hsome]|Hb]; [by left|by right].
  - intros p Hp. destruct (Hc p Hp) as [[Ht _]|Hb]; [by left|by right].
Qed.


Lemma statics_set (idx : Registry) k old new :
  Dict.get k idx = Some old → static new = static old →
  ∀ k' e0, Dict.get k' idx = Some e0 →
    ∃ e, Dict.get k' (Dict.set k new idx) = Some e ∧ static e = static e0.
Proof.
  intros Hold Hst k' e0 Hg. destruct (decide (k = k')) as [<-|Hne].
  - rewrite DictFacts.get_set_eq. exists new. split; [done|]. congruence.
  - rewrite DictFacts.get_set_ne by done. by exists e0.
Qed.

Lemma statics_same (idx : Registry) :
  ∀ k e0, Dict.get k idx = Some e0 →
    ∃ e, Dict.get k idx = Some e ∧ static e = static e0.
Proof. intros k e0 Hg. by exists e0. Qed.

(** Writing a fix stays within the footprint, and fails only as a block
    for a known file can fail. *)
Lemma write_fix_contained sf k code st st' r :
  k ≠ "" → is_Some (Dict.get k sf) →
  write_fix sf k code st = (st', r) →
  contained sf st st' ∧ (∀ ex, r = Raised ex → known_failure sf ex).
Proof.
  intros Hk [e Hsf]. destruct st as [idx w]. unfold write_fix. rewrite Hsf.
  assert (is_target sf (path e)) as Htarget by (by exists k, e).
  assert (∀ t, is_backup sf (backup_path_of (path e) t)) as Hbackup
    by (intros t; by exists k, e, t).
  assert (∀ ex, (ex = FileNotFoundError (path e)
                 ∨ ex = PermissionError (path e)
                 ∨ (∃ t, ex = PermissionError (backup_path_of (path e) t))
                 ∨ ex = KeyError k) → known_failure sf ex) as Hknown
    by (intros ex Hex; by exists k, e).
  unfold bind, on_world, create_backup, write_text, copy2, now, lookup_index,
    getmtime, set_index, print, modify, ret, bind. simpl.
  destruct (files w !! path e) as [f|] eqn:Hf.
  2:{ intros [= <- <-]. split.
      - apply contained_step; simpl; auto using statics_same. by intros p [].
      - intros ex [= <-]. apply Hknown. by left. }
  case_bool_decide as Hbp.
  { intros [= <- <-]. split.
    - apply contained_step; simpl; auto using statics_same. by intros p [].
    - intros ex [= <-]. apply Hknown. right. right. left. by eexists. }
  simpl. case_bool_decide as Hp.
  { intros [= <- <-]. split.
    - apply contained_step; simpl; auto using statics_same.
      intros p Hne. right.
      destruct (decide (p = backup_path_of (path e) (clock (ticks w))))
        as [->|Hpb]; [apply Hbackup|].
      by rewrite lookup_insert_ne in Hne.
    - intros ex [= <-]. apply Hknown. right. by left. }
  simpl. unfold set_files. simpl.
  assert (∀ p,
    <[path e := {| data := code; mtime := clock (S (ticks w)) |}]>
      (<[backup_path_of (path e) (clock (ticks w)) := f]> (files w)) !! p
    ≠ files w !! p →
    (is_target sf p ∧ is_Some (files w !! p)) ∨ is_backup sf p) as Hfiles.
  { intros p Hne. destruct (decide (p = path e)) as [->|Hpe].
    - left. split; [done|]. by rewrite Hf.
    - right. rewrite lookup_insert_ne in Hne by done.
      destruct (decide (p = backup_path_of (path e) (clock (ticks w))))
        as [->|Hpb]; [apply Hbackup|].
      by rewrite lookup_insert_ne in Hne. }
  destruct (Dict.get k idx) as [old|] eqn:Hold; simpl.
  - rewrite lookup_insert_eq. intros [= <- <-]. split; [|done].
    apply contained_step; simpl; try done.
    + apply DictFacts.keys_set_present, DictFacts.mem_get. by rewrite Hold.
    + by apply (statics_set idx k old).
  - intros [= <- <-]. split.
    + apply contained_step; simpl; auto using statics_same.
    + intros ex [= <-]. apply Hknown. by repeat right.
Qed.
End Containment.

Section ScanFacts.
Context `{Environment}.
Implicit Types (sf : Registry) (st : Store).

Lemma find_matched_key_known name sf k :
  find_matched_key name sf = Some k → is_Some (Dict.get k sf).
Proof.
  unfold find_matched_key. intros Hfind.
  apply find_some in Hfind as [Hin _].
  by apply DictFacts.key_get, list_elem_of_In.
Qed.

Lemma print_contained sf ev st st' (r : result unit) :
  on_world (print ev) st = (st', r) → contained sf st st' ∧ r = Ok tt.
Proof.
  destruct st as [idx w]. unfold on_world, print, modify. simpl.
  intros [= <- <-]. split; [|done].
  apply contained_step; simpl; auto using statics_same. by intros p [].
Qed.

(** A block whose marker matches no file is dropped: one warning is
    printed and nothing else happens. *)
Lemma apply_block_unknown sf name code st :
  apply_block sf name None code st
  = ({| st_index := st_index st;
        st_world := {| files := files (st_world st);
                       readonly := readonly (st_world st);
                       ticks := ticks (st_world st);
                       output := output (st_world st) ++ [UnknownFile name] |} |},
     Ok tt).
Proof. done. Qed.

Lemma apply_block_contained sf name mk code st st' r :
  (∀ k, mk = Some k → is_Some (Dict.get k sf)) →
  apply_block sf name mk code st = (st', r) →
  contained sf st st' ∧ (∀ ex, r = Raised ex → known_failure sf ex).
Proof.
  intros Hmk. unfold apply_block. destruct mk as [k|].
  - destruct (String.eqb k "") eqn:Hk.
    + intros Hrun. apply (print_contained sf) in Hrun as [Hc ->]. by split.
    + apply write_fix_contained; [|by apply Hmk].
      by apply String.eqb_neq.
  - intros Hrun. apply (print_contained sf) in Hrun as [Hc ->]. by split.
Qed.

Lemma scan_contained sf lines :
  (∀ cur st st' r,
     scan_lines sf lines cur st = (st', r) →
     contained sf st st' ∧ (∀ ex, r = Raised ex → known_failure sf ex))
  ∧ (∀ name mk code st st' r,
       (∀ k, mk = Some k → is_Some (Dict.get k sf)) →
       collect_block sf lines name mk code st = (st', r) →
       contained sf st st' ∧ (∀ ex, r = Raised ex → known_failure sf ex)).
Proof.
  induction lines as [|raw rest [IHscan IHcollect]]; split.
  - intros cur st st' r [= <- <-]. split; [apply contained_refl|done].
  - intros name mk code st st' r Hmk. simpl. by apply apply_block_contained.
  - intros cur st st' r. simpl.
    destruct (is_marker (PyStr.strip raw)).
    { unfold bind at 1.
      destruct (on_world (print _) st) as [st1 r1] eqn:Hprint.
      apply (print_contained sf) in Hprint as [Hc1 ->].
      intros Hrun. apply IHscan in Hrun as [Hc2 Hr].
      split; [by eapply contained_trans|done]. }
    destruct (opens_block (PyStr.strip raw)); [|by apply IHscan].
    destruct cur as [name|].
    + apply IHcollect. intros k. apply find_matched_key_known.
    + unfold bind at 1.
      destruct (on_world (print _) st) as [st1 r1] eqn:Hprint.
      apply (print_contained sf) in Hprint as [Hc1 ->].
      intros Hrun. apply IHscan in Hrun as [Hc2 Hr].
      split; [by eapply contained_trans|done].
  - intros name mk code st st' r Hmk. simpl.
    destruct (closes_block raw); [|by apply IHcollect].
    unfold bind at 1.
    destruct (apply_block sf name mk code st) as [st1 r1] eqn:Hblock.
    apply apply_block_contained in Hblock as [Hc1 Hr1]; [|done].
    destruct r1 as [[]|ex1].
    + intros Hrun. apply IHscan in Hrun as [Hc2 Hr].
      split; [by eapply contained_trans|done].
    + intros [= <- <-]. split; [done|]. intros ex [= <-]. by apply Hr1.
Qed.

(** C4.  For every response text, applying the fixes keeps the keys of
    the registry (so their number); no file comes into being other than
    backups named after files of the working set, and no file changes
    other than files of the working set and such backups; a block whose
    marker matches no key of the working set is dropped with a warning;
    and an exception comes only from a block that names a file of the
    working set. *)
Theorem apply_fixes_no_new_files
    (response_text : string) (source_files : Registry) (st : Store) :
  let run := apply_fixes_to_code response_text source_files st in
  Dict.keys (st_index (fst run)) = Dict.keys (st_index st)
  ∧ List.length (st_index (fst run)) = List.length (st_index st)
  ∧ (∀ p, is_Some (files (st_world (fst run)) !! p) →
       is_Some (files (st_world st) !! p) ∨ is_backup source_files p)
  ∧ (∀ p, files (st_world (fst run)) !! p ≠ files (st_world st) !! p →
       is_target source_files p ∨ is_backup source_files p)
  ∧ (∀ ex, snd run = Raised ex → known_failure source_files ex)
  ∧ (∀ name code_lines st1,
       find_matched_key name source_files = None →
       apply_block source_files name (find_matched_key name source_files)
         code_lines st1
       = ({| st_index := st_index st1;
             st_world :=
               {| files := files (st_world st1);
                  readonly := readonly (st_world st1);
                  ticks := ticks (st_world st1);
                  output := output (st_world st1) ++ [UnknownFile name] |} |},
          Ok tt)).
Proof.
  intros run.
  destruct (proj1 (scan_contained source_files
                     (PyStr.split "010" response_text))
              None st (fst run) (snd run)) as [(Hk & Hs & Hn & Hc & Hr) Hex].
  { unfold run, apply_fixes_to_code. by destruct (scan_lines _ _ _ _). }
  split_and!; try done.
  - unfold Dict.keys in Hk.
    by rewrite <- (length_map fst (st_index (fst run))), Hk, length_map.
  - intros name code_lines st1 ->. apply apply_block_unknown.
Qed.
End ScanFacts.

Lemma apply_fixes_no_new_files_witness :
  let st := {| st_index := Sample.foo_registry; st_world := Sample.foo_world |} in
  let run :=
    @apply_fixes_to_code Sample.foo_env Sample.bar_patch Sample.foo_registry st in
  Dict.keys (st_index (fst run)) = ["Foo.java"]
  ∧ snd run = Ok tt
  ∧ st_index (fst run) = Sample.foo_registry
  ∧ files (st_world (fst run)) = files Sample.foo_world
  ∧ output (st_world (fst run)) = [Processing "Bar.java"; UnknownFile "Bar.java"].
Proof.
  intros st run. split.
  - exact (proj1 (@apply_fixes_no_new_files Sample.foo_env Sample.bar_patch
                    Sample.foo_registry st)).
  - split_and!; vm_compute; reflexivity.
Defined.

(** ** Blocks without a closing fence, and markers (C10) *)

Section OpenBlocks.
Context `{Environment}.
Implicit Types (sf : Registry) (st : Store).

Lemma length_append (s t : string) :
  String.length (s ++ t) = (String.length s + String.length t)%nat.
Proof. induction s as [|c s IH]; simpl; [done|]. by rewrite IH. Qed.

(** A backup never has the name of the file it copies. *)
Lemma backup_path_other (file_path : string) (t : Z) :
  backup_path_of file_path t ≠ file_path.
Proof.
  unfold backup_path_of. intros Heq.
  apply (f_equal String.length) in Heq.
  rewrite !length_append in Heq. simpl in Heq. lia.
Qed.





End OpenBlocks.


(** The same block after a bare file name, without the prefix: the run of
    the whole response writes the file. *)
Lemma bare_name_marks_file :
  let st := {| st_index := Sample.foo_registry; st_world := Sample.foo_world |} in
  let run :=
    @apply_fixes_to_code Sample.foo_env
      ("Foo.java" ++ Sample.nl ++ "```" ++ Sample.nl ++ Sample.foo_new)
      Sample.foo_registry st in
  snd run = Ok tt
  ∧ data <$> files (st_world (fst run)) !! "/srv/app/Foo.java"
    = Some Sample.foo_new
  ∧ output (st_world (fst run))
    = [Processing "Foo.java"; Fixed "/srv/app/Foo.java"].
Proof. intros st run. split_and!; vm_compute; reflexivity. Qed.

(** ** The entry of a patched file (C3) *)

(** C3 fails on the source.  The registry is the one built from a disk
    that holds [Foo.java] importing [B]; the proposal replaces the file by
    one importing [C].  After the fix is applied the entry has the new
    content and the checksum of the new content, and still the imports of
    the old content; [build_file_entry], which [refresh_file_index] uses for
    a changed file, derives the imports of the new content from the file
    just written. *)
Theorem patched_entry_keeps_old_imports :
  let st := {| st_index := Sample.foo_registry; st_world := Sample.foo_world |} in
  let run :=
    @apply_fixes_to_code Sample.foo_env Sample.foo_patch Sample.foo_registry st in
  snd (@build_file_index Sample.foo_env "/srv/app" Sample.foo_world)
  = Ok Sample.foo_registry
  ∧ snd run = Ok tt
  ∧ (∃ e, Dict.get "Foo.java" (st_index (fst run)) = Some e
          ∧ content e = Sample.foo_new
          ∧ checksum e = @md5 Sample.foo_env Sample.foo_new
          ∧ imports e = ["B"]
          ∧ Re.findall Re.IMPORT_RE (content e) = ["C"])
  ∧ (∃ rebuilt,
       snd (@build_file_entry Sample.foo_env "/srv/app/Foo.java"
              (st_world (fst run))) = Ok rebuilt
       ∧ content rebuilt = Sample.foo_new
       ∧ imports rebuilt = ["C"]).
Proof.
  intros st run. split_and!.
  - vm_compute. reflexivity.
  - vm_compute. reflexivity.
  - eexists. split; [vm_compute; reflexivity|].
    split_and!; vm_compute; reflexivity.
  - eexists. split; [vm_compute; reflexivity|].
    split; vm_compute; reflexivity.
Qed.

(** In every environment a written fix leaves the class, the imports and
    the calls of the entry as they were. *)
Lemma fix_written_entry `{Environment} (file_path : string) (f : File)
    (old : FileEntry) (k code : string) (st : Store) :
  Dict.get k (st_index (fix_written file_path f old k code st))
  = Some (patched_entry old code (clock (S (ticks (st_world st)))))
  ∧ static (patched_entry old code (clock (S (ticks (st_world st))))) = static old
  ∧ checksum (patched_entry old code (clock (S (ticks (st_world st))))) = md5 code.
Proof. unfold fix_written. simpl. by rewrite DictFacts.get_set_eq. Qed.

(** ** The backup map (C1) *)

Section BackupMap.
Context `{Environment}.

(** A backup map that is there is not taken again. *)
Lemma node_fixer_keeps_backup error_log project_dir state w w' state' b :
  original_code_backup state = Some b →
  node_fixer error_log project_dir state w = (w', Ok state') →
  original_code_backup state' = Some b
  ∧ original_code_path_map state' = original_code_path_map state.
Proof.
  intros Hb. unfold node_fixer. rewrite Hb.
  unfold bind at 1.
  destruct (match file_index state with
            | Some fi => refresh_file_index fi
            | None => build_file_index project_dir
            end w) as [w1 [idx0|ex]]; [|done].
  unfold bind at 1. unfold lift at 1.
  destruct (send_message _) as [response|ex]; [|done].
  unfold bind at 1.
  destruct (apply_fixes_to_code _ _ _) as [st1 [[]|ex]]; [|done].
  unfold bind at 1. unfold lift at 1.
  destruct (reindex _ _ _) as [relevant1|ex]; [|done].
  unfold ret. by intros [= <- <-].
Qed.

Lemma record_verdict_keeps_backup verdict state state' :
  record_verdict verdict state = Ok state' →
  original_code_backup state' = original_code_backup state
  ∧ original_code_path_map state' = original_code_path_map state.
Proof.
  unfold record_verdict.
  destruct (Py.eq_str (verdict_decision verdict) "REJECT").
  - destruct (Py.truthy (verdict_failure_reasons verdict)).
    + destruct (Py.join "; " (verdict_failure_reasons verdict)); [|done].
      by intros [= <-].
    + by intros [= <-].
  - by intros [= <-].
Qed.

Lemma router_keeps_backup state w w' state' next :
  router state w = (w', Ok (state', next)) →
  original_code_backup state' = original_code_backup state
  ∧ original_code_path_map state' = original_code_path_map state.
Proof.
  unfold router.
  destruct (decision_is state "DEPLOY"); [by intros [= _ <- _]|].
  destruct (decision_is state "NEEDS_REVIEW"); [by intros [= _ <- _]|].
  destruct (3 <=? default 0 (retries state)).
  - unfold bind at 1. destruct (restore_original_code state w) as [w1 [[]|ex]];
      [|done].
    unfold bind, print, modify, ret. by intros [= _ <- _].
  - unfold bind, print, modify, ret. by intros [= _ <- _].
Qed.
End BackupMap.

(** C1 fails on the source.  On the first attempt of a session (no backup
    map in the state, the registry built from the disk) the map is taken
    after the fixes are applied, from the registry the fixes have changed:
    [Foo.java] is backed up with the proposed content, not with the content
    the file had, and a rollback writes the proposed content back. *)
Theorem backup_taken_after_the_fix :
  let run :=
    @node_fixer Sample.foo_env "java.lang.NullPointerException: null" "/srv/app"
      Sample.empty_state Sample.foo_world in
  data <$> files Sample.foo_world !! "/srv/app/Foo.java" = Some Sample.foo_old
  ∧ Sample.foo_new ≠ Sample.foo_old
  ∧ ∃ state,
      snd run = Ok state
      ∧ original_code_backup state = Some [("Foo.java", Sample.foo_new)]
      ∧ original_code_path_map state = Some [("Foo.java", "/srv/app/Foo.java")]
      ∧ data <$> files (fst (@restore_original_code Sample.foo_env state (fst run)))
                   !! "/srv/app/Foo.java"
        = Some Sample.foo_new.
Proof.
  intros run. split_and!.
  - vm_compute. reflexivity.
  - discriminate.
  - eexists. split; [vm_compute; reflexivity|].
    split_and!; vm_compute; reflexivity.
Qed.

(** ** Rollback at the retry ceiling (C5) *)

Section Rollback.
Context `{Environment}.
Implicit Types (path_map : Dict.t string) (w : World).

Lemma restore_one_skipped path_map item w :
  restore_target path_map item = None →
  restore_one path_map item w = (w, Ok tt).
Proof.
  destruct item as [filename text]. unfold restore_target, restore_one. simpl.
  destruct (Dict.get filename path_map) as [p|]; [|done].
  by destruct (String.eqb p "").
Qed.

Lemma restore_one_written path_map filename text p w :
  restore_target path_map (filename, text) = Some p →
  p ∉ readonly w →
  restore_one path_map (filename, text) w
  = ({| files := <[p := {| data := text; mtime := clock (ticks w) |}]> (files w);
        readonly := readonly w;
        ticks := S (ticks w);
        output := output w ++ [Restored filename] |}, Ok tt).
Proof.
  unfold restore_target, restore_one. simpl.
  destruct (Dict.get filename path_map) as [q|]; [|done].
  destruct (String.eqb q ""); [done|]. intros [= ->] Hp.
  unfold try_except, bind, write_text, now, print, modify. simpl.
  by rewrite bool_decide_false by done.
Qed.

Lemma restore_one_refused path_map filename text p w :
  restore_target path_map (filename, text) = Some p →
  p ∈ readonly w →
  restore_one path_map (filename, text) w
  = ({| files := files w; readonly := readonly w; ticks := ticks w;
        output := output w ++ [RestoreFailed filename (PermissionError p)] |},
     Ok tt).
Proof.
  unfold restore_target, restore_one. simpl.
  destruct (Dict.get filename path_map) as [q|]; [|done].
  destruct (String.eqb q ""); [done|]. intros [= ->] Hp.
  unfold try_except, bind, write_text, now, print, modify. simpl.
  by rewrite bool_decide_true by done.
Qed.

(** One item never raises, leaves the permissions and every other file
    alone, and keeps what was printed. *)
Lemma restore_one_frame path_map item w :
  ∃ w', restore_one path_map item w = (w', Ok tt)
        ∧ readonly w' = readonly w
        ∧ (∀ q, restore_target path_map item ≠ Some q →
             files w' !! q = files w !! q)
        ∧ (∀ ev, ev ∈ output w → ev ∈ output w').
Proof.
  destruct item as [filename text].
  destruct (restore_target path_map (filename, text)) as [p|] eqn:Ht.
  - destruct (decide (p ∈ readonly w)) as [Hro|Hrw].
    + eexists. split; [by apply restore_one_refused|]. simpl.
      split_and!; try done. intros ev Hev. apply elem_of_app. by left.
    + eexists. split; [by apply restore_one_written|]. simpl.
      split_and!; try done.
      * intros q Hq. apply lookup_insert_ne. congruence.
      * intros ev Hev. apply elem_of_app. by left.
  - exists w. split; [by apply restore_one_skipped|]. done.
Qed.

Lemma restore_all_frame path_map items w :
  ∃ w', for_each items (restore_one path_map) w = (w', Ok tt)
        ∧ readonly w' = readonly w
        ∧ (∀ q, q ∉ omap (restore_target path_map) items →
             files w' !! q = files w !! q)
        ∧ (∀ ev, ev ∈ output w → ev ∈ output w').
Proof.
  revert w. induction items as [|item items IH]; intros w; simpl.
  - by exists w.
  - destruct (restore_one_frame path_map item w) as (w1 & Hrun1 & Hro1 & Hf1 & Ho1).
    destruct (IH w1) as (w2 & Hrun2 & Hro2 & Hf2 & Ho2).
    exists w2. unfold bind. rewrite Hrun1. split; [done|].
    split_and!.
    + by rewrite Hro2.
    + intros q Hq. destruct (restore_target path_map item) as [p|] eqn:Ht.
      * rewrite Hf2, Hf1; [done| |]; set_solver.
      * rewrite Hf2, Hf1; [done| |]; set_solver.
    + intros ev Hev. by apply Ho2, Ho1.
Qed.

(** Every item is attempted: a file whose path accepts the write ends with
    its stored content, and a refusal is reported and stops nothing. *)
Lemma restore_all_restores path_map items w w' :
  NoDup (omap (restore_target path_map) items) →
  for_each items (restore_one path_map) w = (w', Ok tt) →
  ∀ filename text p,
    (filename, text) ∈ items →
    restore_target path_map (filename, text) = Some p →
    (p ∉ readonly w → data <$> files w' !! p = Some text)
    ∧ (p ∈ readonly w →
         RestoreFailed filename (PermissionError p) ∈ output w').
Proof.
  revert w. induction items as [|item items IH]; intros w Hnodup Hrun
    filename text p Hin Ht.
  { by apply elem_of_nil in Hin. }
  simpl in Hrun. unfold bind in Hrun.
  destruct (restore_one_frame path_map item w) as (w1 & Hrun1 & Hro1 & Hf1 & Ho1).
  rewrite Hrun1 in Hrun.
  destruct (restore_all_frame path_map items w1) as (w2 & Hrun2 & Hro2 & Hf2 & Ho2).
  assert (w2 = w') as -> by congruence.
  apply elem_of_cons in Hin as [<-|Hin].
  - simpl in Hnodup. rewrite Ht in Hnodup.
    apply NoDup_cons in Hnodup as [Hfresh _]. split.
    + intros Hrw. rewrite Hf2 by done.
      rewrite (restore_one_written path_map filename text p w Ht Hrw) in Hrun1.
      injection Hrun1 as <-. simpl. by rewrite lookup_insert_eq.
    + intros Hro. apply Ho2.
      rewrite (restore_one_refused path_map filename text p w Ht Hro) in Hrun1.
      injection Hrun1 as <-. simpl. apply elem_of_app. right. left.
  - assert (NoDup (omap (restore_target path_map) items)) as Hnodup'.
    { simpl in Hnodup. destruct (restore_target path_map item);
        [by apply NoDup_cons in Hnodup as [_ ?]|done]. }
    rewrite <- Hro1. by apply (IH w1 Hnodup' Hrun filename text p Hin Ht).
Qed.

Lemma decision_is_reject state :
  decision_is state "REJECT" = true →
  decision_is state "DEPLOY" = false ∧ decision_is state "NEEDS_REVIEW" = false.
Proof.
  unfold decision_is. destruct (decision state) as [[| | |s| |]|]; try done.
  simpl. intros Hs. apply String.eqb_eq in Hs. by subst s.
Qed.

(** C5.  When the decision is REJECT and the retry counter has reached 3,
    the router ends the session, the state unchanged and the fixer not
    called again, after the rollback: every file of the backup map whose
    recorded path accepts the write has its stored content at that path
    (distinct files having distinct paths), a refused write is reported,
    and it keeps no other file from being restored. *)
Theorem router_rolls_back_at_ceiling (state : State) (w : World) :
  decision_is state "REJECT" = true →
  3 <= default 0 (retries state) →
  NoDup (restore_targets state) →
  ∃ w',
    router state w = (w', Ok (state, END))
    ∧ readonly w' = readonly w
    ∧ (∀ filename text p,
         (filename, text) ∈ default [] (original_code_backup state) →
         Dict.get filename (default [] (original_code_path_map state)) = Some p →
         p ≠ "" →
         (p ∉ readonly w → data <$> files w' !! p = Some text)
         ∧ (p ∈ readonly w →
              RestoreFailed filename (PermissionError p) ∈ output w')).
Proof.
  intros Hreject Hceiling Hnodup.
  destruct (decision_is_reject state Hreject) as [Hd Hn].
  unfold router. rewrite Hd, Hn.
  rewrite (proj2 (Z.leb_le _ _) Hceiling).
  unfold restore_original_code.
  destruct (restore_all_frame (default [] (original_code_path_map state))
              (default [] (original_code_backup state)) w)
    as (w1 & Hrun & Hro & Hf & Ho).
  eexists. unfold bind at 1. rewrite Hrun.
  unfold bind, print, modify, ret. simpl. split; [done|]. split; [done|].
  intros filename text p Hin Hpath Hp.
  assert (restore_target (default [] (original_code_path_map state))
            (filename, text) = Some p) as Ht.
  { unfold restore_target. simpl. rewrite Hpath.
    by rewrite (proj2 (String.eqb_neq _ _) Hp). }
  destruct (restore_all_restores _ _ _ _ Hnodup Hrun filename text p Hin Ht)
    as [Hok Hfail].
  split; [done|]. intros Hro'. apply elem_of_app. left. by apply Hfail.
Qed.
End Rollback.

Lemma router_rolls_back_at_ceiling_witness :
  ∃ w',
    @router Sample.foo_env Sample.exhausted Sample.locked_world
    = (w', Ok (Sample.exhausted, END))
    ∧ data <$> files w' !! "/srv/app/B.java" = Some "class B { }"
    ∧ RestoreFailed "A.java" (PermissionError "/srv/app/A.java") ∈ output w'.
Proof.
  destruct (@router_rolls_back_at_ceiling Sample.foo_env
              Sample.exhausted Sample.locked_world)
    as (w' & Hrun & _ & Hall).
  - reflexivity.
  - simpl. lia.
  - apply (bool_decide_unpack _). vm_compute. exact I.
  - exists w'. split; [exact Hrun|]. split.
    + apply (Hall "B.java" "class B { }" "/srv/app/B.java").
      * simpl. apply elem_of_cons. right. apply elem_of_cons. by left.
      * reflexivity.
      * discriminate.
      * vm_compute. discriminate.
    + apply (Hall "A.java" "class A { }" "/srv/app/A.java").
      * simpl. apply elem_of_cons. by left.
      * reflexivity.
      * discriminate.
      * vm_compute. reflexivity.
Defined.

(** ** The retry counter on a rejection (C2) *)

Section Retry.
Context `{Environment}.

Lemma strings_of_strs (l : list string) : Py.strings_of (map VStr l) = Ok l.
Proof. induction l as [|s l IH]; simpl; [done|]. by rewrite IH. Qed.

Lemma join_strs (sep : string) (l : list string) :
  Py.join sep (VList (map VStr l)) = Ok (PyStr.join sep l).
Proof. unfold Py.join. simpl. by rewrite strings_of_strs. Qed.

(** [testing_node] records the verdict the validation returns. *)
Lemma testing_node_records (state : State) (relevant : Registry)
    (backup : Dict.t string) (error : string) (verdict : Verdict) (n n' : nat) :
  relevant_files state = Some relevant →
  original_code_backup state = Some backup →
  original_error state = Some error →
  validate_code_with_llm
    (PyStr.join (newline ++ newline)
       (map (fun fname => file_banner fname (default "" (Dict.get fname backup)))
            (Dict.keys relevant)))
    (PyStr.join (newline ++ newline)
       (map (fun '(fname, info) => file_banner fname (content info)) relevant))
    error "Gemini fix applied based on Spring Boot error.log" n
  = (n', Ok verdict) →
  testing_node state n = (n', record_verdict verdict state).
Proof.
  intros Hr Hb He Hv. unfold testing_node. rewrite Hr, Hb, He.
  unfold bind, lift, required, try_except, ret. simpl. by rewrite Hv.
Qed.

(** C2 fails on the source.  On a rejection below the ceiling the session
    goes back to the fixer with the reasons and the report in the note of
    the next prompt, as the claim says, but the retry counter has gone up
    by two: [testing_node] adds one when it records the rejection and
    [router] adds one more when it sends the session back. *)
Theorem rejection_counted_twice (state : State) (verdict : Verdict)
    (reasons : list string) (w : World) :
  verdict_decision verdict = VStr "REJECT" →
  verdict_failure_reasons verdict = VList (map VStr reasons) →
  default 0 (retries state) + 1 < 3 →
  let feedback :=
    (match reasons with
     | [] => "REJECTED. No clear reason provided."
     | _ => "REJECTED. Reasons: " ++ PyStr.join "; " reasons
     end)
    ++ newline ++ newline ++ "--- FULL VALIDATION REPORT ---" ++ newline
    ++ verdict_detailed_report verdict in
  ∃ validated routed w',
    record_verdict verdict state = Ok validated
    ∧ retries validated = Some (default 0 (retries state) + 1)
    ∧ router validated w = (w', Ok (routed, fix_code))
    ∧ retries routed = Some (default 0 (retries state) + 2)
    ∧ test_failure_reason routed = Some feedback
    ∧ extra_note_of routed
      = newline
        ++ "NOTE FROM VALIDATION AGENT:Previous fix was rejected during automated testing.You MUST address this feedback."
        ++ newline ++ feedback ++ newline.
Proof.
  intros Hd Hr Hbelow feedback.
  assert (record_verdict verdict state
          = Ok (set_test_failure_reason feedback
                  (set_retries (default 0 (retries state) + 1)
                     (set_verdict_fields (VStr "REJECT")
                        (verdict_detailed_report verdict)
                        (verdict_recommendations verdict)
                        (VList (map VStr reasons)) state)))) as Hrec.
  { unfold record_verdict. rewrite Hd, Hr. simpl.
    destruct reasons as [|r reasons]; [done|].
    change (match map VStr (r :: reasons) with [] => false | _ => true end)
      with true.
    cbv iota. by rewrite join_strs. }
  eexists _, _, _. split; [exact Hrec|]. split; [done|].
  unfold router, decision_is. simpl.
  destruct (3 <=? default 0 (retries state) + 1) eqn:Hle.
  { apply Z.leb_le in Hle. lia. }
  unfold bind, print, modify, ret. simpl.
  split; [reflexivity|]. split_and!.
  - destruct (retries state) as [r|]; simpl; f_equal; lia.
  - done.
  - done.
Qed.
End Retry.

Lemma rejection_counted_twice_witness :
  ∃ validated routed w',
    record_verdict Sample.rejection Sample.empty_state = Ok validated
    ∧ retries validated = Some 1
    ∧ @router Sample.foo_env validated Sample.foo_world
      = (w', Ok (routed, fix_code))
    ∧ retries routed = Some 2.
Proof.
  destruct (@rejection_counted_twice Sample.foo_env Sample.empty_state
              Sample.rejection ["missing import"; "syntax error"]
              Sample.foo_world)
    as (validated & routed & w' & Hrec & Hr1 & Hroute & Hr2 & _).
  - reflexivity.
  - reflexivity.
  - simpl. lia.
  - exists validated, routed, w'. split_and!; assumption.
Defined.

(** A rejection that finds the counter at two, below the ceiling, takes it
    to three and ends in the rollback, not in another proposal. *)
Lemma rejection_at_two_rolls_back :
  ∃ validated w',
    record_verdict Sample.rejection (set_retries 2 Sample.empty_state)
    = Ok validated
    ∧ retries validated = Some 3
    ∧ @router Sample.foo_env validated Sample.foo_world = (w', Ok (validated, END))
    ∧ MaxRetriesReached ∈ output w'.
Proof.
  eexists _, _. split; [reflexivity|]. split; [reflexivity|].
  split; [reflexivity|]. simpl. apply elem_of_cons. by left.
Qed.

(** ** Oracle failures in the validation pipeline (C9) *)

Section OracleFacts.
Context `{Environment}.
Implicit Types (n k : nat) (state : SREValidationState).

Lemma attempt_run k : attempt k = (S k, attempt_result k).
Proof.
  unfold attempt, attempt_result, bind, generate, lift.
  by destruct (generate_content k).
Qed.

Lemma error_object_has_error v :
  error_object v → ∃ d, v = VDict d ∧ Dict.mem "error" d = true.
Proof. intros [message [->|[raw ->]]]; by eexists. Qed.

(** The client never raises: after its attempts it has an answer or an
    error object. *)
Lemma invoke_attempts_total (attempts : list Z) k :
  ∃ k' v, invoke_attempts attempts k = (k', Ok v).
Proof.
  revert k. induction attempts as [|a rest IH]; intros k; simpl.
  - by eexists _, _.
  - unfold try_except. rewrite attempt_run.
    destruct (attempt_result k) as [v|e]; [by eexists _, _|].
    destruct (is_rate_limit _).
    + destruct (a <? max_retries - 1); [apply IH|by eexists _, _].
    + destruct (PyStr.contains "json" _); [by eexists _, _|].
      destruct (a <? max_retries - 1); [apply IH|by eexists _, _].
Qed.

(** When every attempt fails, what is returned is an error object. *)
Lemma invoke_attempts_failing (attempts : list Z) k :
  Forall (fun a => a < 2) attempts →
  (∀ j, (k <= j < k + S (List.length attempts))%nat →
     is_ok (attempt_result j) = false) →
  ∃ k' v, invoke_attempts (attempts ++ [2]) k = (k', Ok v) ∧ error_object v.
Proof.
  intros Hsmall. revert k.
  induction Hsmall as [|a rest Ha _ IH]; intros k Hfail; simpl.
  - unfold try_except. rewrite attempt_run.
    pose proof (Hfail k ltac:(simpl; lia)) as Hk.
    destruct (attempt_result k) as [v|e]; [done|].
    destruct (is_rate_limit _); simpl.
    + eexists _, _. split; [done|]. eexists. right. by eexists.
    + destruct (PyStr.contains "json" _).
      * eexists _, _. split; [done|]. eexists. right. by eexists.
      * eexists _, _. split; [done|]. eexists. by left.
  - unfold try_except. rewrite attempt_run.
    pose proof (Hfail k ltac:(simpl; lia)) as Hk.
    destruct (attempt_result k) as [v|e]; [done|].
    assert ((a <? max_retries - 1) = true) as ->
      by (apply Z.ltb_lt; unfold max_retries; lia).
    assert (∃ k' v, invoke_attempts (rest ++ [2]) (S k) = (k', Ok v)
                    ∧ error_object v) as Hrest.
    { apply IH. intros j Hj. apply Hfail. simpl. lia. }
    destruct (is_rate_limit _); [done|].
    destruct (PyStr.contains "json" _); [|done].
    eexists _, _. split; [done|]. eexists. right. by eexists.
Qed.

Lemma invoke_failing n :
  oracle_fails n →
  ∃ n' v, invoke_with_json_response n = (n', Ok v) ∧ error_object v.
Proof.
  intros Hfail. apply (invoke_attempts_failing [0; 1] n).
  - repeat constructor; lia.
  - intros j Hj. apply Hfail. simpl in Hj. lia.
Qed.

(** A stage never raises. *)
Lemma stage_node_total (g : stage) state n :
  ∃ n' v, stage_node g state n = (n', Ok (set_stage_field g v state)).
Proof.
  unfold stage_node, try_except, bind at 1.
  destruct (invoke_attempts_total [0; 1; 2] n) as (n1 & v & Hrun).
  unfold invoke_with_json_response. rewrite Hrun.
  unfold bind. destruct (display g v n1) as [n2 [[]|e]]; by eexists _, _.
Qed.

(** When the oracle fails a stage, the field of the stage carries the key
    ["error"]. *)
Lemma stage_node_failing (g : stage) state n :
  oracle_fails n →
  ∃ n' d, stage_node g state n = (n', Ok (set_stage_field g (VDict d) state))
          ∧ Dict.mem "error" d = true.
Proof.
  intros Hfail. destruct (invoke_failing n Hfail) as (n1 & v & Hrun & Herr).
  apply error_object_has_error in Herr as (d & -> & Hd).
  unfold stage_node, try_except, bind at 1. rewrite Hrun.
  unfold bind. destruct (display g (VDict d) n1) as [n2 [[]|e]].
  - by eexists _, _.
  - by eexists _, _.
Qed.

Lemma stage_field_set (g : stage) v state :
  stage_field g (set_stage_field g v state) = Some v.
Proof. by destruct g. Qed.

Lemma summary_field_ok (field : option value) (key : string) :
  dict_or_absent field → ∃ v, summary_field field key = Ok v.
Proof.
  unfold summary_field. destruct field as [[| | | | |d]|]; try done;
    intros _; by eexists.
Qed.

(** The decision stage on an error object: the decision is the default one,
    NEEDS_REVIEW, and there are no failure reasons. *)
Lemma final_decision_on_error_object state n n' v :
  invoke_with_json_response n = (n', Ok v) →
  error_object v →
  summary_fields_ok state →
  ∃ verdict,
    final_decision_node state n = (n', Ok verdict)
    ∧ verdict_decision verdict = VStr "NEEDS_REVIEW"
    ∧ verdict_recommendations verdict = VList []
    ∧ verdict_failure_reasons verdict = VList [].
Proof.
  intros Hrun Herr (He & Hl & Hs & Hq).
  destruct (summary_field_ok _ "error_type" He) as (v1 & H1).
  destruct (summary_field_ok _ "severity" He) as (v2 & H2).
  destruct (summary_field_ok _ "logic_correctness" Hl) as (v3 & H3).
  destruct (summary_field_ok _ "risk_level" Hs) as (v4 & H4).
  destruct (summary_field_ok _ "code_style_compliance" Hq) as (v5 & H5).
  unfold final_decision_node, try_except, final_decision_body.
  unfold bind at 1. rewrite Hrun.
  destruct Herr as [message [->|[raw ->]]];
    unfold bind, lift; simpl; rewrite H1, H2, H3, H4, H5; simpl;
    by eexists.
Qed.
(** The whole validation on an oracle that fails every query: every stage
    stores an error object, and the decision is the default one. *)
Lemma validation_on_failing_oracle
    (original_code fixed_code original_error change_context : string) n :
  (∀ k, oracle_fails k) →
  ∃ n' verdict,
    validate_code_with_llm original_code fixed_code original_error
      change_context n = (n', Ok verdict)
    ∧ verdict_decision verdict = VStr "NEEDS_REVIEW"
    ∧ verdict_recommendations verdict = VList []
    ∧ verdict_failure_reasons verdict = VList [].
Proof.
  intros Hfail.
  unfold validate_code_with_llm, try_except, workflow,
    analyze_error_node, code_diff_analysis_node, logic_validation_node,
    semantic_validation_node, security_validation_node.
  set (s0 := initial_validation_state _ _ _ _).
  destruct (stage_node_failing ErrorAnalysis s0 n (Hfail n))
    as (n1 & d1 & H1 & _).
  set (s1 := set_stage_field ErrorAnalysis (VDict d1) s0) in *.
  destruct (stage_node_failing CodeDiffAnalysis s1 n1 (Hfail n1))
    as (n2 & d2 & H2 & _).
  set (s2 := set_stage_field CodeDiffAnalysis (VDict d2) s1) in *.
  destruct (stage_node_failing LogicValidation s2 n2 (Hfail n2))
    as (n3 & d3 & H3 & _).
  set (s3 := set_stage_field LogicValidation (VDict d3) s2) in *.
  destruct (stage_node_failing SemanticValidation s3 n3 (Hfail n3))
    as (n4 & d4 & H4 & _).
  set (s4 := set_stage_field SemanticValidation (VDict d4) s3) in *.
  destruct (stage_node_failing SecurityValidation s4 n4 (Hfail n4))
    as (n5 & d5 & H5 & _).
  set (s5 := set_stage_field SecurityValidation (VDict d5) s4) in *.
  destruct (invoke_failing n5 (Hfail n5)) as (n6 & v & Hrun & Herr).
  destruct (final_decision_on_error_object s5 n5 n6 v Hrun Herr)
    as (verdict & H6 & Hd & Hrec & Hreasons).
  { by repeat split. }
  unfold bind. rewrite H1, H2, H3, H4, H5, H6. unfold ret.
  eexists _, _. split; [done|]. by split_and!.
Qed.
End OracleFacts.

(** C9.  The code does not force REJECT when the oracle fails.  When the
    oracle fails the query of a stage (every attempt raises), the client
    returns an error object and raises nothing.  In the decision stage the
    decision is then the default one, NEEDS_REVIEW, with no recommendation
    and no failure reason, and on an oracle that fails every query this is
    the result of the whole validation.  In each of the five earlier stages
    the field of the stage is an object with the key ["error"].  The
    REJECT of the handler of the decision stage, with the report describing
    the failure and a single system-error reason, is what an exception
    raised in the stage gives, and the failure of the oracle does not reach
    it. *)
Theorem oracle_failure_is_absorbed `{Environment}
    (g : stage) (state : SREValidationState) (n : nat) :
  oracle_fails n →
  summary_fields_ok state →
  (∃ n' v, invoke_with_json_response n = (n', Ok v) ∧ error_object v)
  ∧ (∃ n' verdict,
       final_decision_node state n = (n', Ok verdict)
       ∧ verdict_decision verdict = VStr "NEEDS_REVIEW"
       ∧ verdict_recommendations verdict = VList []
       ∧ verdict_failure_reasons verdict = VList [])
  ∧ (∃ n' d,
       stage_node g state n = (n', Ok (set_stage_field g (VDict d) state))
       ∧ stage_field g (set_stage_field g (VDict d) state) = Some (VDict d)
       ∧ Dict.mem "error" d = true)
  ∧ (∀ m m' e,
       final_decision_body state m = (m', Raised e) →
       final_decision_node state m = (m', Ok (forced_reject e))
       ∧ verdict_decision (forced_reject e) = VStr "REJECT"
       ∧ verdict_detailed_report (forced_reject e)
         = "Decision process failed: " ++ exn_str e
       ∧ verdict_failure_reasons (forced_reject e)
         = VList [VStr ("System error: " ++ exn_str e)])
  ∧ ((∀ k, oracle_fails k) →
     ∀ original_code fixed_code original_error change_context : string,
     ∃ n' verdict,
       validate_code_with_llm original_code fixed_code original_error
         change_context n = (n', Ok verdict)
       ∧ verdict_decision verdict = VStr "NEEDS_REVIEW"
       ∧ verdict_recommendations verdict = VList []
       ∧ verdict_failure_reasons verdict = VList []).
Proof.
  intros Hfail Hfields. split_and!.
  - by apply invoke_failing.
  - destruct (invoke_failing n Hfail) as (n' & v & Hrun & Herr).
    destruct (final_decision_on_error_object state n n' v Hrun Herr Hfields)
      as (verdict & Hnode & Hd & Hrec & Hr).
    by exists n', verdict.
  - destruct (stage_node_failing g state n Hfail) as (n' & d & Hrun & Hd).
    exists n', d. split; [done|]. split; [apply stage_field_set|done].
  - intros m m' e Hbody. split; [|done].
    unfold final_decision_node, try_except. by rewrite Hbody.
  - intros Hall original_code fixed_code original_error change_context.
    by apply validation_on_failing_oracle.
Qed.

Lemma sample_oracle_fails (n : nat) : @oracle_fails Sample.foo_env n.
Proof. intros k _. reflexivity. Qed.

Lemma oracle_failure_is_absorbed_witness :
  @oracle_fails Sample.foo_env 0%nat
  ∧ (∃ n' verdict,
       @final_decision_node Sample.foo_env
         (initial_validation_state "" "" "" "") 0%nat = (n', Ok verdict)
       ∧ verdict_decision verdict = VStr "NEEDS_REVIEW"
       ∧ verdict_recommendations verdict = VList []
       ∧ verdict_failure_reasons verdict = VList [])
  ∧ (∃ n' verdict,
       @validate_code_with_llm Sample.foo_env "" "" "" "" 0%nat
       = (n', Ok verdict)
       ∧ verdict_decision verdict = VStr "NEEDS_REVIEW"
       ∧ verdict_recommendations verdict = VList []
       ∧ verdict_failure_reasons verdict = VList []).
Proof.
  split; [apply sample_oracle_fails|].
  destruct (@oracle_failure_is_absorbed Sample.foo_env ErrorAnalysis
              (initial_validation_state "" "" "" "") 0%nat)
    as (_ & Hdecision & _ & _ & Hwhole).
  - apply sample_oracle_fails.
  - repeat split.
  - split; [exact Hdecision|].
    exact (Hwhole sample_oracle_fails "" "" "" "").
Defined.

(** The forced REJECT is reached: an answer that is JSON but not an object
    makes the decision stage raise. *)
Lemma forced_reject_reached :
  let E := Sample.environment "" Sample.list_reply Sample.parse_list in
  @final_decision_node E (initial_validation_state "" "" "" "") 0%nat
  = (1%nat, Ok (forced_reject
                  (AttributeError "'list' object has no attribute 'get'"))).
Proof. reflexivity. Qed.

(** The claim C9 at a concrete input: with an oracle that is unavailable
    at every call the decision stage, and the whole pipeline, end in
    NEEDS_REVIEW with no failure reason, not in REJECT. *)
Lemma failed_decision_needs_review :
  ¬ @spec_failed_decision_rejects Sample.foo_env
      (initial_validation_state "" "" "" "") 0%nat
  ∧ ∃ verdict,
      snd (@validate_code_with_llm Sample.foo_env "" "" "" "" 0%nat) = Ok verdict
      ∧ verdict_decision verdict = VStr "NEEDS_REVIEW"
      ∧ verdict_failure_reasons verdict = VList [].
Proof.
  split.
  - intros Hspec.
    destruct (Hspec (sample_oracle_fails 0%nat))
      as (n' & verdict & message & Hrun & Hd & _).
    vm_compute in Hrun. injection Hrun as _ <-. discriminate.
  - eexists. split; [vm_compute; reflexivity|]. by split.
Qed.

(** ** Applying the same response twice (C8) *)

Section Reapply.
Context `{Environment}.
Implicit Types (sf : Registry) (A B : Store).










End Reapply.

Section Idempotence.
Context `{Environment}.
Implicit Types (sf : Registry) (A B : Store).














End Idempotence.





(** When the stamp repeats (a clock that does not advance within the
    resolution of the stamp), the second application makes no new file:
    its backup takes the name of the first and holds the fix, not the text
    the file had at the start. *)
Lemma reapplying_overwrites_backup :
  let st := {| st_index := Sample.foo_registry; st_world := Sample.foo_world |} in
  let run1 :=
    @apply_fixes_to_code Cases.frozen_env Sample.foo_patch Sample.foo_registry st in
  let run2 :=
    @apply_fixes_to_code Cases.frozen_env Sample.foo_patch Sample.foo_registry
      (fst run1) in
  let backup := @backup_path_of Cases.frozen_env "/srv/app/Foo.java" 1700000000 in
  snd run1 = Ok tt ∧ snd run2 = Ok tt
  ∧ data <$> files (st_world (fst run1)) !! backup = Some Sample.foo_old
  ∧ data <$> files (st_world (fst run2)) !! backup = Some Sample.foo_new
  ∧ size (files (st_world (fst run1))) = 2%nat
  ∧ size (files (st_world (fst run2))) = 2%nat.
Proof. intros st run1 run2 backup. split_and!; vm_compute; reflexivity. Qed.

(** * Further properties of the source *)

(** ** [fan_out]: bounds, growth and saturation *)

Section FanOutMore.
Implicit Types (R : Registry) (E F files : gset string).

Lemma fan_out_as_state files R depth :
  fan_out files R depth = fst (fan_out_state R files (Z.to_nat depth)).
Proof. done. Qed.

Lemma fan_out_state_S R files n :
  fan_out_state R files (S n) = fan_out_round R (fan_out_state R files n).
Proof. done. Qed.

Lemma mem_key_set R x : Dict.mem x R = true ↔ x ∈ key_set R.
Proof.
  unfold key_set. rewrite elem_of_list_to_set, DictFacts.mem_get. split.
  - intros [e He]. by apply DictFacts.get_Some_key in He.
  - apply DictFacts.key_get.
Qed.

Lemma round_frontier_new R E F x :
  x ∈ snd (fan_out_round R (E, F)) → x ∈ key_set R ∧ x ∉ E.
Proof.
  simpl. rewrite elem_of_next_frontier.
  intros (f & c & _ & _ & _ & Hm & HE). split; [by apply mem_key_set|done].
Qed.

Lemma round_expanded R E F :
  fst (fan_out_round R (E, F)) = E ∪ snd (fan_out_round R (E, F)).
Proof. done. Qed.

(** An empty frontier stays empty. *)
Lemma round_empty_frontier R E :
  fan_out_round R (E, ∅) = (E, ∅).
Proof.
  unfold fan_out_round. rewrite set_fold_empty. f_equal. set_solver.
Qed.

Lemma size_key_set R : (size (key_set R) <= List.length R)%nat.
Proof.
  unfold key_set, Dict.keys. induction R as [|[k e] R IH]; simpl.
  - done.
  - rewrite size_union_alt, size_singleton.
    assert (size (list_to_set (map fst R) ∖ {[k]} : gset string)
            <= size (list_to_set (map fst R) : gset string))%nat
      by (apply subseteq_size; set_solver).
    lia.
Qed.

(** X1.  The seeds are always in the fan-out, and whatever else is in it
    is a key of the registry. *)
Theorem fan_out_between (files : gset string) (R : Registry) (depth : Z) :
  files ⊆ fan_out files R depth
  ∧ fan_out files R depth ⊆ files ∪ key_set R.
Proof.
  rewrite fan_out_as_state.
  induction (Z.to_nat depth) as [|n [IHlow IHhigh]]; [set_solver|].
  rewrite fan_out_state_S.
  destruct (fan_out_state R files n) as [E F] eqn:Hst.
  rewrite round_expanded. simpl in IHlow, IHhigh. split.
  - set_solver.
  - intros x Hx. apply elem_of_union in Hx as [Hx|Hx]; [by apply IHhigh|].
    apply round_frontier_new in Hx as [Hx _]. set_solver.
Qed.

Lemma fan_out_state_grows R files n :
  fst (fan_out_state R files n) ⊆ fst (fan_out_state R files (S n)).
Proof.
  rewrite fan_out_state_S. destruct (fan_out_state R files n) as [E F].
  rewrite round_expanded. set_solver.
Qed.

(** X2.  A greater depth selects at least the same files. *)
Theorem fan_out_monotone (files : gset string) (R : Registry) (d d' : Z) :
  d <= d' → fan_out files R d ⊆ fan_out files R d'.
Proof.
  intros Hle. rewrite !fan_out_as_state.
  assert (Z.to_nat d <= Z.to_nat d')%nat as Hnat by lia.
  induction Hnat as [|m Hm IH]; [done|].
  etrans; [exact IH|]. apply fan_out_state_grows.
Qed.

Lemma fan_out_monotone_witness :
  fan_out {["A.java"]} Sample.chain 1 ⊆ fan_out {["A.java"]} Sample.chain 2.
Proof. apply fan_out_monotone. lia. Defined.

Lemma size_nonempty (X : gset string) : X ≠ ∅ → size X ≠ 0%nat.
Proof.
  intros Hne Hz. apply size_empty_iff in Hz. apply Hne.
  by apply leibniz_equiv.
Qed.

(** The shape of one turn: the new frontier is made of keys of the
    registry that were not reached, and is empty when the frontier was. *)
Lemma round_shape R E F :
  ∃ F', fan_out_round R (E, F) = (E ∪ F', F')
        ∧ F' ⊆ key_set R ∧ F' ## E ∧ (F = ∅ → F' = ∅).
Proof.
  exists (snd (fan_out_round R (E, F))). split_and!.
  - done.
  - intros x Hx. by apply round_frontier_new in Hx as [? _].
  - intros x Hx HE. by apply round_frontier_new in Hx as [_ ?].
  - intros ->. by rewrite round_empty_frontier.
Qed.

(** From the first turn on, a frontier that is not empty after [n] turns
    means at least [n] keys of the registry were reached. *)
Lemma frontier_counts R files n :
  snd (fan_out_state R files (S n))
    ⊆ fst (fan_out_state R files (S n)) ∩ key_set R
  ∧ (snd (fan_out_state R files (S n)) ≠ ∅ →
     (S n <= size (fst (fan_out_state R files (S n)) ∩ key_set R))%nat).
Proof.
  induction n as [|n [Hsub Hcount]].
  - change (fan_out_state R files 1) with (fan_out_round R (files, files)).
    destruct (round_shape R files files) as (F & -> & HF & _ & _). simpl.
    split; [set_solver|]. intros Hne.
    assert (size F <= size ((files ∪ F) ∩ key_set R))%nat
      by (apply subseteq_size; set_solver).
    assert (size F ≠ 0%nat) by (by apply size_nonempty).
    lia.
  - rewrite (fan_out_state_S R files (S n)).
    destruct (fan_out_state R files (S n)) as [E F]. simpl in Hsub, Hcount.
    destruct (round_shape R E F) as (F' & -> & HF' & Hdisj & Hdry). simpl.
    split; [set_solver|]. intros Hne.
    assert (F ≠ ∅) as HFne by (intros HF; by apply Hne, Hdry).
    specialize (Hcount HFne).
    assert ((E ∪ F') ∩ key_set R = (E ∩ key_set R) ∪ F') as -> by set_solver.
    rewrite size_union by set_solver.
    assert (size F' ≠ 0%nat) by (by apply size_nonempty).
    lia.
Qed.

Lemma frontier_runs_dry R files n :
  (List.length R <= n)%nat → snd (fan_out_state R files (S n)) = ∅.
Proof.
  intros Hn. destruct (frontier_counts R files n) as [_ Hc].
  destruct (decide (snd (fan_out_state R files (S n)) = ∅)) as [|Hne]; [done|].
  specialize (Hc Hne).
  assert (size (fst (fan_out_state R files (S n)) ∩ key_set R)
          <= size (key_set R))%nat
    by (apply subseteq_size; set_solver).
  pose proof (size_key_set R). lia.
Qed.

Lemma fan_out_state_stable R files n m :
  (List.length R <= n)%nat →
  fst (fan_out_state R files (n + m)) = fst (fan_out_state R files n).
Proof.
  intros Hn. induction m as [|m IH]; [by rewrite Nat.add_0_r|].
  rewrite Nat.add_succ_r.
  pose proof (frontier_runs_dry R files (n + m) ltac:(lia)) as Hdry.
  rewrite fan_out_state_S in Hdry |- *.
  destruct (fan_out_state R files (n + m)) as [E F]. simpl in IH.
  destruct (round_shape R E F) as (F' & Hr & _). rewrite Hr in Hdry |- *.
  simpl in Hdry |- *. rewrite Hdry, <- IH. set_solver.
Qed.

(** X3.  The fan-out is complete at the depth of the number of files in
    the registry: a greater depth selects the same files, cycles or not. *)
Theorem fan_out_saturates (files : gset string) (R : Registry) (depth : Z) :
  Z.of_nat (List.length R) <= depth →
  fan_out files R depth = fan_out files R (Z.of_nat (List.length R)).
Proof.
  intros Hd. rewrite !fan_out_as_state, Nat2Z.id.
  replace (Z.to_nat depth)
    with (List.length R + (Z.to_nat depth - List.length R))%nat by lia.
  by apply fan_out_state_stable.
Qed.

Lemma fan_out_saturates_witness :
  fan_out {["A.java"]} Sample.chain 7 = fan_out {["A.java"]} Sample.chain 3.
Proof. apply (fan_out_saturates {["A.java"]} Sample.chain 7). simpl. lia. Defined.
End FanOutMore.

(** ** [get_relevant_files]: what is selected *)

Section RelevantMore.
Implicit Types (R : Registry).

Lemma get_selected R (names : list string) (name : string) :
  NoDup names →
  Dict.get name
    (omap (fun n => match Dict.get n R with
                    | Some e => Some (n, e)
                    | None => None
                    end) names)
  = if bool_decide (name ∈ names) then Dict.get name R else None.
Proof.
  induction 1 as [|n names Hn Hnd IH]; simpl; [done|].
  destruct (decide (name = n)) as [->|Hne].
  - rewrite bool_decide_true by left.
    destruct (Dict.get n R) as [e|] eqn:Hg; simpl.
    + by rewrite String.eqb_refl.
    + rewrite bool_decide_false in IH by done. exact IH.
  - assert (bool_decide (name ∈ n :: names) = bool_decide (name ∈ names)) as ->.
    { apply bool_decide_ext. rewrite elem_of_cons. naive_solver. }
    destruct (Dict.get n R) as [e|]; simpl; [|exact IH].
    rewrite (proj2 (String.eqb_neq _ _) Hne). exact IH.
Qed.

(** X4.  A look-up in the selection is the look-up in the registry for the
    names the fan-out of the seeds reaches (for every name when there is no
    seed), and finds nothing for the other names. *)
Theorem get_relevant_files_lookup
    (error_text : string) (R : Registry) (depth : Z) (name : string) :
  let seeds := extract_filenames_from_error error_text in
  Dict.get name (get_relevant_files error_text R depth)
  = if bool_decide (seeds = ∅ ∨ name ∈ fan_out seeds R depth)
    then Dict.get name R else None.
Proof.
  intros seeds. unfold get_relevant_files. fold seeds.
  case_bool_decide as Hseeds.
  - rewrite bool_decide_true by (by left). done.
  - rewrite get_selected by apply NoDup_elements.
    apply (f_equal (fun b : bool => if b then Dict.get name R else None)).
    apply bool_decide_ext. rewrite elem_of_elements. naive_solver.
Qed.

Lemma round_foreign R (E F : gset string) :
  (∀ s, s ∈ F → Dict.mem s R = false) → fan_out_round R (E, F) = (E, ∅).
Proof.
  intros Hout. unfold fan_out_round.
  assert (set_fold (visit_file R E) (∅ : gset string) F = ∅) as ->.
  { apply set_eq. intros x. rewrite elem_of_next_frontier. split; [|set_solver].
    intros (f & c & Hf & Hc & _). unfold symbols_of in Hc.
    specialize (Hout f Hf). unfold Dict.mem in Hout.
    destruct (Dict.get f R); [done|]. by apply elem_of_nil in Hc. }
  f_equal. set_solver.
Qed.

Lemma fan_out_foreign R (files : gset string) (depth : Z) :
  (∀ s, s ∈ files → Dict.mem s R = false) → fan_out files R depth = files.
Proof.
  intros Hout. rewrite fan_out_as_state.
  destruct (Z.to_nat depth) as [|n]; [done|].
  assert (fan_out_state R files (S n) = (files, ∅)) as ->; [|done].
  induction n as [|n IH].
  - by apply round_foreign.
  - rewrite fan_out_state_S, IH. apply round_empty_frontier.
Qed.

(** X5.  When file names are extracted from the error text and none of
    them is a key of the registry, nothing at all is selected, whatever the
    depth: the fail-open rule applies to an empty seed set only. *)
Theorem get_relevant_files_foreign_seeds
    (error_text : string) (R : Registry) (depth : Z) :
  extract_filenames_from_error error_text ≠ ∅ →
  (∀ s, s ∈ extract_filenames_from_error error_text → Dict.mem s R = false) →
  get_relevant_files error_text R depth = [].
Proof.
  intros Hseeds Hout. unfold get_relevant_files.
  rewrite bool_decide_false by done. rewrite fan_out_foreign by done.
  assert (∀ names : list string,
            (∀ s, s ∈ names → Dict.mem s R = false) →
            omap (fun n => match Dict.get n R with
                           | Some e => Some (n, e)
                           | None => None
                           end) names = []) as Hnone.
  { induction names as [|n names IH]; intros Hn; simpl; [done|].
    pose proof (Hn n ltac:(left)) as Hm. unfold Dict.mem in Hm.
    destruct (Dict.get n R); [done|]. apply IH. intros s Hs. apply Hn. by right. }
  apply Hnone. intros s Hs. apply Hout. by apply elem_of_elements.
Qed.

Lemma get_relevant_files_foreign_seeds_witness :
  get_relevant_files Sample.foreign_trace Sample.chain 2 = [].
Proof.
  assert (extract_filenames_from_error Sample.foreign_trace = {["Pool.java"]})
    as Hseeds by (vm_compute; reflexivity).
  apply get_relevant_files_foreign_seeds.
  - rewrite Hseeds. intros Hempty.
    assert ("Pool.java" ∈ (∅ : gset string)) as Hin
      by (rewrite <- Hempty; by apply elem_of_singleton).
    by apply not_elem_of_empty in Hin.
  - rewrite Hseeds. intros s Hs. apply elem_of_singleton in Hs. by subst s.
Defined.
End RelevantMore.

(** ** Dictionaries with distinct keys *)

Module DictMore.
Section DictMore.
Context {V : Type}.
Implicit Types (d : Dict.t V) (k : string) (v : V).

Lemma get_None_key d k : Dict.get k d = None ↔ k ∉ Dict.keys d.
Proof.
  split.
  - intros Hg Hin. apply DictFacts.key_get in Hin as [v Hv]. congruence.
  - intros Hout. destruct (Dict.get k d) as [v|] eqn:Hg; [|done].
    by apply DictFacts.get_Some_key in Hg.
Qed.

Lemma elem_get d k v :
  NoDup (Dict.keys d) → (k, v) ∈ d → Dict.get k d = Some v.
Proof.
  unfold Dict.keys. induction d as [|[k' v'] d IH]; simpl; intros Hnd Hin.
  - by apply elem_of_nil in Hin.
  - apply NoDup_cons in Hnd as [Hk' Hnd].
    apply elem_of_cons in Hin as [[= -> ->]|Hin].
    + by rewrite String.eqb_refl.
    + destruct (String.eqb k k') eqn:E; [|by apply IH].
      apply String.eqb_eq in E. subst k'. destruct Hk'.
      apply list_elem_of_In, in_map_iff. exists (k, v).
      split; [done|]. by apply list_elem_of_In.
Qed.

Lemma keys_set_absent d k v :
  Dict.get k d = None → Dict.keys (Dict.set k v d) = (Dict.keys d ++ [k])%list.
Proof.
  unfold Dict.keys. induction d as [|[k' v'] d IH]; simpl; [done|].
  destruct (String.eqb k k'); [done|]. intros Hg. simpl. by rewrite IH.
Qed.

Lemma nodup_set d k v : NoDup (Dict.keys d) → NoDup (Dict.keys (Dict.set k v d)).
Proof.
  intros Hnd. destruct (Dict.get k d) as [v0|] eqn:Hg.
  - rewrite DictFacts.keys_set_present; [done|].
    apply DictFacts.mem_get. by eexists.
  - rewrite keys_set_absent by done. apply NoDup_app. split_and!; [done| |].
    + intros x Hx Hk. apply elem_of_cons in Hk as [->|Hk];
        [|by apply elem_of_nil in Hk].
      by apply get_None_key in Hg.
    + apply NoDup_singleton.
Qed.

Lemma keys_del_sub d k x : x ∈ Dict.keys (Dict.del k d) → x ∈ Dict.keys d.
Proof.
  unfold Dict.keys. induction d as [|[k' v'] d IH]; simpl; [done|].
  destruct (String.eqb k k'); simpl.
  - intros Hx. by right.
  - intros Hx. apply elem_of_cons in Hx as [->|Hx]; [left|right; by apply IH].
Qed.

Lemma nodup_del d k : NoDup (Dict.keys d) → NoDup (Dict.keys (Dict.del k d)).
Proof.
  unfold Dict.keys. induction d as [|[k' v'] d IH]; simpl; [done|].
  intros Hnd. apply NoDup_cons in Hnd as [Hk' Hnd].
  destruct (String.eqb k k'); simpl; [done|].
  apply NoDup_cons. split; [|by apply IH].
  intros Hin. apply Hk'. by apply (keys_del_sub d k).
Qed.

Lemma get_del_eq d k : NoDup (Dict.keys d) → Dict.get k (Dict.del k d) = None.
Proof.
  unfold Dict.keys. induction d as [|[k' v'] d IH]; simpl; [done|].
  intros Hnd. apply NoDup_cons in Hnd as [Hk' Hnd].
  destruct (String.eqb k k') eqn:E; simpl.
  - apply String.eqb_eq in E. subst k'. by apply get_None_key.
  - rewrite E. by apply IH.
Qed.

Lemma get_del_ne d k k' : k ≠ k' → Dict.get k' (Dict.del k d) = Dict.get k' d.
Proof.
  intros Hne. induction d as [|[k0 v0] d IH]; simpl; [done|].
  destruct (String.eqb k k0) eqn:E; simpl.
  - apply String.eqb_eq in E. subst k0.
    by rewrite (proj2 (String.eqb_neq k' k)) by done.
  - by rewrite IH.
Qed.
End DictMore.
End DictMore.

(** ** [build_file_entry], [build_file_index] and [refresh_file_index] *)

Section RegistryMore.
Context `{Environment}.
Implicit Types (R idx : Registry) (w : World).

Lemma build_file_entry_found file_path f w :
  files w !! file_path = Some f →
  build_file_entry file_path w = (w, Ok (entry_of file_path f)).
Proof.
  intros Hf. unfold build_file_entry, bind, read_text, getmtime, ret.
  rewrite Hf. simpl. by rewrite Hf.
Qed.

Lemma build_file_entry_missing file_path w :
  files w !! file_path = None →
  build_file_entry file_path w = (w, Raised (FileNotFoundError file_path)).
Proof.
  intros Hf. unfold build_file_entry, bind, read_text. by rewrite Hf.
Qed.

(** One turn of the refresh: the world is not changed, nothing is raised,
    and the key of the turn is the only one whose look-up can change. *)
Lemma refresh_entry_get idx filename info w :
  NoDup (Dict.keys idx) →
  Dict.get filename idx = Some info →
  ∃ idx',
    refresh_entry filename info idx w = (w, Ok idx')
    ∧ NoDup (Dict.keys idx')
    ∧ Dict.get filename idx' = refreshed w info
    ∧ (∀ k, k ≠ filename → Dict.get k idx' = Dict.get k idx).
Proof.
  intros Hnd Hg. unfold refresh_entry, refreshed, bind, path_exists, gets,
    getmtime, read_text, ret.
  destruct (files w !! path info) as [f|] eqn:Hf; simpl.
  - rewrite Hf. simpl. destruct (Z.eqb (mtime f) (last_modified info)); simpl.
    + by exists idx.
    + rewrite Hf. simpl.
      destruct (String.eqb (md5 (data f)) (checksum info)); simpl.
      * by exists idx.
      * rewrite (build_file_entry_found _ f) by done.
        eexists. split; [done|]. split_and!.
        -- by apply DictMore.nodup_set.
        -- by rewrite DictFacts.get_set_eq.
        -- intros k Hk. by rewrite DictFacts.get_set_ne.
  - eexists. split; [done|]. split_and!.
    + by apply DictMore.nodup_del.
    + by apply DictMore.get_del_eq.
    + intros k Hk. by apply DictMore.get_del_ne.
Qed.

Lemma refresh_items_get (items : list (string * FileEntry)) idx w :
  NoDup (Dict.keys items) →
  NoDup (Dict.keys idx) →
  (∀ k e, (k, e) ∈ items → Dict.get k idx = Some e) →
  ∃ idx',
    refresh_items items idx w = (w, Ok idx')
    ∧ ∀ k, Dict.get k idx'
           = match Dict.get k items with
             | Some e => refreshed w e
             | None => Dict.get k idx
             end.
Proof.
  revert idx. induction items as [|[k0 e0] items IH]; intros idx Hni Hnd Hin.
  - by exists idx.
  - simpl in Hni. apply NoDup_cons in Hni as [Hk0 Hni].
    destruct (refresh_entry_get idx k0 e0 w Hnd (Hin k0 e0 ltac:(left)))
      as (idx1 & Hrun1 & Hnd1 & Hg1 & Hother).
    assert (∀ k e, (k, e) ∈ items → k ≠ k0) as Hfresh.
    { intros k e Hke ->. apply Hk0.
      apply list_elem_of_In, in_map_iff. exists (k0, e).
      split; [done|]. by apply list_elem_of_In. }
    destruct (IH idx1 Hni Hnd1) as (idx' & Hrun & Hget).
    { intros k e Hke. rewrite Hother by (by eapply Hfresh).
      apply Hin. by right. }
    exists idx'. simpl. unfold bind. rewrite Hrun1. split; [done|].
    intros k. rewrite Hget. simpl. destruct (String.eqb k k0) eqn:E.
    + apply String.eqb_eq in E. subst k.
      assert (Dict.get k0 items = None) as -> by (by apply DictMore.get_None_key).
      done.
    + apply String.eqb_neq in E.
      destruct (Dict.get k items); [done|]. by apply Hother.
Qed.

Lemma refresh_items_lookup (R : Registry) (w : World) :
  NoDup (Dict.keys R) →
  ∃ R',
    refresh_file_index R w = (w, Ok R')
    ∧ ∀ k, Dict.get k R' = Dict.get k R ≫= refreshed w.
Proof.
  intros Hnd. unfold refresh_file_index.
  destruct (refresh_items_get R R w Hnd Hnd) as (R' & Hrun & Hget).
  { intros k e. by apply DictMore.elem_get. }
  exists R'. split; [done|]. intros k. rewrite Hget.
  by destruct (Dict.get k R).
Qed.


Lemma refresh_items_in_sync (items : list (string * FileEntry)) idx w :
  (∀ k e, (k, e) ∈ items → in_sync w e) →
  refresh_items items idx w = (w, Ok idx).
Proof.
  revert idx. induction items as [|[k0 e0] items IH]; intros idx Hsync; [done|].
  simpl. unfold bind.
  assert (refresh_entry k0 e0 idx w = (w, Ok idx)) as ->.
  { pose proof (Hsync k0 e0 ltac:(left)) as H0.
    unfold in_sync, refreshed in H0.
    unfold refresh_entry, bind, path_exists, gets, getmtime, read_text, ret.
    destruct (files w !! path e0) as [f|] eqn:Hf; [|done]. simpl.
    rewrite Hf. simpl. destruct (Z.eqb (mtime f) (last_modified e0)); [done|].
    simpl. rewrite Hf. simpl.
    destruct (String.eqb (md5 (data f)) (checksum e0)) eqn:Hsum; [done|].
    simpl. injection H0 as H0. exfalso.
    rewrite <- H0 in Hsum. simpl in Hsum. by rewrite String.eqb_refl in Hsum. }
  apply IH. intros k e Hke. apply (Hsync k e). by right.
Qed.


End RegistryMore.



Section BuildMore.
Import PyStr.
Context `{Environment}.
Implicit Types (R idx acc : Registry) (w : World).

Lemma in_sync_entry_of file_path f w :
  files w !! file_path = Some f → in_sync w (entry_of file_path f).
Proof.
  intros Hf. unfold in_sync, refreshed. simpl. rewrite Hf.
  by rewrite Z.eqb_refl.
Qed.

Lemma find_append {X : Type} (p : X → bool) (l1 l2 : list X) :
  List.find p (l1 ++ l2)
  = match List.find p l1 with
    | Some x => Some x
    | None => List.find p l2
    end.
Proof.
  induction l1 as [|x l1 IH]; simpl; [done|]. by destruct (p x).
Qed.

Lemma last_named_cons k fp fps :
  last_named k (fp :: fps)
  = match last_named k fps with
    | Some p => Some p
    | None => if String.eqb (basename fp) k then Some fp else None
    end.
Proof.
  unfold last_named. simpl. rewrite find_append.
  destruct (List.find _ (rev fps)); [done|]. simpl.
  by destruct (String.eqb (basename fp) k).
Qed.

Lemma last_named_found k fps p :
  last_named k fps = Some p → p ∈ fps ∧ basename p = k.
Proof.
  unfold last_named. intros Hfind. apply find_some in Hfind as [Hin Hk].
  split; [|by apply String.eqb_eq].
  apply list_elem_of_In. by apply in_rev.
Qed.

Lemma build_entries_lookup (fps : list string) acc w :
  (∀ fp, fp ∈ fps → is_Some (files w !! fp)) →
  NoDup (Dict.keys acc) →
  ∃ R,
    build_entries fps acc w = (w, Ok R)
    ∧ NoDup (Dict.keys R)
    ∧ ∀ k, Dict.get k R
           = match last_named k fps with
             | Some p => entry_of p <$> files w !! p
             | None => Dict.get k acc
             end.
Proof.
  revert acc. induction fps as [|fp fps IH]; intros acc Hall Hnd.
  - by exists acc.
  - destruct (Hall fp ltac:(left)) as [f Hf].
    destruct (IH (Dict.set (basename fp) (entry_of fp f) acc)) as (R & Hrun & HR & Hget).
    { intros p Hp. apply Hall. by right. }
    { by apply DictMore.nodup_set. }
    exists R. simpl. unfold bind. rewrite (build_file_entry_found fp f w Hf).
    split; [done|]. split; [done|]. intros k. rewrite Hget, last_named_cons.
    destruct (last_named k fps); [done|].
    destruct (String.eqb (basename fp) k) eqn:E.
    + apply String.eqb_eq in E. subst k.
      by rewrite DictFacts.get_set_eq, Hf.
    + apply String.eqb_neq in E. by rewrite DictFacts.get_set_ne.
Qed.

Lemma listed_java_files project_dir w p :
  p ∈ snd_ok (find_all_java_files project_dir w) ↔
  is_Some (files w !! p)
  ∧ below project_dir p = true
  ∧ endswith ".java" (basename p) = true.
Proof.
  unfold find_all_java_files, gets, snd_ok. simpl.
  rewrite list_elem_of_filter, list_elem_of_fmap. split.
  - intros [Hp ([q f] & -> & Hq)]. simpl in *.
    apply elem_of_map_to_list in Hq.
    apply andb_prop_elim in Hp as [H1 H2].
    split_and!; [by eexists| by apply Is_true_eq_true..].
  - intros ([f Hf] & H1 & H2). split.
    + rewrite H1, H2. done.
    + exists (p, f). split; [done|]. by apply elem_of_map_to_list.
Qed.

Lemma build_file_index_facts (project_dir : string) (w : World) :
  ∃ R,
    build_file_index project_dir w = (w, Ok R)
    ∧ NoDup (Dict.keys R)
    ∧ (∀ k e, Dict.get k R = Some e →
         ∃ f, files w !! path e = Some f
              ∧ e = entry_of (path e) f
              ∧ content e = data f
              ∧ checksum e = md5 (data f)
              ∧ last_modified e = mtime f
              ∧ basename (path e) = k
              ∧ endswith ".java" k = true
              ∧ below project_dir (path e) = true
              ∧ in_sync w e)
    ∧ (∀ p, is_Some (files w !! p) →
         below project_dir p = true →
         endswith ".java" (basename p) = true →
         is_Some (Dict.get (basename p) R)).
Proof.
  unfold build_file_index, bind.
  pose proof (listed_java_files project_dir w) as Hlisted.
  unfold snd_ok in Hlisted.
  destruct (find_all_java_files project_dir w) as [w0 [fps|ex]] eqn:Hfind;
    [|by unfold find_all_java_files, gets in Hfind].
  assert (w0 = w) as -> by (unfold find_all_java_files, gets in Hfind; congruence).
  simpl in Hlisted.
  destruct (build_entries_lookup fps [] w) as (R & Hrun & Hnd & Hget).
  { intros fp Hfp. by apply Hlisted in Hfp as [? _]. }
  { apply NoDup_nil_2. }
  exists R. split; [done|]. split; [done|]. split.
  - intros k e Hk. rewrite Hget in Hk.
    destruct (last_named k fps) as [p|] eqn:Hlast; [|done].
    apply last_named_found in Hlast as [Hp Hbase].
    apply Hlisted in Hp as ([f Hf] & Hdir & Hjava).
    rewrite Hf in Hk. injection Hk as <-. simpl.
    exists f. split_and!; try done.
    + by rewrite <- Hbase.
    + by apply in_sync_entry_of.
  - intros p Hp Hdir Hjava.
    assert (p ∈ fps) as Hin by (by apply Hlisted).
    rewrite Hget.
    destruct (last_named (basename p) fps) as [q|] eqn:Hlast.
    + apply last_named_found in Hlast as [Hq _].
      apply Hlisted in Hq as ([f Hf] & _). rewrite Hf. by eexists.
    + exfalso. unfold last_named in Hlast.
      assert (String.eqb (basename p) (basename p) = false) as Hne.
      { apply (find_none _ _ Hlast p).
        apply in_rev. rewrite rev_involutive. by apply list_elem_of_In. }
      by rewrite String.eqb_refl in Hne.
Qed.


(** The walk at roots written with or without a final slash, at the root
    of the file system, at the empty path and at a path that is a prefix
    of a directory name without being one. *)
Lemma build_file_index_roots :
  let keys_at dir :=
    Dict.keys (snd_ok (@build_file_index Sample.foo_env dir Sample.foo_world)) in
  keys_at "/srv/app" = ["Foo.java"]
  ∧ keys_at "/srv/app/" = ["Foo.java"]
  ∧ keys_at "/" = ["Foo.java"]
  ∧ keys_at "" = []
  ∧ keys_at "/srv/ap" = [].
Proof. intros keys_at. split_and!; vm_compute; reflexivity. Qed.

(** Names with leading dots have no extension to drop. *)
Lemma splitext_stem_samples :
  PyStr.splitext_stem "Foo.java" = "Foo"
  ∧ PyStr.splitext_stem "Foo.tar.gz" = "Foo.tar"
  ∧ PyStr.splitext_stem ".java" = ".java"
  ∧ PyStr.splitext_stem "..java" = "..java"
  ∧ PyStr.splitext_stem ".a.java" = ".a"
  ∧ PyStr.splitext_stem "Foo" = "Foo".
Proof. split_and!; reflexivity. Qed.

(** X9.  A registry just built is up to date: refreshing it on the same
    disk returns it as it is. *)
Theorem refresh_after_build (project_dir : string) (w w' : World) (R : Registry) :
  build_file_index project_dir w = (w', Ok R) →
  refresh_file_index R w' = (w', Ok R).
Proof.
  intros Hbuild.
  destruct (build_file_index_facts project_dir w) as (R0 & Hrun & Hnd & Hsound & _).
  assert (w' = w ∧ R0 = R) as [-> ->] by (split; congruence).
  apply refresh_items_in_sync. intros k e Hin.
  apply DictMore.elem_get in Hin; [|done].
  by destruct (Hsound k e Hin) as (f & _ & _ & _ & _ & _ & _ & _ & _ & Hsync).
Qed.
End BuildMore.

Lemma refresh_after_build_witness :
  @build_file_index Sample.foo_env "/srv/app" Sample.foo_world
  = (Sample.foo_world, Ok Sample.foo_registry)
  ∧ @refresh_file_index Sample.foo_env Sample.foo_registry Sample.foo_world
    = (Sample.foo_world, Ok Sample.foo_registry).
Proof.
  assert (@build_file_index Sample.foo_env "/srv/app" Sample.foo_world
          = (Sample.foo_world, Ok Sample.foo_registry)) as Hbuild
    by (vm_compute; reflexivity).
  split; [exact Hbuild|].
  exact (@refresh_after_build Sample.foo_env _ _ _ _ Hbuild).
Defined.

(** ** A refresh after a fix *)

Section RefreshAfterFix.
Context `{Environment}.
Implicit Types (sf idx : Registry) (st : Store).

Lemma elem_set (idx : Registry) k v k' e' :
  NoDup (Dict.keys idx) →
  (k', e') ∈ Dict.set k v idx →
  (k' = k ∧ e' = v) ∨ (k' ≠ k ∧ (k', e') ∈ idx).
Proof.
  unfold Dict.keys. induction idx as [|[k0 v0] idx IH]; simpl; intros Hnd.
  - intros Hin. apply elem_of_cons in Hin as [[= -> ->]|Hin]; [by left|].
    by apply elem_of_nil in Hin.
  - apply NoDup_cons in Hnd as [Hk0 Hnd].
    destruct (String.eqb k k0) eqn:E.
    + apply String.eqb_eq in E. subst k0.
      intros Hin. apply elem_of_cons in Hin as [[= -> ->]|Hin]; [by left|].
      right. split; [|by right]. intros ->. apply Hk0.
      apply list_elem_of_In, in_map_iff. exists (k, e').
      split; [done|]. by apply list_elem_of_In.
    + apply String.eqb_neq in E.
      intros Hin. apply elem_of_cons in Hin as [[= -> ->]|Hin].
      * right. split; [done|left].
      * destruct (IH Hnd Hin) as [?|[? ?]]; [by left|].
        right. split; [done|by right].
Qed.

Lemma in_sync_same_file w w' (e : FileEntry) :
  files w' !! path e = files w !! path e → in_sync w e → in_sync w' e.
Proof. unfold in_sync, refreshed. by intros ->. Qed.

(** X10.  After a fix is written, a refresh of the registry changes
    nothing: the patched entry carries the modification time and the
    checksum of the file just written, so it is taken to be up to date and
    is not rebuilt, and its class, imports and calls stay those of the
    content before the fix.  The registry is taken to be up to date before
    the fix, with distinct keys and distinct paths none of which is the
    name of the backup, and the entry of the working set to be the one of
    the registry. *)
Theorem refresh_after_fix sf (k code : string) (e : FileEntry) st st' :
  write_fix sf k code st = (st', Ok tt) →
  Dict.get k sf = Some e →
  Dict.get k (st_index st) = Some e →
  NoDup (Dict.keys (st_index st)) →
  (∀ k' e', (k', e') ∈ st_index st → in_sync (st_world st) e') →
  (∀ k' e', (k', e') ∈ st_index st → path e' = path e → k' = k) →
  (∀ k' e', (k', e') ∈ st_index st →
     path e' ≠ backup_path_of (path e) (clock (ticks (st_world st)))) →
  refresh_file_index (st_index st') (st_world st')
  = (st_world st', Ok (st_index st'))
  ∧ ∃ patched,
      Dict.get k (st_index st') = Some patched
      ∧ content patched = code
      ∧ checksum patched = md5 code
      ∧ static patched = static e.
Proof.
  intros Hrun Hsf Hidx Hnd Hsync Hpaths Hbackup.
  apply write_fix_ok_inv in Hrun
    as (e0 & f & old & Hsf0 & Hf & _ & _ & Hold & ->).
  assert (e0 = e) as -> by congruence.
  assert (old = e) as -> by congruence.
  split.
  - apply refresh_items_in_sync. intros k' e' Hin.
    unfold fix_written in Hin |- *. simpl in Hin |- *.
    apply elem_set in Hin as [[-> ->]|[Hne Hin]]; [| |exact Hnd].
    + unfold in_sync, refreshed. simpl. rewrite lookup_insert_eq. simpl.
      by rewrite Z.eqb_refl.
    + apply (in_sync_same_file (st_world st)); [|by apply (Hsync k')].
      simpl. rewrite lookup_insert_ne by (intros Heq; apply Hne;
        by apply (Hpaths k' e' Hin)).
      rewrite lookup_insert_ne; [done|].
      apply not_eq_sym. by apply (Hbackup k' e').
  - eexists. split; [apply fix_written_entry|]. by split_and!.
Qed.
End RefreshAfterFix.

Lemma refresh_after_fix_witness :
  let st' :=
    fst (@write_fix Sample.foo_env Sample.foo_registry "Foo.java" Sample.foo_new
           Cases.foo_store) in
  @refresh_file_index Sample.foo_env (st_index st') (st_world st')
  = (st_world st', Ok (st_index st'))
  ∧ imports <$> Dict.get "Foo.java" (st_index st') = Some ["B"].
Proof.
  intros st'.
  destruct (@refresh_after_fix Sample.foo_env Sample.foo_registry "Foo.java"
              Sample.foo_new Cases.foo_entry Cases.foo_store st')
    as [Hrefresh (patched & Hget & _ & _ & Hstatic)].
  - vm_compute. reflexivity.
  - reflexivity.
  - reflexivity.
  - apply NoDup_singleton.
  - intros k e Hin. apply elem_of_cons in Hin as [Hin|Hin].
    + injection Hin as -> ->. reflexivity.
    + by apply elem_of_nil in Hin.
  - intros k e Hin _. apply elem_of_cons in Hin as [Hin|Hin].
    + by injection Hin as -> ->.
    + by apply elem_of_nil in Hin.
  - intros k e Hin. apply elem_of_cons in Hin as [Hin|Hin].
    + injection Hin as -> ->. apply not_eq_sym.
      apply (@backup_path_other Sample.foo_env).
    + by apply elem_of_nil in Hin.
  - split; [exact Hrefresh|]. rewrite Hget. simpl. f_equal.
    by injection Hstatic as _ _ -> _.
Defined.

(** ** Backups that share a stamp, and fixes that fail half-way *)

Section BackupMore.
Context `{Environment}.
Implicit Types (sf : Registry) (st : Store).

(** X11.  The stamp of a backup has the resolution of [strftime]: when
    the same file is fixed twice and the two backups get the same stamp, the
    second backup takes the place of the first, and what is kept under that
    name is the first fix, not the content the file had before it. *)
Theorem second_backup_replaces_first sf (k code1 code2 : string)
    (e : FileEntry) (f : File) st st1 st2 :
  Dict.get k sf = Some e →
  files (st_world st) !! path e = Some f →
  write_fix sf k code1 st = (st1, Ok tt) →
  write_fix sf k code2 st1 = (st2, Ok tt) →
  strftime (clock (ticks (st_world st)))
  = strftime (clock (S (S (ticks (st_world st))))) →
  let backup := backup_path_of (path e) (clock (ticks (st_world st))) in
  files (st_world st1) !! backup = Some f
  ∧ data <$> files (st_world st2) !! backup = Some code1
  ∧ data <$> files (st_world st2) !! path e = Some code2
  ∧ (∀ p, is_Some (files (st_world st2) !! p) →
       is_Some (files (st_world st) !! p) ∨ p = backup).
Proof.
  intros Hsf Hf Hrun1 Hrun2 Hstamp backup.
  apply write_fix_ok_inv in Hrun1
    as (e1 & f1 & old1 & Hsf1 & Hf1 & _ & _ & Hold1 & ->).
  assert (e1 = e) as -> by congruence.
  assert (f1 = f) as -> by congruence.
  apply write_fix_ok_inv in Hrun2
    as (e2 & f2 & old2 & Hsf2 & Hf2 & _ & _ & Hold2 & ->).
  assert (e2 = e) as -> by congruence.
  unfold fix_written in Hf2. simpl in Hf2. rewrite lookup_insert_eq in Hf2.
  injection Hf2 as <-.
  assert (backup_path_of (path e) (clock (S (S (ticks (st_world st))))) = backup)
    as Hsame by (unfold backup, backup_path_of; by rewrite Hstamp).
  assert (backup ≠ path e) as Hne by apply backup_path_other.
  unfold fix_written. simpl. rewrite Hsame. fold backup. split_and!.
  - rewrite lookup_insert_ne by done. by rewrite lookup_insert_eq.
  - rewrite lookup_insert_ne by done. by rewrite lookup_insert_eq.
  - by rewrite lookup_insert_eq.
  - intros p Hp. destruct (decide (p = backup)) as [|Hpb]; [by right|].
    left. destruct (decide (p = path e)) as [->|Hpe]; [by rewrite Hf|].
    by rewrite !lookup_insert_ne in Hp by done.
Qed.

(** X12.  A fix is not undone when it fails half-way: when the file
    refuses the write, the backup that was made first stays on disk, the
    file and the registry are as they were, and the exception leaves the
    applicator. *)
Theorem refused_write_leaves_backup sf (k code : string)
    (e : FileEntry) (f : File) st :
  Dict.get k sf = Some e →
  files (st_world st) !! path e = Some f →
  backup_path_of (path e) (clock (ticks (st_world st))) ∉ readonly (st_world st) →
  path e ∈ readonly (st_world st) →
  ∃ st',
    write_fix sf k code st = (st', Raised (PermissionError (path e)))
    ∧ st_index st' = st_index st
    ∧ files (st_world st') !! path e = Some f
    ∧ files (st_world st')
        !! backup_path_of (path e) (clock (ticks (st_world st))) = Some f.
Proof.
  intros Hsf Hf Hbp Hp. destruct st as [idx w]. simpl in *.
  unfold write_fix. rewrite Hsf.
  unfold bind, on_world, create_backup, write_text, copy2, now, modify, ret,
    bind. simpl.
  rewrite Hf. rewrite bool_decide_false by done. simpl.
  rewrite bool_decide_true by done. simpl.
  eexists. split; [done|]. simpl. split_and!; [done| |].
  - rewrite lookup_insert_ne; [done|]. apply backup_path_other.
  - by rewrite lookup_insert_eq.
Qed.
End BackupMore.

Lemma second_backup_replaces_first_witness :
  let st1 :=
    fst (@write_fix Cases.frozen_env Sample.foo_registry "Foo.java" "class Foo { 1 }"
           Cases.foo_store) in
  let st2 :=
    fst (@write_fix Cases.frozen_env Sample.foo_registry "Foo.java" "class Foo { 2 }"
           st1) in
  data <$> files (st_world st2) !! "/srv/app/Foo.java.backup_1700000000"
  = Some "class Foo { 1 }".
Proof.
  intros st1 st2.
  refine (proj1 (proj2 (@second_backup_replaces_first Cases.frozen_env
    Sample.foo_registry "Foo.java" "class Foo { 1 }" "class Foo { 2 }"
    Cases.foo_entry (Sample.file Sample.foo_old) Cases.foo_store st1 st2
    _ _ _ _ _))).
  - reflexivity.
  - reflexivity.
  - vm_compute. reflexivity.
  - vm_compute. reflexivity.
  - reflexivity.
Defined.

Lemma refused_write_leaves_backup_witness :
  ∃ st',
    @write_fix Sample.foo_env Sample.foo_registry "Foo.java" Sample.foo_new
      {| st_index := Sample.foo_registry; st_world := Cases.protected_world |}
    = (st', Raised (PermissionError "/srv/app/Foo.java"))
    ∧ data <$> files (st_world st') !! "/srv/app/Foo.java.backup_1700000000"
      = Some Sample.foo_old.
Proof.
  destruct (@refused_write_leaves_backup Sample.foo_env Sample.foo_registry
              "Foo.java" Sample.foo_new Cases.foo_entry
              (Sample.file Sample.foo_old)
              {| st_index := Sample.foo_registry;
                 st_world := Cases.protected_world |})
    as (st' & Hrun & _ & _ & Hbackup).
  - reflexivity.
  - reflexivity.
  - vm_compute. discriminate.
  - vm_compute. reflexivity.
  - exists st'. split; [exact Hrun|].
    transitivity (data <$> Some (Sample.file Sample.foo_old)); [|reflexivity].
    f_equal. exact Hbackup.
Defined.

(** ** Responses without blocks, and blocks without a file name *)

Section ScanMore.
Context `{Environment}.
Implicit Types (sf : Registry) (st : Store).

Lemma print_same_but_output ev st :
  ∃ st', on_world (print ev) st = (st', Ok tt) ∧ same_but_output st st'.
Proof. eexists. split; [done|]. by split_and!. Qed.

Lemma same_but_output_trans st st1 st2 :
  same_but_output st st1 → same_but_output st1 st2 → same_but_output st st2.
Proof.
  intros (? & ? & ? & ?) (? & ? & ? & ?). unfold same_but_output.
  split_and!; congruence.
Qed.

Lemma scan_without_blocks sf lines cur st :
  Forall (fun raw => is_marker (PyStr.strip raw) = true
                     ∨ opens_block (PyStr.strip raw) = false) lines →
  ∃ st', scan_lines sf lines cur st = (st', Ok tt) ∧ same_but_output st st'.
Proof.
  intros Hlines. revert cur st.
  induction Hlines as [|raw lines Hraw _ IH]; intros cur st.
  - exists st. split; [done|]. by split_and!.
  - simpl. destruct (is_marker (PyStr.strip raw)) eqn:Hm.
    + destruct (print_same_but_output
                  (Processing (marker_filename (PyStr.strip raw))) st)
        as (st1 & Hp & Hs1).
      destruct (IH (Some (marker_filename (PyStr.strip raw))) st1)
        as (st' & Hrun & Hs).
      exists st'. unfold bind. rewrite Hp. split; [done|].
      by eapply same_but_output_trans.
    + destruct Hraw as [?|Hopen]; [done|]. rewrite Hopen. apply IH.
Qed.

(** X13.  A response in which no line opens a code block changes neither
    the registry nor any file, and raises nothing, whatever markers it
    has. *)
Theorem response_without_blocks (response_text : string) sf st :
  Forall (fun raw => is_marker (PyStr.strip raw) = true
                     ∨ opens_block (PyStr.strip raw) = false)
         (PyStr.split "010" response_text) →
  ∃ st',
    apply_fixes_to_code response_text sf st = (st', Ok tt)
    ∧ st_index st' = st_index st
    ∧ files (st_world st') = files (st_world st).
Proof.
  intros Hlines. unfold apply_fixes_to_code.
  destruct (scan_without_blocks sf _ None st Hlines) as (st' & Hrun & Hi & Hf & _).
  by exists st'.
Qed.

(** Lines that are neither markers nor fences are passed over. *)
Lemma scan_plain_lines sf (plain more : list string) cur st :
  Forall (fun raw => is_marker (PyStr.strip raw) = false
                     ∧ opens_block (PyStr.strip raw) = false) plain →
  scan_lines sf (plain ++ more) cur st = scan_lines sf more cur st.
Proof.
  induction 1 as [|raw plain [Hm Ho] _ IH]; simpl; [done|].
  by rewrite Hm, Ho.
Qed.

(** X14.  A code block that no file name precedes is skipped as a whole:
    its opening fence and its closing fence each give the warning of a
    block without a file name, its lines are passed over, and the scan goes
    on after it with no file name pending.  The lines of the block are
    taken not to look like markers or fences themselves. *)
Theorem block_without_filename_skipped sf (opening closing : string)
    (block rest : list string) st :
  is_marker (PyStr.strip opening) = false →
  opens_block (PyStr.strip opening) = true →
  is_marker (PyStr.strip closing) = false →
  opens_block (PyStr.strip closing) = true →
  Forall (fun raw => is_marker (PyStr.strip raw) = false
                     ∧ opens_block (PyStr.strip raw) = false) block →
  scan_lines sf (opening :: block ++ closing :: rest) None st
  = bind (on_world (print BlockWithoutFilename))
      (fun _ => bind (on_world (print BlockWithoutFilename))
                  (fun _ => scan_lines sf rest None)) st.
Proof.
  intros Hm1 Ho1 Hm2 Ho2 Hblock.
  change (scan_lines sf (opening :: block ++ closing :: rest) None st)
    with ((if is_marker (PyStr.strip opening)
           then bind (on_world (print (Processing (marker_filename (PyStr.strip opening)))))
                  (fun _ => scan_lines sf (block ++ closing :: rest)
                              (Some (marker_filename (PyStr.strip opening))))
           else if opens_block (PyStr.strip opening)
                then bind (on_world (print BlockWithoutFilename))
                       (fun _ => scan_lines sf (block ++ closing :: rest) None)
                else scan_lines sf (block ++ closing :: rest) None) st).
  rewrite Hm1, Ho1. unfold bind.
  destruct (on_world (print BlockWithoutFilename) st) as [st1 [[]|ex]]; [|done].
  rewrite scan_plain_lines by done. simpl. rewrite Hm2, Ho2. done.
Qed.
End ScanMore.

Lemma response_without_blocks_witness :
  ∃ st',
    @apply_fixes_to_code Sample.foo_env
      ("I could not find the cause." ++ Sample.nl ++ "FILENAME: Foo.java")
      Sample.foo_registry Cases.foo_store = (st', Ok tt)
    ∧ st_index st' = Sample.foo_registry
    ∧ files (st_world st') = files Sample.foo_world.
Proof.
  apply (@response_without_blocks Sample.foo_env).
  change (Forall (fun raw => is_marker (PyStr.strip raw) = true
                             ∨ opens_block (PyStr.strip raw) = false)
            ["I could not find the cause."; "FILENAME: Foo.java"]).
  constructor; [right; reflexivity|].
  constructor; [left; reflexivity|]. constructor.
Defined.

Lemma block_without_filename_skipped_witness :
  @scan_lines Sample.foo_env Sample.foo_registry
    ["```java"; "class Foo { }"; "```"; "FILENAME: Foo.java"] None Cases.foo_store
  = bind (on_world (print BlockWithoutFilename))
      (fun _ => bind (on_world (print BlockWithoutFilename))
                  (fun _ => @scan_lines Sample.foo_env Sample.foo_registry
                              ["FILENAME: Foo.java"] None)) Cases.foo_store.
Proof.
  apply (@block_without_filename_skipped Sample.foo_env Sample.foo_registry
           "```java" "```" ["class Foo { }"] ["FILENAME: Foo.java"]);
    try reflexivity.
  repeat constructor.
Defined.

(** ** The oracle client and the stages: totality and numbers of calls *)

Section Stateless.
Context {S : Type}.

Lemma stateless_ret {A : Type} (a : A) : stateless (ret (S := S) a).
Proof. by intros s. Qed.

Lemma stateless_lift {A : Type} (r : result A) : stateless (lift (S := S) r).
Proof. by intros s. Qed.

Lemma stateless_bind {A B : Type} (c : M S A) (k : A → M S B) :
  stateless c → (∀ a, stateless (k a)) → stateless (bind c k).
Proof.
  intros Hc Hk s. unfold bind. specialize (Hc s).
  destruct (c s) as [s1 [a|e]]; simpl in Hc; subst s1; [apply Hk|done].
Qed.

Lemma stateless_for_each {X : Type} (xs : list X) (body : X → M S unit) :
  (∀ x, stateless (body x)) → stateless (for_each xs body).
Proof.
  intros Hbody. induction xs as [|x xs IH]; simpl; [apply stateless_ret|].
  apply stateless_bind; [done|]. by intros _.
Qed.
End Stateless.

Section ClientMore.
Context `{Environment}.
Implicit Types (n k : nat) (state : SREValidationState).

Lemma stateless_print_fields (v : value) (ks : list string) :
  stateless (print_fields v ks).
Proof.
  induction ks as [|key ks IH]; simpl; [apply stateless_ret|].
  apply stateless_bind; [apply stateless_lift|]. by intros _.
Qed.

Lemma stateless_print_some (m : nat) (shown : value → M nat unit) (xs : value) :
  (∀ x, stateless (shown x)) → stateless (print_some m shown xs).
Proof.
  intros Hshown. unfold print_some. destruct (Py.truthy xs); [|apply stateless_ret].
  repeat (apply stateless_bind; [apply stateless_lift|]; intros ?).
  by apply stateless_for_each.
Qed.

Local Ltac stateless_steps :=
  repeat first
    [ apply stateless_ret
    | apply stateless_lift
    | apply stateless_print_fields
    | apply stateless_print_some; intros ?
    | apply stateless_bind; [|intros ?]
    | match goal with |- stateless (if ?b then _ else _) => destruct b end ].

(** What a stage shows of the answer asks the oracle nothing. *)
Lemma stateless_display (g : stage) (v : value) : stateless (display g v).
Proof. destruct g; unfold display; stateless_steps. Qed.

(** What is shown was a dictionary. *)
Lemma display_ok_dict (g : stage) (v : value) n n' :
  display g v n = (n', Ok tt) → ∃ d, v = VDict d.
Proof.
  destruct v as [| | | | |d]; [..|by eexists]; by destruct g.
Qed.

Lemma invoke_attempts_outcome (init : list Z) k :
  Forall (fun a => a < 2) init →
  ∃ k' v,
    invoke_attempts (init ++ [2]) k = (k', Ok v)
    ∧ (k < k' <= k + S (List.length init))%nat
    ∧ (∀ j, (k <= j < k' - 1)%nat → attempt_fails j)
    ∧ (attempt_result (k' - 1) = Ok v
       ∨ (attempt_fails (k' - 1) ∧ error_object v)).
Proof.
  intros Hsmall. revert k.
  induction Hsmall as [|a rest Ha _ IH]; intros k; simpl.
  - unfold try_except. rewrite attempt_run.
    assert (S k - 1 = k)%nat as Hk by lia.
    destruct (attempt_result k) as [v|e] eqn:Hr.
    { exists (S k), v. rewrite Hk. split_and!; [done|lia|lia|intros j; lia|by left]. }
    assert (attempt_fails k) as Hfail by (unfold attempt_fails; by rewrite Hr).
    destruct (is_rate_limit _); simpl.
    + eexists _, _. rewrite Hk. split_and!; [done|lia|lia|intros j; lia|].
      right. split; [done|]. eexists. right. by eexists.
    + destruct (PyStr.contains "json" _).
      * eexists _, _. rewrite Hk. split_and!; [done|lia|lia|intros j; lia|].
        right. split; [done|]. eexists. right. by eexists.
      * eexists _, _. rewrite Hk. split_and!; [done|lia|lia|intros j; lia|].
        right. split; [done|]. eexists. by left.
  - unfold try_except. rewrite attempt_run.
    assert (S k - 1 = k)%nat as Hk by lia.
    destruct (attempt_result k) as [v|e] eqn:Hr.
    { exists (S k), v. rewrite Hk. split_and!; [done|lia|lia|intros j; lia|by left]. }
    assert (attempt_fails k) as Hfail by (unfold attempt_fails; by rewrite Hr).
    assert ((a <? max_retries - 1) = true) as ->
      by (apply Z.ltb_lt; unfold max_retries; lia).
    assert (∃ k' v,
              invoke_attempts (rest ++ [2]) (S k) = (k', Ok v)
              ∧ (k < k' <= k + S (S (List.length rest)))%nat
              ∧ (∀ j, (k <= j < k' - 1)%nat → attempt_fails j)
              ∧ (attempt_result (k' - 1) = Ok v
                 ∨ (attempt_fails (k' - 1) ∧ error_object v))) as Hnext.
    { destruct (IH (S k)) as (k' & v & Hrun & Hb & Hprev & Hlast).
      exists k', v. split_and!; [done|lia|lia| |done].
      intros j Hj. destruct (decide (j = k)) as [->|Hne]; [done|].
      apply Hprev. lia. }
    destruct (is_rate_limit _); [done|].
    destruct (PyStr.contains "json" _); [|done].
    eexists _, _. rewrite Hk. split_and!; [done|lia|lia|intros j; lia|].
    right. split; [done|]. eexists. right. by eexists.
Qed.

Lemma invoke_calls n :
  ∃ n' v, invoke_with_json_response n = (n', Ok v) ∧ (n < n' <= n + 3)%nat.
Proof.
  destruct (invoke_attempts_outcome [0; 1] n) as (n' & v & Hrun & Hb & _).
  { repeat constructor; lia. }
  by exists n', v.
Qed.

(** X15.  The oracle client never raises.  It makes one to three calls,
    every call but the last one made having failed, and returns the parsed
    answer of the last call, or an error object when that call failed
    too. *)
Theorem invoke_with_json_response_outcome n :
  ∃ n' v,
    invoke_with_json_response n = (n', Ok v)
    ∧ (n < n' <= n + 3)%nat
    ∧ (∀ j, (n <= j < n' - 1)%nat → attempt_fails j)
    ∧ (attempt_result (n' - 1) = Ok v
       ∨ (attempt_fails (n' - 1) ∧ error_object v)).
Proof.
  apply (invoke_attempts_outcome [0; 1] n). repeat constructor; lia.
Qed.

Lemma stage_node_calls (g : stage) state n :
  ∃ n' d,
    stage_node g state n = (n', Ok (set_stage_field g (VDict d) state))
    ∧ (n < n' <= n + 3)%nat.
Proof.
  destruct (invoke_calls n) as (n1 & v & Hrun & Hb).
  unfold stage_node, try_except, bind at 1. rewrite Hrun. unfold bind.
  pose proof (stateless_display g v n1) as Hst.
  destruct (display g v n1) as [n2 [[]|e]] eqn:Hd; simpl in Hst; subst n2.
  - destruct (display_ok_dict g v n1 n1 Hd) as [d ->]. by exists n1, d.
  - by eexists n1, _.
Qed.

(** X16.  Each of the five stages returns after one to three calls of the
    oracle, raises nothing and leaves a dictionary in its field, the other
    fields untouched.  The dictionary is the answer of the oracle client
    when the stage could show it (the answer is then an object), and the
    object with the single key ["error"] and the text of the exception
    when showing it raised; an answer that is no object always ends in
    that error object. *)
Theorem stage_leaves_dictionary (g : stage) state n :
  ∃ n' v d,
    invoke_with_json_response n = (n', Ok v)
    ∧ stage_node g state n = (n', Ok (set_stage_field g (VDict d) state))
    ∧ (n < n' <= n + 3)%nat
    ∧ (snd (display g v n') = Ok tt → v = VDict d)
    ∧ (∀ e, snd (display g v n') = Raised e →
         d = [("error", VStr (exn_str e))])
    ∧ ((∀ d0, v ≠ VDict d0) → ∃ e, d = [("error", VStr (exn_str e))])
    ∧ stage_field g (set_stage_field g (VDict d) state) = Some (VDict d)
    ∧ (∀ g', g' ≠ g →
         stage_field g' (set_stage_field g (VDict d) state) = stage_field g' state).
Proof.
  destruct (invoke_calls n) as (n1 & v & Hrun & Hb).
  assert (∀ d, stage_field g (set_stage_field g (VDict d) state) = Some (VDict d)
               ∧ (∀ g', g' ≠ g →
                    stage_field g' (set_stage_field g (VDict d) state)
                    = stage_field g' state)) as Hfields.
  { intros d. split; [apply stage_field_set|]. intros g' Hg. by destruct g, g'. }
  unfold stage_node, try_except, bind at 1. rewrite Hrun. unfold bind.
  pose proof (stateless_display g v n1) as Hst.
  destruct (display g v n1) as [n2 [[]|e]] eqn:Hd; simpl in Hst; subst n2.
  - destruct (display_ok_dict g v n1 n1 Hd) as [d ->].
    exists n1, (VDict d), d. destruct (Hfields d) as [Hown Hother].
    rewrite Hd. simpl. split_and!; try done; try lia.
    intros Hno. by destruct (Hno d).
  - exists n1, v, [("error", VStr (exn_str e))].
    destruct (Hfields [("error", VStr (exn_str e))]) as [Hown Hother].
    rewrite Hd. simpl. split_and!; try done; try lia.
    + by intros e' [= <-].
    + intros _. by exists e.
Qed.

Lemma final_decision_body_calls state n :
  ∃ n' r, final_decision_body state n = (n', r) ∧ (n < n' <= n + 3)%nat.
Proof.
  destruct (invoke_calls n) as (n1 & v & Hrun & Hb).
  unfold final_decision_body. unfold bind at 1. rewrite Hrun.
  match goal with
  | |- ∃ n' r, ?c n1 = _ ∧ _ =>
      assert (stateless c) as Hst by stateless_steps;
      specialize (Hst n1); destruct (c n1) as [n2 r]
  end.
  simpl in Hst. subst n2. by exists n1, r.
Qed.

Lemma final_decision_node_total state n :
  ∃ n' verdict,
    final_decision_node state n = (n', Ok verdict) ∧ (n < n' <= n + 3)%nat.
Proof.
  destruct (final_decision_body_calls state n) as (n' & r & Hrun & Hb).
  unfold final_decision_node, try_except. rewrite Hrun.
  destruct r as [verdict|e]; by eexists _, _.
Qed.

Lemma validate_code_with_llm_calls
    (original_code fixed_code original_error change_context : string) n :
  ∃ n' verdict,
    validate_code_with_llm original_code fixed_code original_error
      change_context n = (n', Ok verdict)
    ∧ (n + 6 <= n' <= n + 18)%nat.
Proof.
  unfold validate_code_with_llm, try_except, workflow,
    analyze_error_node, code_diff_analysis_node, logic_validation_node,
    semantic_validation_node, security_validation_node.
  set (s0 := initial_validation_state _ _ _ _).
  destruct (stage_node_calls ErrorAnalysis s0 n)
    as (n1 & d1 & H1 & B1 ).
  destruct (stage_node_calls CodeDiffAnalysis
              (set_stage_field ErrorAnalysis (VDict d1) s0) n1)
    as (n2 & d2 & H2 & B2 ).
  destruct (stage_node_calls LogicValidation
              (set_stage_field CodeDiffAnalysis (VDict d2)
                 (set_stage_field ErrorAnalysis (VDict d1) s0)) n2)
    as (n3 & d3 & H3 & B3 ).
  destruct (stage_node_calls SemanticValidation
              (set_stage_field LogicValidation (VDict d3)
                 (set_stage_field CodeDiffAnalysis (VDict d2)
                    (set_stage_field ErrorAnalysis (VDict d1) s0))) n3)
    as (n4 & d4 & H4 & B4 ).
  destruct (stage_node_calls SecurityValidation
              (set_stage_field SemanticValidation (VDict d4)
                 (set_stage_field LogicValidation (VDict d3)
                    (set_stage_field CodeDiffAnalysis (VDict d2)
                       (set_stage_field ErrorAnalysis (VDict d1) s0)))) n4)
    as (n5 & d5 & H5 & B5 ).
  destruct (final_decision_node_total
              (set_stage_field SecurityValidation (VDict d5)
                 (set_stage_field SemanticValidation (VDict d4)
                    (set_stage_field LogicValidation (VDict d3)
                       (set_stage_field CodeDiffAnalysis (VDict d2)
                          (set_stage_field ErrorAnalysis (VDict d1) s0))))) n5)
    as (n6 & verdict & H6 & B6).
  unfold bind. rewrite H1, H2, H3, H4, H5, H6. unfold ret.
  eexists _, _. split; [done|]. lia.
Qed.

(** X17.  The validation never raises, whatever the oracle does, and
    makes between 6 and 18 calls of the oracle: one to three for each of
    its six stages.  (The workflow and the clients of the oracle are taken
    to be constructed without error.) *)
Theorem validate_code_with_llm_total
    (original_code fixed_code original_error change_context : string) n :
  ∃ n' verdict,
    validate_code_with_llm original_code fixed_code original_error
      change_context n = (n', Ok verdict)
    ∧ (n + 6 <= n' <= n + 18)%nat.
Proof. apply validate_code_with_llm_calls. Qed.
End ClientMore.

(** ** The rollback and the router on every state *)

Section RouterMore.
Context `{Environment}.
Implicit Types (state : State) (w : World).

(** X18.  The rollback raises nothing, whatever the state and the disk:
    a write that is refused is reported and the loop goes on.  It writes
    only at the paths the path map records for the names of the backup
    map: every other file is as it was, and no permission changes. *)
Theorem restore_original_code_footprint state w :
  ∃ w',
    restore_original_code state w = (w', Ok tt)
    ∧ readonly w' = readonly w
    ∧ (∀ q, q ∉ restore_targets state → files w' !! q = files w !! q)
    ∧ (∀ ev, ev ∈ output w → ev ∈ output w').
Proof. apply restore_all_frame. Qed.

(** X19.  The router raises nothing.  When it sends the session back to
    the fixer, the decision was neither DEPLOY nor NEEDS_REVIEW, the
    counter was below 3 and is one higher in the state it leaves, and no
    file was written; when it ends the session the state is the one it was
    given, and the only files that can differ are those of the rollback. *)
Theorem router_outcome state w :
  ∃ w' state' next,
    router state w = (w', Ok (state', next))
    ∧ readonly w' = readonly w
    ∧ (∀ q, q ∉ restore_targets state → files w' !! q = files w !! q)
    ∧ (next = fix_code →
         decision_is state "DEPLOY" = false
         ∧ decision_is state "NEEDS_REVIEW" = false
         ∧ default 0 (retries state) < 3
         ∧ retries state' = Some (default 0 (retries state) + 1)
         ∧ files w' = files w)
    ∧ (next = END →
         state' = state
         ∧ (decision_is state "DEPLOY" = true
            ∨ decision_is state "NEEDS_REVIEW" = true
            ∨ 3 <= default 0 (retries state))).
Proof.
  unfold router.
  destruct (decision_is state "DEPLOY") eqn:Hd.
  { exists w, state, END. split_and!; try done. intros _. split; [done|by left]. }
  destruct (decision_is state "NEEDS_REVIEW") eqn:Hn.
  { exists w, state, END. split_and!; try done.
    intros _. split; [done|]. right. by left. }
  destruct (3 <=? default 0 (retries state)) eqn:Hle.
  - apply Z.leb_le in Hle.
    destruct (restore_all_frame (default [] (original_code_path_map state))
                (default [] (original_code_backup state)) w)
      as (w1 & Hrun & Hro & Hf & _).
    unfold restore_original_code, bind at 1. rewrite Hrun. unfold bind, print, modify, ret. simpl.
    eexists _, state, END. split; [done|]. simpl. split_and!; try done.
    intros _. split; [done|]. right. by right.
  - apply Z.leb_gt in Hle.
    unfold bind, print, modify, ret. simpl.
    eexists _, _, fix_code. split; [done|]. simpl. split_and!; try done.
Qed.

(** X20.  A decision that is none of REJECT, DEPLOY and NEEDS_REVIEW (a
    value in another spelling, or no string) is recorded without feedback
    for the fixer and without counting; below the ceiling the router then
    counts one retry and sends the session back to the fixer, whose note
    is the one of the round before. *)
Theorem unrecognised_decision_retries (verdict : Verdict) state w :
  Py.eq_str (verdict_decision verdict) "REJECT" = false →
  Py.eq_str (verdict_decision verdict) "DEPLOY" = false →
  Py.eq_str (verdict_decision verdict) "NEEDS_REVIEW" = false →
  default 0 (retries state) < 3 →
  ∃ validated routed w',
    record_verdict verdict state = Ok validated
    ∧ retries validated = Some (default 0 (retries state))
    ∧ test_failure_reason validated = test_failure_reason state
    ∧ router validated w = (w', Ok (routed, fix_code))
    ∧ retries routed = Some (default 0 (retries state) + 1)
    ∧ extra_note_of routed = extra_note_of state
    ∧ files w' = files w.
Proof.
  intros Hr Hd Hn Hbelow.
  unfold record_verdict. rewrite Hr.
  eexists _, _, _. split; [done|]. split; [done|]. split; [done|].
  unfold router, decision_is. simpl. rewrite Hd, Hn.
  assert ((3 <=? default 0 (retries state)) = false) as ->
    by (apply Z.leb_gt; lia).
  unfold bind, print, modify, ret. simpl. done.
Qed.
End RouterMore.

Lemma unrecognised_decision_retries_witness :
  ∃ validated routed w',
    record_verdict
      {| verdict_decision := VStr "deploy";
         verdict_detailed_report := "";
         verdict_recommendations := VList [];
         verdict_failure_reasons := VList [] |} Sample.empty_state
    = Ok validated
    ∧ test_failure_reason validated = None
    ∧ @router Sample.foo_env validated Sample.foo_world
      = (w', Ok (routed, fix_code))
    ∧ retries routed = Some 1.
Proof.
  destruct (@unrecognised_decision_retries Sample.foo_env
              {| verdict_decision := VStr "deploy";
                 verdict_detailed_report := "";
                 verdict_recommendations := VList [];
                 verdict_failure_reasons := VList [] |}
              Sample.empty_state Sample.foo_world)
    as (validated & routed & w' & Hrec & _ & Hfeed & Hroute & Hcount & _).
  - reflexivity.
  - reflexivity.
  - reflexivity.
  - simpl. lia.
  - exists validated, routed, w'. split_and!; assumption.
Defined.

(** ** The validation node on every state *)

Section TestingMore.
Context `{Environment}.
Implicit Types (state : State) (n : nat).

(** X21.  Once the fixer has left the working set and the backup map in
    the state, the validation node runs the validation on the two texts
    it builds from them and on the text of the error, with 6 to 18 calls of
    the oracle, and its outcome is the state recorded from the verdict the
    validation returned.  It raises in one case only: that verdict is
    REJECT and its reasons are not strings to join.  When it returns, the
    state has a decision and a counter that is not lower than before, and
    the backup map is the one it was given.  A state without the text of
    the error is answered with NEEDS_REVIEW for an unexpected error, the
    oracle not called. *)
Theorem testing_node_outcome state (relevant : Registry) (backup : Dict.t string) n :
  relevant_files state = Some relevant →
  original_code_backup state = Some backup →
  let original :=
    PyStr.join (newline ++ newline)
      (map (fun fname => file_banner fname (default "" (Dict.get fname backup)))
           (Dict.keys relevant)) in
  let fixed :=
    PyStr.join (newline ++ newline)
      (map (fun '(fname, info) => file_banner fname (content info)) relevant) in
  ∃ n' r,
    testing_node state n = (n', r)
    ∧ (n <= n' <= n + 18)%nat
    ∧ (original_error state = None →
         n' = n
         ∧ ∃ state', r = Ok state'
             ∧ decision state' = Some (VStr "NEEDS_REVIEW")
             ∧ failure_reasons state' = Some (VList [VStr "UnexpectedError"])
             ∧ retries state' = Some (default 0 (retries state)))
    ∧ (∀ error, original_error state = Some error →
         ∃ verdict,
           validate_code_with_llm original fixed error
             "Gemini fix applied based on Spring Boot error.log" n
           = (n', Ok verdict)
           ∧ (n + 6 <= n')%nat
           ∧ r = record_verdict verdict state
           ∧ (∀ state', r = Ok state' →
                decision state' = Some (verdict_decision verdict))
           ∧ (∀ e, r = Raised e →
                Py.eq_str (verdict_decision verdict) "REJECT" = true
                ∧ Py.truthy (verdict_failure_reasons verdict) = true
                ∧ Py.join "; " (verdict_failure_reasons verdict) = Raised e))
    ∧ (∀ state', r = Ok state' →
         is_Some (decision state')
         ∧ (∃ count, retries state' = Some count
                     ∧ default 0 (retries state) <= count)
         ∧ original_code_backup state' = Some backup).
Proof.
  intros Hrel Hbackup original fixed. unfold testing_node.
  rewrite Hrel, Hbackup. simpl.
  unfold bind at 1. unfold lift at 1. unfold bind at 1. unfold lift at 1.
  unfold bind at 1. unfold try_except.
  destruct (original_error state) as [error|] eqn:Herr; simpl.
  - unfold bind at 1. unfold lift at 1. unfold bind at 1.
    destruct (validate_code_with_llm_calls original fixed error
                "Gemini fix applied based on Spring Boot error.log" n)
      as (n1 & verdict & Hrun & Hb).
    fold original fixed. rewrite Hrun. unfold ret, lift.
    exists n1, (record_verdict verdict state).
    split; [done|]. split; [lia|]. split; [done|]. split.
    + intros error' [= <-]. exists verdict.
      split; [done|]. split; [lia|]. split; [done|]. split.
      * intros state' Hrec. unfold record_verdict in Hrec.
        destruct (Py.eq_str (verdict_decision verdict) "REJECT");
          [|by injection Hrec as <-].
        destruct (Py.truthy (verdict_failure_reasons verdict));
          [|by injection Hrec as <-].
        destruct (Py.join "; " (verdict_failure_reasons verdict)); [|done].
        by injection Hrec as <-.
      * intros e Hrec. unfold record_verdict in Hrec.
        destruct (Py.eq_str (verdict_decision verdict) "REJECT"); [|done].
        destruct (Py.truthy (verdict_failure_reasons verdict)); [|done].
        destruct (Py.join "; " (verdict_failure_reasons verdict))
          as [joined|e']; [done|].
        by injection Hrec as ->.
    + intros state' Hrec. unfold record_verdict in Hrec.
      destruct (Py.eq_str (verdict_decision verdict) "REJECT").
      * destruct (Py.truthy (verdict_failure_reasons verdict)).
        -- destruct (Py.join "; " (verdict_failure_reasons verdict)); [|done].
           injection Hrec as <-. simpl. split; [by eexists|].
           split; [|done]. eexists. split; [done|]. lia.
        -- injection Hrec as <-. simpl. split; [by eexists|].
           split; [|done]. eexists. split; [done|]. lia.
      * injection Hrec as <-. simpl. split; [by eexists|].
        split; [|done]. eexists. split; [done|]. lia.
  - unfold bind, lift, ret. simpl.
    eexists n, _. split; [reflexivity|]. split; [lia|]. split.
    + intros _. split; [done|]. eexists. split; [done|]. by split_and!.
    + split; [done|]. intros state' [= <-]. simpl. split; [by eexists|].
      split; [|done]. eexists. split; [done|]. lia.
Qed.
End TestingMore.

Lemma testing_node_outcome_witness :
  ∃ n' r,
    @testing_node Sample.foo_env Cases.fixed_state 0%nat = (n', r)
    ∧ (0 <= n' <= 18)%nat.
Proof.
  destruct (@testing_node_outcome Sample.foo_env Cases.fixed_state
              Sample.foo_registry [("Foo.java", Sample.foo_old)] 0%nat)
    as (n' & r & Hrun & Hb & _).
  - reflexivity.
  - reflexivity.
  - by exists n', r.
Defined.

(** ** The first attempt of a session *)

Section FirstAttempt.
Context `{Environment}.

Lemma mem_content_map (k : string) (idx : Registry) :
  Dict.mem k (map (fun '(fname, info) => (fname, content info)) idx)
  = Dict.mem k idx.
Proof.
  unfold Dict.mem. induction idx as [|[k' e] idx IH]; simpl; [done|].
  by destruct (String.eqb k k').
Qed.

Lemma mem_listed (k : string) (e : FileEntry) (idx : Registry) :
  (k, e) ∈ idx → Dict.mem k idx = true.
Proof.
  unfold Dict.mem. induction idx as [|[k' e'] idx IH]; intros Hin.
  - by apply elem_of_nil in Hin.
  - simpl. destruct (String.eqb k k') eqn:Hk; [done|].
    apply elem_of_cons in Hin as [[= -> ->]|Hin]; [|by apply IH].
    by rewrite String.eqb_refl in Hk.
Qed.

Lemma filter_all {A : Type} (P : A → Prop) `{∀ x, Decision (P x)} (l : list A) :
  (∀ x, x ∈ l → P x) → filter P l = l.
Proof.
  induction l as [|x l IH]; intros Hall; [done|].
  rewrite filter_cons_True by (apply Hall; left).
  f_equal. apply IH. intros y Hy. apply Hall. by right.
Qed.

(** X22.  On the first attempt of a session (no backup map in the state)
    the fixer takes the backup map from the registry as the fixes have
    left it: under every name the map holds the content the registry
    holds, and the two texts of the state, the original code and the
    fixed code, are the same text. *)
Theorem first_attempt_texts_coincide
    (error_log project_dir : string) (state state' : State) (w w' : World) :
  original_code_backup state = None →
  node_fixer error_log project_dir state w = (w', Ok state') →
  ∃ idx,
    file_index state' = Some idx
    ∧ original_code_backup state'
      = Some (map (fun '(fname, info) => (fname, content info)) idx)
    ∧ original_code_path_map state'
      = Some (map (fun '(fname, info) => (fname, path info)) idx)
    ∧ original_code state' = fixed_code state'.
Proof.
  intros Hb. unfold node_fixer. rewrite Hb.
  unfold bind at 1.
  destruct (match file_index state with
            | Some fi => refresh_file_index fi
            | None => build_file_index project_dir
            end w) as [w1 [idx0|ex]]; [|done].
  unfold bind at 1. unfold lift at 1.
  destruct (send_message _) as [response|ex]; [|done].
  unfold bind at 1.
  destruct (apply_fixes_to_code _ _ _) as [st1 [[]|ex]]; [|done].
  unfold bind at 1. unfold lift at 1.
  destruct (reindex _ _ _) as [relevant1|ex]; [|done].
  unfold ret. intros [= _ <-]. simpl.
  exists (st_index st1). split_and!; try done.
  do 2 f_equal.
  match goal with
  | |- context [filter ?P ?l] => replace (filter P l) with l
  end.
  - rewrite map_map. apply map_ext. by intros [fname info].
  - symmetry. apply filter_all. intros [k e] Hin. simpl.
    rewrite mem_content_map. by rewrite (mem_listed k e (st_index st1)).
Qed.
End FirstAttempt.

Lemma first_attempt_texts_coincide_witness :
  ∃ state',
    snd (@node_fixer Sample.foo_env "java.lang.NullPointerException: null"
           "/srv/app" Sample.empty_state Sample.foo_world) = Ok state'
    ∧ original_code state' = fixed_code state'.
Proof.
  eexists. split; [vm_compute; reflexivity|].
  edestruct (@first_attempt_texts_coincide Sample.foo_env
               "java.lang.NullPointerException: null" "/srv/app"
               Sample.empty_state) as (idx & _ & _ & _ & Heq);
    [reflexivity| |exact Heq].
  instantiate (2 := Sample.foo_world). vm_compute. reflexivity.
Defined.

(** ** When the fixer returns *)

Section FixerReturns.
Context `{Environment}.
Implicit Types (sf : Registry) (st : Store).

Lemma print_ready sf ev st :
  ready sf st → ∃ st', on_world (print ev) st = (st', Ok tt) ∧ ready sf st'.
Proof. intros Hready. destruct st as [idx w]. by eexists. Qed.

Lemma write_fix_ready sf k code st :
  ready sf st → is_Some (Dict.get k sf) →
  ∃ st', write_fix sf k code st = (st', Ok tt) ∧ ready sf st'.
Proof.
  intros [Hro Hall] [e He].
  destruct (Hall k e He) as [[f Hf] [old Hold]].
  exists (fix_written (path e) f old k code st). split.
  - apply write_fix_ok; try done; rewrite Hro; set_solver.
  - split; [done|]. intros k' e' He'.
    destruct (Hall k' e' He') as [Hf' Ho']. split.
    + simpl. apply lookup_insert_is_Some'. right.
      apply lookup_insert_is_Some'. by right.
    + simpl. destruct (decide (k = k')) as [<-|Hne].
      * rewrite DictFacts.get_set_eq. by eexists.
      * by rewrite DictFacts.get_set_ne.
Qed.

Lemma apply_block_ready sf name mk code st :
  (∀ k, mk = Some k → is_Some (Dict.get k sf)) →
  ready sf st →
  ∃ st', apply_block sf name mk code st = (st', Ok tt) ∧ ready sf st'.
Proof.
  intros Hmk Hready. unfold apply_block. destruct mk as [k|].
  - destruct (String.eqb k ""); [by apply print_ready|].
    apply write_fix_ready; [done|by apply Hmk].
  - by apply print_ready.
Qed.

Lemma scan_ready sf lines :
  (∀ cur st, ready sf st →
     ∃ st', scan_lines sf lines cur st = (st', Ok tt) ∧ ready sf st')
  ∧ (∀ name mk code st,
       (∀ k, mk = Some k → is_Some (Dict.get k sf)) →
       ready sf st →
       ∃ st', collect_block sf lines name mk code st = (st', Ok tt)
              ∧ ready sf st').
Proof.
  induction lines as [|raw rest [IHscan IHcollect]]; split.
  - intros cur st Hready. by exists st.
  - intros name mk code st Hmk Hready. simpl. by apply apply_block_ready.
  - intros cur st Hready. simpl.
    destruct (is_marker (PyStr.strip raw)).
    { destruct (print_ready sf (Processing (marker_filename (PyStr.strip raw)))
                  st Hready) as (st1 & Hp & Hr1).
      unfold bind at 1. rewrite Hp. by apply IHscan. }
    destruct (opens_block (PyStr.strip raw)); [|by apply IHscan].
    destruct cur as [name|].
    + apply IHcollect; [|done]. intros k. apply find_matched_key_known.
    + destruct (print_ready sf BlockWithoutFilename st Hready)
        as (st1 & Hp & Hr1).
      unfold bind at 1. rewrite Hp. by apply IHscan.
  - intros name mk code st Hmk Hready. simpl.
    destruct (closes_block raw); [|by apply IHcollect].
    destruct (apply_block_ready sf name mk code st Hmk Hready)
      as (st1 & Hp & Hr1).
    unfold bind at 1. rewrite Hp. by apply IHscan.
Qed.

Lemma reindex_ok (names : list string) (idx acc : Registry) :
  (∀ k, k ∈ names → is_Some (Dict.get k idx)) →
  ∃ r, reindex names idx acc = Ok r.
Proof.
  revert acc. induction names as [|k names IH]; intros acc Hall; simpl.
  - by eexists.
  - destruct (Hall k ltac:(left)) as [e ->].
    apply IH. intros k' Hk'. apply Hall. by right.
Qed.

(** The working set is taken from the registry. *)
Lemma relevant_sub (error_text : string) (R : Registry) (depth : Z)
    (k : string) (e : FileEntry) :
  Dict.get k (get_relevant_files error_text R depth) = Some e →
  Dict.get k R = Some e.
Proof.
  unfold get_relevant_files.
  case_bool_decide; [done|].
  rewrite get_selected by apply NoDup_elements.
  by case_bool_decide.
Qed.

(** The registry the fixer starts from: built or refreshed, it leaves the
    disk alone and every entry has its file on disk. *)
Lemma registry_on_disk (project_dir : string) (fi : option Registry) (w : World) :
  (∀ R, fi = Some R → NoDup (Dict.keys R)) →
  ∃ idx,
    match fi with
    | Some R => refresh_file_index R
    | None => build_file_index project_dir
    end w = (w, Ok idx)
    ∧ ∀ k e, Dict.get k idx = Some e → is_Some (files w !! path e).
Proof.
  intros Hnd. destruct fi as [R|].
  - destruct (refresh_items_lookup R w (Hnd R eq_refl)) as (R' & Hrun & Hget).
    exists R'. split; [done|]. intros k e Hk. rewrite Hget in Hk.
    destruct (Dict.get k R) as [e0|]; [|done]. simpl in Hk.
    unfold refreshed in Hk.
    destruct (files w !! path e0) as [f|] eqn:Hf; [|done].
    destruct (Z.eqb (mtime f) (last_modified e0));
      [injection Hk as <-; by rewrite Hf|].
    destruct (String.eqb (md5 (data f)) (checksum e0));
      injection Hk as <-; simpl; by rewrite Hf.
  - destruct (build_file_index_facts project_dir w) as (R & Hrun & _ & Hsound & _).
    exists R. split; [done|]. intros k e Hk.
    destruct (Hsound k e Hk) as (f & Hf & _). by eexists.
Qed.

(** X23.  From the registry on (line 198), the fixer returns whenever no
    path refuses a write and its oracle answers, whatever the answer: the
    backup finds its file, the write is accepted, and the look-ups of the
    registry at lines 167 and 255 find their keys.  (The keys of a registry
    that comes with the state are distinct, as those of a dictionary
    are.) *)
Theorem node_fixer_returns (error_log project_dir : string) (state : State)
    (w : World) :
  readonly w = ∅ →
  (∀ R, file_index state = Some R → NoDup (Dict.keys R)) →
  (∀ prompt, is_ok (send_message prompt) = true) →
  ∃ w' state',
    node_fixer error_log project_dir state w = (w', Ok state')
    ∧ readonly w' = ∅
    ∧ original_error state' = Some error_log
    ∧ is_Some (original_code_backup state')
    ∧ is_Some (relevant_files state').
Proof.
  intros Hro Hnd Horacle. unfold node_fixer.
  destruct (registry_on_disk project_dir (file_index state) w Hnd)
    as (idx0 & Hrun0 & Hdisk).
  unfold bind at 1. rewrite Hrun0.
  unfold bind at 1. unfold lift at 1.
  match goal with
  | |- context [send_message ?p] =>
      pose proof (Horacle p) as Hanswer;
      destruct (send_message p) as [response|ex]; [|done]
  end.
  set (relevant := get_relevant_files error_log idx0 2).
  assert (ready relevant {| st_index := idx0; st_world := w |}) as Hready.
  { split; [done|]. intros k e Hk. apply relevant_sub in Hk.
    split; [by apply (Hdisk k)|by eexists]. }
  destruct (proj1 (scan_ready relevant (PyStr.split "010" response)) None _ Hready)
    as (st1 & Hrun1 & [Hro1 Hall1]).
  unfold bind at 1. unfold apply_fixes_to_code. rewrite Hrun1.
  destruct (reindex_ok (Dict.keys relevant) (st_index st1) []) as [relevant1 Hre].
  { intros k Hk. apply DictFacts.key_get in Hk as [e He].
    by destruct (Hall1 k e He). }
  unfold bind at 1. unfold lift at 1. rewrite Hre. unfold ret.
  eexists _, _. split; [done|]. simpl. split_and!; done.
Qed.
End FixerReturns.

Lemma node_fixer_returns_witness :
  ∃ w' state',
    @node_fixer Sample.foo_env "java.lang.NullPointerException: null" "/srv/app"
      Sample.empty_state Sample.foo_world = (w', Ok state')
    ∧ readonly w' = ∅.
Proof.
  destruct (@node_fixer_returns Sample.foo_env
              "java.lang.NullPointerException: null" "/srv/app"
              Sample.empty_state Sample.foo_world)
    as (w' & state' & Hrun & Hro & _).
  - reflexivity.
  - intros R HR. discriminate HR.
  - intros prompt. reflexivity.
  - exists w', state'. split; assumption.
Defined.

(** ** Cleaning the reply of the oracle *)

Section CleanMore.
Import PyStr.
Implicit Types (s p q e : string) (c : ascii).

Lemma append_cons a s p : String a s ++ p = String a (s ++ p).
Proof. reflexivity. Qed.

Lemma append_nil_l s : "" ++ s = s.
Proof. reflexivity. Qed.

Lemma append_nil_r s : s ++ "" = s.
Proof.
  induction s as [|a s IH]; [done|]. by rewrite append_cons, IH.
Qed.

Lemma append_assoc s p q : (s ++ p) ++ q = s ++ p ++ q.
Proof.
  induction s as [|a s IH]; [done|]. by rewrite !append_cons, IH.
Qed.

Lemma contains_char_cons c a s :
  contains (String c "") (String a s)
  = Ascii.eqb c a || contains (String c "") s.
Proof. simpl. by rewrite andb_true_r. Qed.

Lemma contains_char_app c s p :
  contains (String c "") (s ++ p)
  = contains (String c "") s || contains (String c "") p.
Proof.
  induction s as [|a s IH].
  - by rewrite append_nil_l.
  - rewrite append_cons, !contains_char_cons, IH. by rewrite orb_assoc.
Qed.

Lemma lstrip_append p c s :
  is_space c = false → lstrip (p ++ String c s) = lstrip p ++ String c s.
Proof.
  intros Hc. induction p as [|a p IH].
  - rewrite append_nil_l. simpl. by rewrite Hc.
  - rewrite append_cons. simpl. destruct (is_space a); [done|].
    by rewrite append_cons.
Qed.

Lemma lstrip_keeps_absent c p :
  contains (String c "") p = false → contains (String c "") (lstrip p) = false.
Proof.
  induction p as [|a p IH]; [done|].
  rewrite contains_char_cons. intros Hp. apply orb_false_elim in Hp as [Ha Hp].
  simpl lstrip. destruct (is_space a); [by apply IH|].
  rewrite contains_char_cons. by rewrite Ha, Hp.
Qed.

Lemma rstrip_append s c q :
  is_space c = false → rstrip (s ++ String c q) = s ++ String c (rstrip q).
Proof.
  intros Hc. induction s as [|a s IH].
  - rewrite !append_nil_l. simpl. destruct (rstrip q); [by rewrite Hc|done].
  - rewrite !append_cons. simpl rstrip. rewrite IH. by destruct s.
Qed.

Lemma rstrip_keeps_absent c q :
  contains (String c "") q = false → contains (String c "") (rstrip q) = false.
Proof.
  induction q as [|a q IH]; [done|].
  rewrite contains_char_cons. intros Hq. apply orb_false_elim in Hq as [Ha Hq].
  specialize (IH Hq). simpl rstrip. destruct (rstrip q) as [|b r].
  - destruct (is_space a); [done|]. rewrite contains_char_cons. by rewrite Ha.
  - rewrite contains_char_cons. by rewrite Ha, IH.
Qed.

Lemma startswith_append e p c s :
  contains (String c "") e = false →
  startswith e (p ++ String c s) = true →
  ∃ p', p = e ++ p'.
Proof.
  revert p. induction e as [|a e IH]; intros p He Hstart.
  - by exists p.
  - rewrite contains_char_cons in He. apply orb_false_elim in He as [Ha He].
    destruct p as [|b p].
    + rewrite append_nil_l in Hstart. simpl in Hstart.
      rewrite Ascii.eqb_sym in Ha. by rewrite Ha in Hstart.
    + rewrite append_cons in Hstart. simpl in Hstart.
      apply andb_prop in Hstart as [Hab Hstart].
      apply Ascii.eqb_eq in Hab as ->.
      destruct (IH p He Hstart) as [p' ->]. by exists p'.
Qed.

Lemma drop_append e s : drop (String.length e) (e ++ s) = s.
Proof.
  induction e as [|a e IH]; [rewrite append_nil_l; by destruct s|].
  by rewrite append_cons.
Qed.

Lemma endswith_suffix e s : endswith e s = true → ∃ s0, s = s0 ++ e.
Proof.
  induction s as [|a s IH]; simpl.
  - intros He. apply String.eqb_eq in He as ->. by exists "".
  - intros He. apply orb_prop in He as [He|He].
    + apply String.eqb_eq in He as ->. by exists "".
    + destruct (IH He) as [s0 ->]. by exists (String a s0).
Qed.

Lemma endswith_append e s c q :
  contains (String c "") e = false →
  endswith e (s ++ String c q) = true →
  ∃ q', q = q' ++ e.
Proof.
  intros He. induction s as [|a s IH].
  - rewrite append_nil_l. simpl. intros Hend.
    apply orb_prop in Hend as [Hend|Hend].
    + apply String.eqb_eq in Hend as ->.
      rewrite contains_char_cons, Ascii.eqb_refl in He. done.
    + by apply endswith_suffix.
  - rewrite append_cons. simpl. intros Hend. apply orb_prop in Hend as [Hend|Hend]; [|by apply IH].
    apply String.eqb_eq in Hend as ->.
    rewrite contains_char_cons, contains_char_app, contains_char_cons,
      Ascii.eqb_refl in He.
    by rewrite !orb_true_r in He.
Qed.

Lemma take_append s e : take (String.length s) (s ++ e) = s.
Proof.
  induction s as [|a s IH]; [rewrite append_nil_l; by destruct e|].
  rewrite append_cons. simpl. by rewrite IH.
Qed.

Lemma find_char_append c p s :
  contains (String c "") p = false →
  find_char c (p ++ String c s) = Z.of_nat (String.length p).
Proof.
  induction p as [|a p IH].
  - intros _. rewrite append_nil_l. simpl. by rewrite Ascii.eqb_refl.
  - rewrite contains_char_cons. intros Hp.
    apply orb_false_elim in Hp as [Ha Hp].
    rewrite append_cons. simpl find_char. rewrite Ha, (IH Hp).
    destruct (Z.ltb_spec (Z.of_nat (String.length p)) 0); [lia|].
    simpl String.length. lia.
Qed.

Lemma rfind_char_absent c q :
  contains (String c "") q = false → rfind_char c q = -1.
Proof.
  induction q as [|a q IH]; [done|].
  rewrite contains_char_cons. intros Hq.
  apply orb_false_elim in Hq as [Ha Hq].
  simpl. rewrite (IH Hq). simpl. by rewrite Ha.
Qed.

Lemma rfind_char_append c s q :
  contains (String c "") q = false →
  rfind_char c (s ++ String c q) = Z.of_nat (String.length s).
Proof.
  intros Hq. induction s as [|a s IH].
  - rewrite append_nil_l. simpl. rewrite (rfind_char_absent c q Hq). simpl.
    by rewrite Ascii.eqb_refl.
  - rewrite append_cons. simpl rfind_char. rewrite IH.
    destruct (Z.leb_spec 0 (Z.of_nat (String.length s))); [|lia].
    simpl String.length. lia.
Qed.

Lemma substring_append p s q :
  String.substring (String.length p) (String.length s) (p ++ s ++ q) = s.
Proof.
  induction p as [|a p IH]; [|by rewrite append_cons].
  rewrite append_nil_l. simpl String.length.
  induction s as [|b s IHs]; [rewrite append_nil_l; by destruct q|].
  rewrite append_cons. simpl. by rewrite IHs.
Qed.
End CleanMore.

Section Unwrap.
Import PyStr.
Implicit Types (s p q body : string).

Lemma wraps_intro body p q :
  contains "{" p = false → contains "}" q = false →
  wraps body (p ++ String "{" (body ++ String "}" q)).
Proof. intros Hp Hq. by exists p, q. Qed.

Lemma wraps_elim body s :
  wraps body s →
  ∃ p q, s = p ++ String "{" (body ++ String "}" q)
         ∧ contains "{" p = false ∧ contains "}" q = false.
Proof. intros (p & q & -> & Hp & Hq). by exists p, q. Qed.

Lemma frame_assoc p body q :
  p ++ String "{" (body ++ String "}" q)
  = (p ++ String "{" body) ++ String "}" q.
Proof. by rewrite append_assoc, append_cons. Qed.

Lemma wraps_strip body s : wraps body s → wraps body (strip s).
Proof.
  intros Hw. apply wraps_elim in Hw as (p & q & -> & Hp & Hq).
  unfold strip. rewrite lstrip_append by done.
  rewrite frame_assoc, rstrip_append by done. rewrite <- frame_assoc.
  apply wraps_intro; [by apply lstrip_keeps_absent|by apply rstrip_keeps_absent].
Qed.

Lemma wraps_unfence_start body s :
  wraps body s →
  wraps body (if startswith "```json" s then drop 7 s else s).
Proof.
  intros Hw. destruct (startswith "```json" s) eqn:Hstart; [|done].
  apply wraps_elim in Hw as (p & q & -> & Hp & Hq).
  apply startswith_append in Hstart as [p' ->]; [|done].
  rewrite append_assoc.
  rewrite (drop_append "```json").
  apply wraps_intro; [|done].
  rewrite contains_char_app in Hp. by apply orb_false_elim in Hp as [_ Hp].
Qed.

Lemma wraps_unfence_end body s :
  wraps body s →
  wraps body (if endswith "```" s then take (String.length s - 3) s else s).
Proof.
  intros Hw. destruct (endswith "```" s) eqn:Hend; [|done].
  apply wraps_elim in Hw as (p & q & -> & Hp & Hq).
  rewrite frame_assoc in Hend |- *.
  apply endswith_append in Hend as [q' ->]; [|done].
  rewrite <- append_cons, <- append_assoc.
  rewrite length_append.
  replace (String.length ((p ++ String "{" body) ++ String "}" q')
           + String.length "```" - 3)%nat
    with (String.length ((p ++ String "{" body) ++ String "}" q'))
    by (simpl String.length; lia).
  rewrite take_append, <- frame_assoc.
  apply wraps_intro; [done|].
  rewrite contains_char_app in Hq. by apply orb_false_elim in Hq as [Hq _].
Qed.

Lemma wraps_extract body s :
  wraps body s →
  (let start := find_char "{" s in
   let end_ := rfind_char "}" s + 1 in
   if negb (Z.eqb start (-1)) && (start <? end_) then slice start end_ s
   else s) = "{" ++ body ++ "}".
Proof.
  intros Hw. apply wraps_elim in Hw as (p & q & -> & Hp & Hq). cbv zeta.
  rewrite (find_char_append "{" p _ Hp).
  rewrite frame_assoc, (rfind_char_append "}" _ q Hq), <- frame_assoc.
  rewrite length_append. simpl String.length.
  assert (negb (Z.of_nat (String.length p) =? -1) = true) as ->.
  { apply negb_true_iff, Z.eqb_neq. lia. }
  assert ((Z.of_nat (String.length p)
           <? Z.of_nat (String.length p + S (String.length body)) + 1) = true)
    as -> by (apply Z.ltb_lt; lia).
  simpl andb. cbv iota. unfold slice.
  replace (Z.to_nat (Z.of_nat (String.length p))) with (String.length p) by lia.
  replace (Z.to_nat (Z.of_nat (String.length p + S (String.length body)) + 1
                     - Z.of_nat (String.length p)))
    with (String.length (String "{" (body ++ "}"))).
  - replace (p ++ String "{" (body ++ String "}" q))
      with (p ++ String "{" (body ++ "}") ++ q).
    + apply substring_append.
    + by rewrite append_cons, append_assoc.
  - simpl String.length. rewrite length_append. simpl String.length. lia.
Qed.

(** X24.  A reply that holds one object, with text that has no opening
    brace before it and text that has no closing brace after it (blanks, a
    fence, prose), is cleaned to the object alone. *)
Theorem clean_response_unwraps (body response_text : string) :
  wraps body response_text →
  clean_response response_text = "{" ++ body ++ "}".
Proof.
  intros Hw. unfold clean_response.
  apply wraps_extract, wraps_strip, wraps_unfence_end, wraps_unfence_start,
    wraps_strip, Hw.
Qed.
End Unwrap.

Lemma clean_response_unwraps_witness :
  clean_response ("```json" ++ String "010" "{ }" ++ String "010" "```") = "{ }".
Proof.
  apply (clean_response_unwraps " ").
  exists ("```json" ++ String "010" ""), (String "010" "```").
  split_and!; reflexivity.
Defined.

(** ** What the regular expressions capture *)

Section Captures.
Import PyStr Re.
Implicit Types (Q : capture → Prop) (R : string → Prop) (k : cont)
  (r : alternative) (cls : ascii → bool).

Lemma ensures_end Q R :
  (∀ cap, Q cap → R (text cap)) → ensures Q R (match_here []).
Proof. intros HQ prev s cap n g m Hcap [= <- _]. by apply HQ. Qed.

Lemma ensures_lit c r Q Q' R :
  (∀ cap, Q cap → Q' (push c cap)) →
  ensures Q' R (match_here r) →
  ensures Q R (match_here (Lit c :: r)).
Proof.
  intros Hpush Hk prev s cap n g m Hcap. simpl.
  destruct s as [|c' s]; [done|].
  destruct (Ascii.eqb c c') eqn:Hc; [|done].
  apply Ascii.eqb_eq in Hc as <-. apply Hk. by apply Hpush.
Qed.

Lemma ensures_greedy cls k Q R :
  (∀ c cap, cls c = true → Q cap → Q (push c cap)) →
  ensures Q R k →
  ensures Q R (greedy cls k).
Proof.
  intros Hpush Hk prev s. revert prev.
  induction s as [|c s IH]; intros prev cap n g m Hcap; simpl.
  - by apply Hk.
  - destruct (cls c) eqn:Hc; [|by apply Hk].
    destruct (greedy cls k (Some c) s (push c cap) (S n)) as [[g' m']|] eqn:Hrun.
    + intros [= <- <-]. eapply IH; [|exact Hrun]. by apply Hpush.
    + by apply Hk.
Qed.

Lemma ensures_star cls r Q R :
  (∀ c cap, cls c = true → Q cap → Q (push c cap)) →
  ensures Q R (match_here r) →
  ensures Q R (match_here (Star cls :: r)).
Proof. intros Hpush Hk. simpl. by apply ensures_greedy. Qed.

Lemma ensures_plus cls r Q Q' R :
  (∀ c cap, cls c = true → Q cap → Q' (push c cap)) →
  (∀ c cap, cls c = true → Q' cap → Q' (push c cap)) →
  ensures Q' R (match_here r) →
  ensures Q R (match_here (Plus cls :: r)).
Proof.
  intros Hfirst Hpush Hk prev s cap n g m Hcap. simpl.
  destruct s as [|c s]; [done|].
  destruct (cls c) eqn:Hc; [|done].
  apply (ensures_greedy cls _ Q' R Hpush Hk). by apply Hfirst.
Qed.

Lemma ensures_open r Q Q' R :
  Q' {| recording := true; text := "" |} →
  ensures Q' R (match_here r) →
  ensures Q R (match_here (GroupOpen :: r)).
Proof. intros Hopen Hk prev s cap n g m _. simpl. by apply Hk. Qed.

Lemma ensures_close r Q Q' R :
  (∀ cap, Q cap → Q' {| recording := false; text := text cap |}) →
  ensures Q' R (match_here r) →
  ensures Q R (match_here (GroupClose :: r)).
Proof.
  intros Hclose Hk prev s cap n g m Hcap. simpl. apply Hk. by apply Hclose.
Qed.

Lemma ensures_boundary r Q R :
  ensures Q R (match_here r) → ensures Q R (match_here (WordBoundary :: r)).
Proof.
  intros Hk prev s cap n g m Hcap. simpl.
  destruct (xorb _ _); [by apply Hk|done].
Qed.

Lemma ensures_line_start r Q R :
  ensures Q R (match_here r) → ensures Q R (match_here (LineStart :: r)).
Proof.
  intros Hk prev s cap n g m Hcap. simpl.
  destruct (at_line_start prev); [by apply Hk|done].
Qed.

(** Outside the group nothing is recorded. *)
Lemma idle_push c cap : recording cap = false → push c cap = cap.
Proof. unfold push. by intros ->. Qed.

Lemma closed_push R c cap : closed_on R cap → closed_on R (push c cap).
Proof. intros [Hrec HR]. by rewrite idle_push. Qed.

Lemma all_chars_app cls s t :
  all_chars cls (s ++ t) = all_chars cls s && all_chars cls t.
Proof.
  induction s as [|a s IH]; [done|].
  change (String a s ++ t) with (String a (s ++ t)). simpl.
  by rewrite IH, andb_assoc.
Qed.

Lemma run_of_push cls w c :
  cls c = true → (w = "" ∨ run_of cls w) → run_of cls (w ++ String c "").
Proof.
  intros Hc Hw. split.
  - by destruct w.
  - rewrite all_chars_app. simpl. rewrite Hc. simpl.
    destruct Hw as [->|[_ ->]]; done.
Qed.

(** The first character of the group, and the following ones. *)
Lemma reading_first cls c :
  cls c = true →
  reading cls "" (push c {| recording := true; text := "" |}).
Proof.
  intros Hc. split; [done|]. exists (String c ""). split.
  - apply (run_of_push cls "" c Hc). by left.
  - done.
Qed.

Lemma reading_more cls c cap :
  cls c = true → reading cls "" cap → reading cls "" (push c cap).
Proof.
  intros Hc (Hrec & w & Hw & Htext). unfold push. rewrite Hrec.
  split; [done|]. exists (w ++ String c ""). split.
  - apply run_of_push; [done|by right].
  - simpl. rewrite Htext.
    clear. induction w as [|a w IH]; [done|].
    change (String a w ++ "") with (String a (w ++ "")).
    change (String a w ++ String c "") with (String a (w ++ String c "")).
    change (String a (w ++ "") ++ String c "")
      with (String a ((w ++ "") ++ String c "")).
    change (String a (w ++ String c "") ++ "")
      with (String a ((w ++ String c "") ++ "")).
    by rewrite IH.
Qed.

Lemma reading_suffix cls suffix c cap :
  reading cls suffix cap → reading cls (suffix ++ String c "") (push c cap).
Proof.
  intros (Hrec & w & Hw & Htext). unfold push. rewrite Hrec.
  split; [done|]. exists w. split; [done|]. simpl. rewrite Htext.
  clear. induction w as [|a w IH]; [done|].
  change (String a w ++ suffix) with (String a (w ++ suffix)).
  change (String a (w ++ suffix) ++ String c "")
    with (String a ((w ++ suffix) ++ String c "")).
  change (String a w ++ suffix ++ String c "")
    with (String a (w ++ suffix ++ String c "")).
  by rewrite IH.
Qed.

(** The groups of [findall] are groups of matches. *)
Lemma scan_groups (p : pattern) R :
  (∀ prev s g n, match_at p prev s = Some (g, n) → R g) →
  ∀ s skip prev, Forall R (scan p skip prev s).
Proof.
  intros Hmatch. induction s as [|c s IH]; intros skip prev.
  - destruct skip as [|skip]; simpl; [|done].
    destruct (match_at p prev "") as [[g n]|] eqn:Hm; [|done].
    constructor; [by eapply Hmatch|done].
  - destruct skip as [|skip]; simpl; [|by apply IH].
    destruct (match_at p prev (String c s)) as [[g n]|] eqn:Hm; [|by apply IH].
    constructor; [by eapply Hmatch|by apply IH].
Qed.

Lemma match_at_one r R prev s g n :
  ensures (fun cap => cap = no_capture) R (match_here r) →
  match_at [r] prev s = Some (g, n) → R g.
Proof.
  intros Hr. simpl.
  destruct (match_here r prev s no_capture 0%nat) as [[g' n']|] eqn:Hm; [|done].
  intros [= <- <-]. by eapply Hr.
Qed.
End Captures.

Section Patterns.
Import PyStr Re.

Local Ltac before_group :=
  repeat first
    [ apply ensures_boundary
    | apply ensures_line_start
    | apply (ensures_lit _ _ (fun cap => cap = no_capture)
               (fun cap => cap = no_capture)); [by intros ? ->|]
    | apply (ensures_plus _ _ (fun cap => cap = no_capture)
               (fun cap => cap = no_capture));
        [by intros ? ? _ ->|by intros ? ? _ ->|] ].

Local Ltac group_of cls :=
  apply (ensures_open _ (fun cap => cap = no_capture)
           (fun cap => cap = {| recording := true; text := "" |}));
    [done|];
  apply (ensures_plus cls _ _ (reading cls ""));
    [intros ? ? ? ->; by apply reading_first
    |intros ? ? ? ?; by apply reading_more|].

Local Ltac after_group R :=
  repeat first
    [ apply (ensures_lit _ _ (closed_on R) (closed_on R));
        [intros ? ?; by apply closed_push|]
    | apply (ensures_plus _ _ (closed_on R) (closed_on R));
        [intros ? ? _ ?; by apply closed_push
        |intros ? ? _ ?; by apply closed_push|]
    | apply (ensures_star _ _ (closed_on R));
        [intros ? ? _ ?; by apply closed_push|]
    | apply ensures_end; by intros ? [_ ?] ].

Lemma reading_done cls cap :
  reading cls "" cap →
  closed_on (run_of cls) {| recording := false; text := text cap |}.
Proof.
  intros (_ & w & Hw & Htext). split; [done|]. simpl.
  by rewrite Htext, append_nil_r.
Qed.

Lemma group_then_close cls r :
  ensures (closed_on (run_of cls)) (run_of cls) (match_here r) →
  ensures (fun cap => cap = no_capture) (run_of cls)
    (match_here (GroupOpen :: Plus cls :: GroupClose :: r)).
Proof.
  intros Hr. group_of cls.
  apply (ensures_close _ _ (closed_on (run_of cls))); [|done].
  intros cap. apply reading_done.
Qed.

Lemma class_groups prev s g n :
  match_at CLASS_RE prev s = Some (g, n) → run_of is_word g.
Proof.
  apply match_at_one. cbv [lits app]. before_group.
  apply group_then_close. after_group (run_of is_word).
Qed.

Lemma import_groups prev s g n :
  match_at IMPORT_RE prev s = Some (g, n) → run_of dot_or_word g.
Proof.
  apply match_at_one. cbv [lits app]. before_group.
  apply group_then_close. after_group (run_of dot_or_word).
Qed.

Lemma match_at_two (r1 r2 : alternative) (R : string → Prop) prev s g n :
  ensures (fun cap => cap = no_capture) R (match_here r1) →
  ensures (fun cap => cap = no_capture) R (match_here r2) →
  match_at [r1; r2] prev s = Some (g, n) → R g.
Proof.
  intros H1 H2. simpl.
  destruct (match_here r1 prev s no_capture 0%nat) as [[g1 n1]|] eqn:Hm1.
  - intros [= <- <-]. by eapply H1.
  - destruct (match_here r2 prev s no_capture 0%nat) as [[g2 n2]|] eqn:Hm2;
      [|done].
    intros [= <- <-]. by eapply H2.
Qed.

Lemma call_groups prev s g n :
  match_at CALL_RE prev s = Some (g, n) → run_of is_word g.
Proof.
  apply match_at_two; cbv [lits app].
  - before_group. apply group_then_close. after_group (run_of is_word).
  - apply group_then_close. after_group (run_of is_word).
Qed.

Lemma frame_groups prev s g n :
  match_at STACK_TRACE_RE prev s = Some (g, n) →
  ∃ w, run_of is_word w ∧ g = w ++ ".java".
Proof.
  apply (match_at_one _ (fun g => ∃ w, run_of is_word w ∧ g = w ++ ".java")).
  cbv [lits app]. before_group.
  group_of is_word.
  apply (ensures_lit _ _ _ (reading is_word "."));
    [intros cap; apply (reading_suffix is_word "")|].
  apply (ensures_lit _ _ _ (reading is_word ".j"));
    [intros cap; apply (reading_suffix is_word ".")|].
  apply (ensures_lit _ _ _ (reading is_word ".ja"));
    [intros cap; apply (reading_suffix is_word ".j")|].
  apply (ensures_lit _ _ _ (reading is_word ".jav"));
    [intros cap; apply (reading_suffix is_word ".ja")|].
  apply (ensures_lit _ _ _ (reading is_word ".java"));
    [intros cap; apply (reading_suffix is_word ".jav")|].
  apply (ensures_close _ _
           (closed_on (fun g => ∃ w, run_of is_word w ∧ g = w ++ ".java")));
    [intros cap (_ & w & Hw & Htext); split; [done|]; by exists w|].
  after_group (fun g : string => ∃ w, run_of is_word w ∧ g = w ++ ".java").
Qed.

Lemma endswith_own_suffix (e w : string) : endswith e (w ++ e) = true.
Proof.
  induction w as [|a w IH].
  - rewrite append_nil_l. destruct e as [|b e]; [done|].
    change (endswith (String b e) (String b e))
      with (String.eqb (String b e) (String b e) || endswith (String b e) e).
    by rewrite String.eqb_refl.
  - rewrite append_cons. simpl. rewrite IH. apply orb_true_r.
Qed.
End Patterns.

Section Symbols.
Context `{Environment}.
Import PyStr.

(** X25.  Every file name extracted from an error text is a non-empty run
    of word characters followed by [".java"]: it ends in [".java"] and
    has no directory part. *)
Theorem extracted_names_shape (error_text name : string) :
  name ∈ extract_filenames_from_error error_text →
  (∃ w, run_of is_word w ∧ name = w ++ ".java")
  ∧ endswith ".java" name = true.
Proof.
  unfold extract_filenames_from_error. rewrite elem_of_list_to_set.
  intros Hin.
  assert (∃ w, run_of is_word w ∧ name = w ++ ".java") as (w & Hw & ->).
  { pose proof (scan_groups Re.STACK_TRACE_RE _ frame_groups error_text
                  0%nat None) as Hall.
    rewrite Forall_forall in Hall. by apply Hall. }
  split; [by exists w|]. apply endswith_own_suffix.
Qed.

(** X26.  In an entry built from a file, every import is a non-empty run
    of word characters and dots, every call a non-empty run of word
    characters, and the class name is such a run too, or the base name of
    the path without its extension when the text declares no class. *)
Theorem build_file_entry_symbols (file_path : string) (w w' : World)
    (e : FileEntry) :
  build_file_entry file_path w = (w', Ok e) →
  Forall (run_of Re.dot_or_word) (imports e)
  ∧ Forall (run_of is_word) (calls e)
  ∧ (run_of is_word (class_name e)
     ∨ class_name e = splitext_stem (basename file_path)).
Proof.
  destruct (files w !! file_path) as [f|] eqn:Hf.
  - rewrite (build_file_entry_found file_path f w Hf). intros [= _ <-].
    simpl. split_and!.
    + apply (scan_groups Re.IMPORT_RE _ import_groups).
    + apply (scan_groups Re.CALL_RE _ call_groups).
    + unfold Re.search, Re.findall.
      pose proof (scan_groups Re.CLASS_RE _ class_groups (data f) 0%nat None)
        as Hall.
      destruct (Re.scan Re.CLASS_RE 0 None (data f)) as [|g gs]; simpl.
      * by right.
      * left. by apply Forall_cons in Hall as [Hg _].
  - by rewrite (build_file_entry_missing file_path w Hf).
Qed.
End Symbols.

Lemma extracted_names_shape_witness :
  (∃ w, run_of PyStr.is_word w ∧ "Pool.java" = w ++ ".java")
  ∧ PyStr.endswith ".java" "Pool.java" = true.
Proof.
  apply (extracted_names_shape Sample.foreign_trace).
  assert (extract_filenames_from_error Sample.foreign_trace = {["Pool.java"]})
    as -> by (vm_compute; reflexivity).
  by apply elem_of_singleton.
Defined.

Lemma build_file_entry_symbols_witness :
  Forall (run_of Re.dot_or_word) ["B"]
  ∧ Forall (run_of PyStr.is_word) []
  ∧ (run_of PyStr.is_word "Foo" ∨ "Foo" = "Foo").
Proof.
  apply (@build_file_entry_symbols Sample.foo_env "/srv/app/Foo.java"
           Sample.foo_world Sample.foo_world
           (@entry_of Sample.foo_env "/srv/app/Foo.java"
              (Sample.file Sample.foo_old))).
  vm_compute. reflexivity.
Defined.
